(** * Sigma: Drive -> SFTP relay.  A shallow embedding of the synchronisation
    core ([modules/drive_handler.py], [modules/sftp_handler.py],
    [modules/watcher.py], [config/settings.py]) and the properties of its
    specification.

    Conventions of the embedding.
    - Python code that talks to the outside world (Drive REST client, paramiko,
      the local file system, the stop flag) is written in a state-and-exception
      monad [M] over an abstract environment [E]; every primitive call is a
      [Call] performed by the environment and recorded, with its outcome, in a
      chronological trace together with the log records and the sleeps.
    - Exceptions are the subclasses of Python's [Exception]; interrupts
      (BaseException only) are outside the model.
    - [while True] loops take a fuel argument; running out of fuel is the
      outcome [Diverged], which no handler catches.
    - [os.path] is [posixpath]; strings are byte strings, and [str.lower] is
      modelled on ASCII letters.
    - A Python float is the rational it stands for.  The quotient of the size
      check is rounded as a binary64 quotient is ([Py.round53]);
      [time.sleep] is taken on delays it accepts (not negative, not beyond its
      limit), and the products of the back-off on those are exact. *)

From Stdlib Require Import String Ascii List ZArith QArith Lia Bool Arith.
Import ListNotations.
Close Scope Q_scope.
Local Open Scope nat_scope.
Local Open Scope list_scope.
Local Open Scope string_scope.

(* ------------------------------------------------------------------ *)
(** ** Python strings *)

Module Py.

Definition truthy (s : string) : bool :=
  match s with EmptyString => false | _ => true end.

(** [s.rstrip(c)] for a one-character argument. *)
Fixpoint rstrip (c : ascii) (s : string) : string :=
  match s with
  | EmptyString => EmptyString
  | String a s' =>
      match rstrip c s' with
      | EmptyString => if Ascii.eqb a c then EmptyString else String a EmptyString
      | r => String a r
      end
  end.

(** [s.lstrip(c)] for a one-character argument. *)
Fixpoint lstrip (c : ascii) (s : string) : string :=
  match s with
  | EmptyString => EmptyString
  | String a s' => if Ascii.eqb a c then lstrip c s' else s
  end.

(** [s.strip(c)]. *)
Definition strip (c : ascii) (s : string) : string := rstrip c (lstrip c s).

(** ASCII white space as [str.isspace] sees it: TAB..CR, FS..US, space. *)
Definition isspace (a : ascii) : bool :=
  let n := nat_of_ascii a in
  (((9 <=? n) && (n <=? 13)) || ((28 <=? n) && (n <=? 32)))%nat.

Fixpoint rstrip_ws (s : string) : string :=
  match s with
  | EmptyString => EmptyString
  | String a s' =>
      match rstrip_ws s' with
      | EmptyString => if isspace a then EmptyString else String a EmptyString
      | r => String a r
      end
  end.

Fixpoint lstrip_ws (s : string) : string :=
  match s with
  | EmptyString => EmptyString
  | String a s' => if isspace a then lstrip_ws s' else s
  end.

(** [s.strip()]. *)
Definition strip_ws (s : string) : string := rstrip_ws (lstrip_ws s).

(** [s.split(c)] for a one-character separator: never an empty list. *)
Fixpoint split (c : ascii) (s : string) : list string :=
  match s with
  | EmptyString => [EmptyString]
  | String a s' =>
      if Ascii.eqb a c then EmptyString :: split c s'
      else match split c s' with
           | [] => [String a EmptyString]
           | w :: ws => String a w :: ws
           end
  end.

Definition lower_ascii (a : ascii) : ascii :=
  let n := nat_of_ascii a in
  if ((65 <=? n) && (n <=? 90))%nat then ascii_of_nat (n + 32) else a.

(** [s.lower()]. *)
Fixpoint lower (s : string) : string :=
  match s with
  | EmptyString => EmptyString
  | String a s' => String (lower_ascii a) (lower s')
  end.

(** [s.replace(c, d)] for one-character arguments. *)
Fixpoint replace (c d : ascii) (s : string) : string :=
  match s with
  | EmptyString => EmptyString
  | String a s' => String (if Ascii.eqb a c then d else a) (replace c d s')
  end.

(** [s.startswith(p)]. *)
Definition startswith (s p : string) : bool := String.prefix p s.

Fixpoint endswith_char (s : string) (c : ascii) : bool :=
  match s with
  | EmptyString => false
  | String a EmptyString => Ascii.eqb a c
  | String _ s' => endswith_char s' c
  end.

(** [sep.join(l)]. *)
Fixpoint join (sep : string) (l : list string) : string :=
  match l with
  | [] => EmptyString
  | [x] => x
  | x :: xs => x ++ sep ++ join sep xs
  end.

(** [(p[:i], p[i:])] for [i = p.rfind("/") + 1]. *)
Fixpoint rsplit_slash (p : string) : string * string :=
  match p with
  | EmptyString => (EmptyString, EmptyString)
  | String a p' =>
      let (h, t) := rsplit_slash p' in
      if truthy h then (String a h, t)
      else if Ascii.eqb a "/" then (String a EmptyString, t)
      else (EmptyString, String a t)
  end.

(** [posixpath.dirname]: the head up to the last slash, its trailing
    slashes stripped unless it consists of slashes only. *)
Definition dirname (p : string) : string :=
  let head := fst (rsplit_slash p) in
  match rstrip "/" head with
  | EmptyString => head
  | r => r
  end.

(** [posixpath.basename] *)
Definition basename (p : string) : string := snd (rsplit_slash p).

(** [posixpath.join(a, b)] *)
Definition path_join (a b : string) : string :=
  if startswith b "/" then b
  else if negb (truthy a) || endswith_char a "/" then a ++ b
  else a ++ "/" ++ b.

(** [(s[:d], s[d:])] for the last dot [d] of [s], if [s] has a dot. *)
Fixpoint split_last_dot (s : string) : option (string * string) :=
  match s with
  | EmptyString => None
  | String a s' =>
      match split_last_dot s' with
      | Some (pre, suf) => Some (String a pre, suf)
      | None => if Ascii.eqb a "." then Some (EmptyString, s) else None
      end
  end.

Fixpoint all_dots (s : string) : bool :=
  match s with
  | EmptyString => true
  | String a s' => Ascii.eqb a "." && all_dots s'
  end.

(** [posixpath.splitext]: the extension starts at the last dot of the last
    path component, unless only dots come before it in that component. *)
Definition splitext (p : string) : string * string :=
  let (head, base) := rsplit_slash p in
  match split_last_dot base with
  | Some (pre, suf) =>
      if all_dots pre then (p, EmptyString) else (head ++ pre, suf)
  | None => (p, EmptyString)
  end.

(** [a or b] on optional strings. *)
Definition or_else (a : option string) (b : string) : string :=
  match a with
  | Some x => if truthy x then x else b
  | None => b
  end.

Definition truthy_opt (a : option string) : bool :=
  match a with Some x => truthy x | None => false end.

(** [x in l] on strings. *)
Definition mem (x : string) (l : list string) : bool :=
  existsb (String.eqb x) l.

(** [float(n)] for an integer [0 <= n < 2^1024], as an integer: the binary64
    nearest to [n], ties to even.  An integer of at most 53 bits is a float;
    a longer one keeps its 53 leading bits, rounded.  Dividing by a power of
    two is exact on floats, so the float [n / 2^k] is [round53 n / 2^k]. *)
Definition round53 (n : N) : N :=
  let bits := N.size n in
  if (bits <=? 53)%N then n
  else
    let e := (bits - 53)%N in
    let q := N.shiftr n e in
    let rem := (n - N.shiftl q e)%N in
    let half := N.shiftl 1 (e - 1) in
    let q' := if (half <? rem)%N || ((rem =? half)%N && N.odd q) then (q + 1)%N else q in
    N.shiftl q' e.

End Py.

(* ------------------------------------------------------------------ *)
(** ** Exceptions, outcomes, events *)

(** The exception classes the code tells apart: [googleapiclient]'s
    [HttpError], [IOError] (= [OSError]) with its [errno], and every other
    subclass of [Exception], by class name. *)
Inductive exn : Type :=
| HttpError (msg : string)
| IOError (errno : option Z) (msg : string)
| PyError (cls : string) (msg : string).

Definition EACCES : Z := 13.
Definition ENOENT : Z := 2.

Definition is_HttpError (e : exn) : bool :=
  match e with HttpError _ => true | _ => false end.

Definition is_IOError (e : exn) : bool :=
  match e with IOError _ _ => true | _ => false end.

(** [isinstance(ee, IOError) and getattr(ee, "errno", None) == errno.EACCES] *)
Definition is_EACCES (e : exn) : bool :=
  match e with
  | IOError (Some n) _ => Z.eqb n EACCES
  | _ => false
  end.

Inductive res (A : Type) : Type :=
| Ret (a : A)
| Raise (e : exn)
| Diverged.
Arguments Ret {A} a.
Arguments Raise {A} e.
Arguments Diverged {A}.

(** What a primitive call gives back: a value or an exception. *)
Inductive answer (A : Type) : Type :=
| Ok (a : A)
| Fail (e : exn).
Arguments Ok {A} a.
Arguments Fail {A} e.

Definition res_of {A} (a : answer A) : res A :=
  match a with Ok v => Ret v | Fail e => Raise e end.

Definition failure {A} (a : answer A) : option exn :=
  match a with Ok _ => None | Fail e => Some e end.

Inductive Level : Type := DEBUG | INFO | WARNING | ERROR.

(** An interpolated value of a log record. *)
Inductive Arg : Type :=
| AStr (s : string)
| AOpt (s : option string)
| ANat (n : nat)
| AInt (z : Z)
| AQ (q : Q)
| AExn (e : exn)
| AList (l : list string).

(** One file of a listing page: the fields of the metadata dict the code reads. *)
Record FileMeta : Type := mkFileMeta {
  fm_id : string;
  fm_name : string;
  fm_mimeType : string
}.

(** One response of [files().list(...).execute()]. *)
Record ListResp : Type := mkListResp {
  lr_files : list FileMeta;
  lr_nextPageToken : option string
}.

Inductive MediaRequest : Type :=
| ExportMedia (fileId mimeType : string)
| GetMedia (fileId : string).

(** The primitive calls into the libraries and the operating system. *)
Inductive Call : Type :=
| CDriveList (q : string) (pageSize : nat) (fields : string) (pageToken : option string)
| CDriveGet (fileId fields : string)
| CDriveUpdate (fileId addParents : string) (removeParents : option string) (fields : string)
| CDriveCreate (name mimeType : string) (parents : list string) (fields : string)
| CDriveDelete (fileId : string)
| CDriveDownload (req : MediaRequest) (dest_path : string) (chunksize : N)
| COsMakedirs (path : string)
| COsGetsize (path : string)
| COsExists (path : string)
| COsRemove (path : string)
| CTransport (host : string) (port : Z)
| CLoadKey (key_file : string)
| CAuthKey (username key_file : string)
| CAuthPassword (username : string) (password : option string)
| CSftpFromTransport
| CSftpNormalize (path : string)
| CSftpListdir (path : string)
| CSftpStat (path : string)
| CSftpMkdir (path : string)
| CSftpPut (localpath remotepath : string)
| CSftpClose
| CTransportClose
| CStopFlag.

(** What each call returns to the Python code. *)
Definition ret_ty (c : Call) : Type :=
  match c with
  | CDriveList _ _ _ _ => ListResp
  | CDriveGet _ _ => list string
  | CDriveCreate _ _ _ _ => string
  | COsGetsize _ => N
  | COsExists _ => bool
  | CSftpNormalize _ => string
  | CSftpListdir _ => list string
  | CStopFlag => bool
  | _ => unit
  end.

Inductive Event : Type :=
| EvLog (lvl : Level) (fmt : string) (args : list Arg)
| EvSleep (secs : Q)
| EvCall (c : Call) (raised : option exn).

(** The outside world: it answers every primitive call. *)
Class Env (E : Type) : Type := {
  perform : forall c : Call, E -> answer (ret_ty c) * E
}.

(* ------------------------------------------------------------------ *)
(** ** The monad of the embedding *)

Section Monad.
Context {E : Type} {EE : Env E}.

Record St : Type := mkSt { env : E; trace : list Event }.

Definition M (A : Type) : Type := St -> res A * St.

Definition ret {A} (a : A) : M A := fun s => (Ret a, s).

Definition raise {A} (e : exn) : M A := fun s => (Raise e, s).

Definition bind {A B} (m : M A) (k : A -> M B) : M B :=
  fun s =>
    match m s with
    | (Ret a, s') => k a s'
    | (Raise e, s') => (Raise e, s')
    | (Diverged, s') => (Diverged, s')
    end.

Definition emit (ev : Event) : M unit :=
  fun s => (Ret tt, mkSt (env s) (trace s ++ [ev])%list).

Definition log (lvl : Level) (fmt : string) (args : list Arg) : M unit :=
  emit (EvLog lvl fmt args).

(** [time.sleep(secs)] *)
Definition sleep (secs : Q) : M unit := emit (EvSleep secs).

(** A primitive call: the environment answers, the trace records it. *)
Definition call (c : Call) : M (ret_ty c) :=
  fun s =>
    let (a, e') := perform c (env s) in
    (res_of a, mkSt e' (trace s ++ [EvCall c (failure a)])%list).

(** [try: m  except Exception as e: h e] *)
Definition try_except {A} (m : M A) (h : exn -> M A) : M A :=
  fun s =>
    match m s with
    | (Raise e, s') => h e s'
    | rs => rs
    end.

(** [try: m  except C as e: h e], for the class [C] recognised by [sel]. *)
Definition try_except_if {A} (sel : exn -> bool) (m : M A) (h : exn -> M A) : M A :=
  try_except m (fun e => if sel e then h e else raise e).

(** [try: m  finally: f] *)
Definition try_finally {A} (m : M A) (f : M unit) : M A :=
  fun s =>
    match m s with
    | (Diverged, s') => (Diverged, s')
    | (r, s') =>
        match f s' with
        | (Ret _, s'') => (r, s'')
        | (Raise e, s'') => (Raise e, s'')
        | (Diverged, s'') => (Diverged, s'')
        end
    end.

Definition when (b : bool) (m : M unit) : M unit := if b then m else ret tt.

End Monad.

Arguments St E : clear implicits.
Arguments M E A : clear implicits.

Declare Scope py_scope.
Delimit Scope py_scope with py.
Notation "x <- m ;; k" := (bind m (fun x => k))
  (at level 61, m at next level, right associativity) : py_scope.
Notation "m ;; k" := (bind m (fun _ => k))
  (at level 61, right associativity) : py_scope.
Local Open Scope py_scope.

(* ------------------------------------------------------------------ *)
(** ** config/settings.py *)

Module settings.
Record t : Type := mk {
  TEMP_DOWNLOAD_DIR : string;
  DRIVE_FOLDER_ID : string;
  ARCHIVE_FOLDER_NAME : string;
  SFTP_HOST : string;
  SFTP_PORT : Z;
  SFTP_USERNAME : string;
  POLL_INTERVAL : Z;
  ALLOWED_EXTENSIONS : list string;
  MAX_FILE_SIZE_MB : Q
}.

(** The values of the file as shipped ([APP_ROOT] is where the program is
    installed). *)
Definition default (APP_ROOT : string) : t :=
  {| TEMP_DOWNLOAD_DIR := APP_ROOT ++ "/temp_files";
     DRIVE_FOLDER_ID := "";
     ARCHIVE_FOLDER_NAME := "Sigma_Archive";
     SFTP_HOST := "";
     SFTP_PORT := 22%Z;
     SFTP_USERNAME := "";
     POLL_INTERVAL := 30%Z;
     ALLOWED_EXTENSIONS := [];
     MAX_FILE_SIZE_MB := 0%Q |}.
End settings.

(* ------------------------------------------------------------------ *)
(** ** modules/drive_handler.py *)

Module drive_handler.
Section WithEnv.
Context {E : Type} {EE : Env E}.

Definition DEFAULT_CHUNK_SIZE : N := 32768%N.
Definition DEFAULT_ARCHIVE_FOLDER_NAME : string := "Sigma_Archive".

(** [base_sleep * (2 ** (attempt - 1))] *)
Definition backoff (base_sleep : Q) (attempt : nat) : Q :=
  (base_sleep * (2 ^ Z.of_nat (attempt - 1)))%Q.

(** The warning of a failed attempt: the two [except] clauses differ in the
    text only. *)
Definition retry_warning (attempt retries : nat) (e : exn) : Event :=
  EvLog WARNING
    (if is_HttpError e then "HttpError on attempt {attempt}/{retries}: {e}"
     else "Error on attempt {attempt}/{retries}: {e}")
    [ANat attempt; ANat retries; AExn e].

(** The body of [for attempt in range(1, retries + 1)], from [attempt] on,
    with [remaining] iterations left; after the loop, [raise last_exc]
    (with [last_exc = None] that is a TypeError). *)
Fixpoint retry_loop {A} (func : M E A) (retries : nat) (base_sleep : Q)
         (attempt remaining : nat) (last_exc : option exn) : M E A :=
  match remaining with
  | O =>
      match last_exc with
      | Some e => raise e
      | None => raise (PyError "TypeError" "exceptions must derive from BaseException")
      end
  | S remaining' =>
      try_except func (fun e =>
        emit (retry_warning attempt retries e) ;;
        if Nat.eqb attempt retries then raise e
        else
          sleep (backoff base_sleep attempt) ;;
          retry_loop func retries base_sleep (S attempt) remaining' (Some e))
  end.

(** [_retry(func, retries=3, base_sleep=1.0)] *)
Definition _retry {A} (func : M E A) (retries : nat) (base_sleep : Q) : M E A :=
  retry_loop func retries base_sleep 1 retries None.

(** [_retry(func)] with the defaults, as every caller writes it. *)
Definition _retry_default {A} (func : M E A) : M E A := _retry func 3 1%Q.

(** Running out of fuel in a [while True]. *)
Definition diverge {A} : M E A := fun s => (Diverged, s).

(* ----- LIST FILES ----- *)

Definition LIST_FIELDS : string :=
  "nextPageToken, files(id, name, mimeType, size, modifiedTime, parents)".

Definition children_query (folder_id : string) (extra_query : option string) : string :=
  let q := "'" ++ folder_id ++ "' in parents and trashed = false" in
  match extra_query with
  | Some x => if Py.truthy x then q ++ " and (" ++ x ++ ")" else q
  | None => q
  end.

(** [_call] of one page, as the closure reads [q], [page_size], [page_token]. *)
Definition list_page (q : string) (page_size : nat) (page_token : option string)
  : M E ListResp :=
  call (CDriveList q page_size LIST_FIELDS page_token).

(** The [while True] of [list_files_in_folder]. *)
Fixpoint list_loop (fuel : nat) (q : string) (page_size : nat)
         (files : list FileMeta) (page_token : option string) : M E (list FileMeta) :=
  match fuel with
  | O => diverge
  | S fuel' =>
      resp <- _retry_default (list_page q page_size page_token) ;;
      let files' := (files ++ lr_files resp)%list in
      let page_token' := lr_nextPageToken resp in
      if negb (Py.truthy_opt page_token') then ret files'
      else list_loop fuel' q page_size files' page_token'
  end.

Definition list_files_in_folder (fuel : nat) (folder_id : string)
           (page_size : nat) (extra_query : option string) : M E (list FileMeta) :=
  files <- list_loop fuel (children_query folder_id extra_query) page_size [] None ;;
  log INFO "Found {len(files)} file(s) in folder {folder_id}"
      [ANat (length files); AStr folder_id] ;;
  ret files.

(* ----- DOWNLOAD ----- *)

Definition _ensure_dir (path : string) : M E unit :=
  if negb (Py.truthy path) then ret tt else call (COsMakedirs path).

(** The request [_do_download] builds: Google-native files are exported. *)
Definition media_request (file_id mime : string) : MediaRequest :=
  if Py.startswith mime "application/vnd.google-apps." then
    let export_mime :=
      if String.eqb mime "application/vnd.google-apps.spreadsheet" then "text/csv"
      else if String.eqb mime "application/vnd.google-apps.document" then "application/pdf"
      else if String.eqb mime "application/vnd.google-apps.presentation" then "application/pdf"
      else "application/pdf" in
    ExportMedia file_id export_mime
  else GetMedia file_id.

(** [_do_download]: open [dest_path] for writing and pull the chunks (one
    primitive call; the per-chunk DEBUG records are not modelled). *)
Definition _do_download (file_id mime dest_path : string) (chunk_size : N) : M E unit :=
  call (CDriveDownload (media_request file_id mime) dest_path chunk_size).

Definition download_file_to_path (file_meta : FileMeta) (dest_path : string)
           (chunk_size : N) : M E string :=
  let file_id := fm_id file_meta in
  let name := fm_name file_meta in
  let mime := fm_mimeType file_meta in
  _ensure_dir (Py.dirname dest_path) ;;
  log INFO "Downloading '{name}' (id={file_id}, mime={mime}) -> {dest_path}"
      [AStr name; AStr file_id; AStr mime; AStr dest_path] ;;
  _retry_default (_do_download file_id mime dest_path chunk_size) ;;
  log INFO "Downloaded '{name}' -> {dest_path}" [AStr name; AStr dest_path] ;;
  ret dest_path.

(* ----- ARCHIVE / MOVE IN DRIVE ----- *)

Definition FOLDER_MIME : string := "application/vnd.google-apps.folder".

Definition folder_query (folder_name : string) : string :=
  "name = '" ++ folder_name ++ "' and mimeType = 'application/vnd.google-apps.folder' and 'root' in parents and trashed = false".

Definition _find_folder_in_root (folder_name : string) : M E (option string) :=
  resp <- _retry_default (call (CDriveList (folder_query folder_name) 10 "files(id, name)" None)) ;;
  match lr_files resp with
  | [] => ret None
  | item :: _ => ret (Some (fm_id item))
  end.

Definition _create_folder_in_root (folder_name : string) : M E string :=
  fid <- _retry_default (call (CDriveCreate folder_name FOLDER_MIME ["root"] "id,name")) ;;
  log INFO "Created Drive folder '{folder_name}' (id={fid}) in root"
      [AStr folder_name; AStr fid] ;;
  ret fid.

Definition get_or_create_archive_folder (folder_name : option string) : M E string :=
  let name := Py.or_else folder_name DEFAULT_ARCHIVE_FOLDER_NAME in
  fid <- _find_folder_in_root name ;;
  if Py.truthy_opt fid then
    log DEBUG "Found existing archive folder '{name}' (id={fid})" [AStr name; AOpt fid] ;;
    ret (Py.or_else fid "")
  else _create_folder_in_root name.

(** [",".join(parents) if parents else None], and then [if remove_parents]. *)
Definition remove_parents_of (parents : list string) : option string :=
  match parents with
  | [] => None
  | _ => let j := Py.join "," parents in if Py.truthy j then Some j else None
  end.

Definition move_file_to_archive (file_id : string)
           (archive_folder_name : option string) : M E bool :=
  try_except
    (archive_id <- get_or_create_archive_folder archive_folder_name ;;
     parents <- _retry_default (call (CDriveGet file_id "id, name, parents")) ;;
     if Py.mem archive_id parents then
       log INFO "File {file_id} already in archive folder {archive_id}"
           [AStr file_id; AStr archive_id] ;;
       ret true
     else
       _retry_default
         (call (CDriveUpdate file_id archive_id (remove_parents_of parents) "id, parents")) ;;
       log INFO "Moved file id={file_id} to archive folder id={archive_id}"
           [AStr file_id; AStr archive_id] ;;
       ret true)
    (fun e =>
       log ERROR "Failed to move file {file_id} to archive: {e}" [AStr file_id; AExn e] ;;
       ret false).

(* ----- DELETE FROM DRIVE ----- *)

Definition delete_file (file_id : string) : M E unit :=
  _retry_default (call (CDriveDelete file_id)) ;;
  log INFO "Deleted file id={file_id} from Drive" [AStr file_id].

(* ----- HIGH-LEVEL: DOWNLOAD ALL NEW FILES ----- *)

(** A result dict [{id, name, path, status, message}]. *)
Record result : Type := mkResult {
  r_id : string;
  r_name : string;
  r_path : string;
  r_status : string;
  r_message : string
}.

(** [str(e)] *)
Definition exn_str (e : exn) : string :=
  match e with
  | HttpError m => m
  | IOError _ m => m
  | PyError _ m => m
  end.

(** The body of [for f in files] in [download_all_from_folder]. *)
Fixpoint download_each (files : list FileMeta) (dest_dir : string)
         (delete_after_download : bool) (allowed_name_prefix : option string)
         (results : list result) : M E (list result) :=
  match files with
  | [] => ret results
  | f :: files' =>
      let fid := fm_id f in
      let fname := fm_name f in
      let continue_ := download_each files' dest_dir delete_after_download allowed_name_prefix in
      let skip :=
        match allowed_name_prefix with
        | Some prefix => Py.truthy prefix && negb (Py.startswith fname prefix)
        | None => false
        end in
      if skip then
        log DEBUG "Skipping '{fname}' since it does not match prefix '{allowed_name_prefix}'"
            [AStr fname; AOpt allowed_name_prefix] ;;
        continue_ results
      else
        let safe_name := Py.replace "/" "_" fname in
        let dest_path := Py.path_join dest_dir safe_name in
        results' <-
          try_except
            (download_file_to_path f dest_path DEFAULT_CHUNK_SIZE ;;
             when delete_after_download (delete_file fid) ;;
             ret (results ++ [mkResult fid fname dest_path "OK" ""])%list)
            (fun e =>
               log ERROR "Failed to handle file {fname} ({fid}): {e}"
                   [AStr fname; AStr fid; AExn e] ;;
               ret (results ++ [mkResult fid fname dest_path "ERROR" (exn_str e)])%list) ;;
        continue_ results'
  end.

Definition download_all_from_folder (fuel : nat) (folder_id dest_dir : string)
           (delete_after_download : bool) (allowed_name_prefix : option string)
  : M E (list result) :=
  files <- list_files_in_folder fuel folder_id 100 None ;;
  download_each files dest_dir delete_after_download allowed_name_prefix [].

End WithEnv.
End drive_handler.

(* ------------------------------------------------------------------ *)
(** ** modules/sftp_handler.py *)

Module sftp_handler.
Section WithEnv.
Context {E : Type} {EE : Env E}.

(** The fields of an [SFTPHandler]; [_transport] and [_sftp] say whether the
    paramiko object has been created. *)
Record SFTPHandler : Type := mkSFTPHandler {
  host : string;
  port : Z;
  username : string;
  password : option string;
  key_file : option string;
  _transport : bool;
  _sftp : bool;
  _home : option string
}.

(** [SFTPHandler(host, port, username, password, key_file)] *)
Definition new (host : string) (port : Z) (username : string)
           (password key_file : option string) : SFTPHandler :=
  mkSFTPHandler host port username password key_file false false None.

(* ---------- connection ---------- *)

(** [connect]: the handler it returns is [self] after the call.  (When
    [connect] raises, the caller drops the handler.) *)
Definition connect (self : SFTPHandler) : M E SFTPHandler :=
  log INFO "SFTP: connecting to {self.host}:{self.port} as {self.username} ..."
      [AStr (host self); AInt (port self); AStr (username self)] ;;
  call (CTransport (host self) (port self)) ;;
  (if Py.truthy_opt (key_file self) then
     call (CLoadKey (Py.or_else (key_file self) "")) ;;
     call (CAuthKey (username self) (Py.or_else (key_file self) ""))
   else call (CAuthPassword (username self) (password self))) ;;
  call CSftpFromTransport ;;
  home <- try_except (h <- call (CSftpNormalize ".") ;; ret (Some h))
                     (fun _ => ret None) ;;
  log INFO "SFTP: connected." [] ;;
  (if Py.truthy_opt home then
     log INFO "SFTP: home = {self._home}" [AOpt home] ;;
     try_except
       (listing <- call (CSftpListdir (Py.or_else home "")) ;;
        log INFO "SFTP: home listing = {listing}" [AList listing])
       (fun e => log WARNING "SFTP: cannot list home: {e}" [AExn e])
   else ret tt) ;;
  ret (mkSFTPHandler (host self) (port self) (username self) (password self)
                     (key_file self) true true home).

Definition close (self : SFTPHandler) : M E unit :=
  try_finally (when (_sftp self) (call CSftpClose))
              (when (_transport self) (call CTransportClose)) ;;
  log INFO "SFTP: disconnected." [].

(* ---------- paths ---------- *)

Definition _aws_intended_dir (self : SFTPHandler) : string :=
  "/vendor-automation-sftp-storage-live-me-1/home/" ++ username self ++ "/catalog".

Definition get_auto_remote_dir (self : SFTPHandler) : M E string :=
  let intended := _aws_intended_dir self in
  match _home self with
  | Some home =>
      if Py.truthy home then
        let remapped := Py.rstrip "/" home ++ "/catalog" in
        log INFO "SFTP: auto remote dir = {remapped} (remapped from AWS full path)"
            [AStr remapped] ;;
        ret remapped
      else
        log INFO "SFTP: auto remote dir = {intended} (no remap)" [AStr intended] ;;
        ret intended
  | None =>
      log INFO "SFTP: auto remote dir = {intended} (no remap)" [AStr intended] ;;
      ret intended
  end.

(* ---------- mkdirs & upload ---------- *)

(** [[p for p in remote_dir.strip("/").split("/") if p]] *)
Definition parts_of (remote_dir : string) : list string :=
  filter Py.truthy (Py.split "/" (Py.strip "/" remote_dir)).

(** [path = f"{path}/{p}" if path else (f"/{p}" if absolute else p)] *)
Definition next_path (absolute : bool) (path p : string) : string :=
  if Py.truthy path then path ++ "/" ++ p
  else if absolute then "/" ++ p else p.

(** One turn of [for p in parts], on the prefix [path] already built. *)
Definition makedirs_step (path : string) : M E unit :=
  try_except_if is_IOError
    (call (CSftpStat path))
    (fun _ =>
       try_except
         (call (CSftpMkdir path) ;;
          log INFO "SFTP: mkdir {path}" [AStr path])
         (fun ee =>
            if is_EACCES ee then raise ee
            else log WARNING "SFTP: mkdir failed for {path}: {ee}" [AStr path; AExn ee])).

Fixpoint makedirs_loop (absolute : bool) (path : string) (parts : list string) : M E unit :=
  match parts with
  | [] => ret tt
  | p :: parts' =>
      let path' := next_path absolute path p in
      makedirs_step path' ;;
      makedirs_loop absolute path' parts'
  end.

Definition makedirs (remote_dir : string) : M E unit :=
  if negb (Py.truthy remote_dir) || Py.mem remote_dir ["/"; "."; "~"] then ret tt
  else makedirs_loop (Py.startswith remote_dir "/") "" (parts_of remote_dir).

Definition upload_to_auto_dir (self : SFTPHandler) (local_path : string) : M E unit :=
  remote_dir <- get_auto_remote_dir self ;;
  let fname := Py.basename local_path in
  let target := Py.rstrip "/" remote_dir ++ "/" ++ fname in
  let tdir := Py.dirname target in
  when (Py.truthy tdir && negb (Py.mem tdir ["."; "/"])) (makedirs tdir) ;;
  log INFO "SFTP: uploading {local_path} -> {target}" [AStr local_path; AStr target] ;;
  call (CSftpPut local_path target) ;;
  log INFO "SFTP: upload OK" [].

End WithEnv.
End sftp_handler.

(* ------------------------------------------------------------------ *)
(** ** modules/watcher.py *)

Module watcher.
Section WithEnv.
Context {E : Type} {EE : Env E}.
(** The module [settings] as the watcher reads it. *)
Context (cfg : settings.t).

Import drive_handler sftp_handler.

(** The [sftp_conf] dict: a missing key is [None]. *)
Record SftpConf : Type := mkSftpConf {
  conf_host : option string;
  conf_port : option Z;
  conf_username : option string;
  conf_password : option string;
  conf_key_file : option string
}.

Definition empty_conf : SftpConf := mkSftpConf None None None None None.

Record Watcher : Type := mkWatcher {
  sftp_conf : SftpConf;
  temp_dir : string
}.

(** [Watcher(drive_service, sftp_conf, temp_dir)]; the Drive service is the
    environment. *)
Definition new (sftp_conf : option SftpConf) (temp_dir : option string) : M E Watcher :=
  let conf := match sftp_conf with Some c => c | None => empty_conf end in
  let dir := Py.or_else temp_dir (settings.TEMP_DOWNLOAD_DIR cfg) in
  call (COsMakedirs dir) ;;
  ret (mkWatcher conf dir).

Definition _filter_allowed (name : string) : bool :=
  match settings.ALLOWED_EXTENSIONS cfg with
  | [] => true
  | allowed =>
      let ext := Py.lower (Py.lstrip "." (snd (Py.splitext name))) in
      Py.mem ext (map Py.lower allowed)
  end.

Definition MB : positive := 1048576.

(** The size test of the filter; [true] is the [continue].  [sz_mb] is the
    float [os.path.getsize(...) / (1024 * 1024)], as the rational it is; the
    comparison with the limit is exact. *)
Definition size_skip (f : result) : M E bool :=
  if negb (Qeq_bool (settings.MAX_FILE_SIZE_MB cfg) 0) then
    try_except
      (sz <- call (COsGetsize (r_path f)) ;;
       let sz_mb := Qmake (Z.of_N (Py.round53 sz)) MB in
       if negb (Qle_bool sz_mb (settings.MAX_FILE_SIZE_MB cfg)) then
         log WARNING "Skipping {f['name']} — size {sz_mb:.2f}MB > limit {settings.MAX_FILE_SIZE_MB}MB"
             [AStr (r_name f); AQ sz_mb; AQ (settings.MAX_FILE_SIZE_MB cfg)] ;;
         ret true
       else ret false)
      (fun e =>
         log WARNING "Cannot stat size for {f['path']}: {e}" [AStr (r_path f); AExn e] ;;
         ret false)
  else ret false.

(** The first [for f in files] of [run_once]: it builds [files_ok]. *)
Fixpoint filter_each (files : list result) (files_ok : list result) : M E (list result) :=
  match files with
  | [] => ret files_ok
  | f :: files' =>
      if negb (String.eqb (r_status f) "OK") then
        log WARNING "Skipping errored file {f.get('name')}: {f.get('message')}"
            [AStr (r_name f); AStr (r_message f)] ;;
        filter_each files' files_ok
      else if negb (_filter_allowed (r_name f)) then
        log INFO "Skipping disallowed extension: {f.get('name')}" [AStr (r_name f)] ;;
        filter_each files' files_ok
      else
        skip <- size_skip f ;;
        if skip then filter_each files' files_ok
        else filter_each files' (files_ok ++ [f])%list
  end.

(** The body of the [try] of one file in the second loop. *)
Definition relay_one (sftp : SFTPHandler) (archive_folder_name : option string)
           (f : result) : M E unit :=
  let local_path := r_path f in
  upload_to_auto_dir sftp local_path ;;
  moved <- move_file_to_archive (r_id f)
             (Some (Py.or_else archive_folder_name (settings.ARCHIVE_FOLDER_NAME cfg))) ;;
  (if moved then log INFO "Drive: moved '{f['name']}' to Archive." [AStr (r_name f)]
   else log WARNING "Drive: could not move '{f['name']}' to Archive." [AStr (r_name f)]) ;;
  try_except
    (ex <- call (COsExists local_path) ;;
     when ex (call (COsRemove local_path) ;;
              log INFO "Temp: removed {local_path}" [AStr local_path]))
    (fun e => log ERROR "Temp: failed to remove {local_path}: {e}" [AStr local_path; AExn e]).

(** [for f in files_ok: try: ... except Exception as e: logger.exception(...)] *)
Fixpoint relay_each (sftp : SFTPHandler) (archive_folder_name : option string)
         (files_ok : list result) : M E unit :=
  match files_ok with
  | [] => ret tt
  | f :: files' =>
      try_except (relay_one sftp archive_folder_name f)
                 (fun e => log ERROR "Upload failed for {f['name']}: {e}" [AStr (r_name f); AExn e]) ;;
      relay_each sftp archive_folder_name files'
  end.

(** The handler [run_once] builds from [sftp_conf] and [settings]. *)
Definition make_handler (self : Watcher) : SFTPHandler :=
  let conf := sftp_conf self in
  sftp_handler.new
    (match conf_host conf with Some h => h | None => settings.SFTP_HOST cfg end)
    (match conf_port conf with
     | Some p => p
     | None => if Z.eqb (settings.SFTP_PORT cfg) 0 then 22%Z else settings.SFTP_PORT cfg
     end)
    (match conf_username conf with Some u => u | None => settings.SFTP_USERNAME cfg end)
    (if Py.truthy_opt (conf_password conf) then conf_password conf else None)
    (if Py.truthy_opt (conf_key_file conf) then conf_key_file conf else None).

(** The part of [run_once] from [SFTPHandler(...)] on. *)
Definition relay_phase (self : Watcher) (archive_folder_name : option string)
           (files_ok : list result) : M E unit :=
  sftp <- connect (make_handler self) ;;
  try_finally (relay_each sftp archive_folder_name files_ok) (close sftp).

(** The part of [run_once] up to [files_ok]. *)
Definition collect_phase (fuel : nat) (self : Watcher) (folder_id : string)
  : M E (list result) :=
  log INFO "Watcher: checking Drive for new files..." [] ;;
  files <- download_all_from_folder fuel folder_id (temp_dir self) false None ;;
  filter_each files [].

Definition run_once (fuel : nat) (self : Watcher)
           (drive_folder_id archive_folder_name : option string) : M E unit :=
  let folder_id :=
    Py.strip_ws (Py.or_else drive_folder_id (settings.DRIVE_FOLDER_ID cfg)) in
  if negb (Py.truthy folder_id) then
    log WARNING "Watcher: Drive Folder ID is empty. Skipping." []
  else
    files_ok <- collect_phase fuel self folder_id ;;
    match files_ok with
    | [] => log INFO "Watcher: no new files." []
    | _ => relay_phase self archive_folder_name files_ok
    end.

(** [stop_flag and stop_flag()]; [stop_flag] says whether a callable was
    given. *)
Definition check_stop (stop_flag : bool) : M E bool :=
  if stop_flag then call CStopFlag else ret false.

(** [for _ in range(interval)]: [n] turns left. *)
Fixpoint sleep_loop (stop_flag : bool) (n : nat) : M E unit :=
  match n with
  | O => ret tt
  | S n' =>
      stop <- check_stop stop_flag ;;
      if stop then ret tt
      else sleep 1%Q ;; sleep_loop stop_flag n'
  end.

(** [int(poll_interval or settings.POLL_INTERVAL or 30)] *)
Definition interval_of (poll_interval : option Z) : Z :=
  match poll_interval with
  | Some p => if negb (Z.eqb p 0) then p
              else if negb (Z.eqb (settings.POLL_INTERVAL cfg) 0)
                   then settings.POLL_INTERVAL cfg else 30%Z
  | None => if negb (Z.eqb (settings.POLL_INTERVAL cfg) 0)
            then settings.POLL_INTERVAL cfg else 30%Z
  end.

(** The [while True] of [start_loop]; [list_fuel] bounds the listing of each
    cycle. *)
Fixpoint main_loop (fuel list_fuel : nat) (self : Watcher)
         (drive_folder_id : option string) (stop_flag : bool) (interval : Z) : M E unit :=
  match fuel with
  | O => diverge
  | S fuel' =>
      stop <- check_stop stop_flag ;;
      if stop then log INFO "Watcher: stop requested. exiting loop." []
      else
        try_except (run_once list_fuel self drive_folder_id None)
                   (fun _ => log ERROR "Watcher: cycle failed with exception." []) ;;
        sleep_loop stop_flag (Z.to_nat interval) ;;
        main_loop fuel' list_fuel self drive_folder_id stop_flag interval
  end.

Definition start_loop (fuel list_fuel : nat) (self : Watcher)
           (drive_folder_id : option string) (stop_flag : bool)
           (poll_interval : option Z) : M E unit :=
  let interval := interval_of poll_interval in
  log INFO "Watcher: loop started." [] ;;
  main_loop fuel list_fuel self drive_folder_id stop_flag interval ;;
  log INFO "Watcher: loop stopped." [].

End WithEnv.
End watcher.

(* ------------------------------------------------------------------ *)
(** ** Two environments

    [Mock] is a test double: every call succeeds with a fixed answer unless
    the fault script makes it raise.  [Sim] is a small reliable world: a Drive
    with parent sets, a local file system and an SFTP server. *)

Module Mock.

Record t : Type := mk {
  answers : forall c : Call, ret_ty c;
  faults : list (option exn);
  flags : list bool
}.

(** Empty answers. *)
Definition no_answers (c : Call) : ret_ty c :=
  match c with
  | CDriveList _ _ _ _ => mkListResp [] None
  | CDriveGet _ _ => []
  | CDriveCreate _ _ _ _ => ""
  | COsGetsize _ => 0%N
  | COsExists _ => false
  | CSftpNormalize _ => ""
  | CSftpListdir _ => []
  | CStopFlag => true
  | _ => tt
  end.

(** Every listing request is answered with the one page [files]. *)
Definition listing (files : list FileMeta) (c : Call) : ret_ty c :=
  match c with
  | CDriveList _ _ _ _ => mkListResp files None
  | c' => no_answers c'
  end.

(** A listing of two pages that both hold the file [f]. *)
Definition repeating (f : FileMeta) (c : Call) : ret_ty c :=
  match c with
  | CDriveList _ _ _ None => mkListResp [f] (Some "page-2")
  | CDriveList _ _ _ (Some _) => mkListResp [f] None
  | c' => no_answers c'
  end.

(** Every local file has the size [n]. *)
Definition sized (n : N) (c : Call) : ret_ty c :=
  match c with
  | COsGetsize _ => n
  | c' => no_answers c'
  end.

(** The stop flag answers from [flags] (then [True]) and never raises; any
    other call consumes one entry of [faults]. *)
Definition answer (c : Call) (m : t) : answer (ret_ty c) * t :=
  match c as c0 return (ret_ty c0 -> answer (ret_ty c0) * t) with
  | CStopFlag => fun _ =>
      match flags m with
      | [] => (Ok true, m)
      | b :: bs => (Ok b, mk (answers m) (faults m) bs)
      end
  | _ => fun a =>
      match faults m with
      | Some e :: fs => (Fail e, mk (answers m) fs (flags m))
      | None :: fs => (Ok a, mk (answers m) fs (flags m))
      | [] => (Ok a, m)
      end
  end (answers m c).

#[global] Instance env : Env t := {| perform := answer |}.

Definition init (answers : forall c : Call, ret_ty c) (faults : list (option exn))
           (flags : list bool) : St t :=
  mkSt (mk answers faults flags) [].

End Mock.

Module Sim.
Import drive_handler.

Record DriveEntry : Type := mkEntry {
  e_id : string;
  e_name : string;
  e_mimeType : string;
  e_parents : list string;
  e_trashed : bool;
  e_size : N
}.

Record t : Type := mk {
  drive : list DriveEntry;
  fresh_ids : list string;
  local_files : list (string * N);
  sftp_home : option string;
  sftp_dirs : list string;
  sftp_files : list (string * N);
  stop_after : nat
}.

Fixpoint lookup {A} (k : string) (l : list (string * A)) : option A :=
  match l with
  | [] => None
  | (k', v) :: l' => if String.eqb k k' then Some v else lookup k l'
  end.

Definition remove {A} (k : string) (l : list (string * A)) : list (string * A) :=
  filter (fun kv => negb (String.eqb k (fst kv))) l.

Definition store {A} (k : string) (v : A) (l : list (string * A)) : list (string * A) :=
  (remove k l ++ [(k, v)])%list.

Definition find_entry (fid : string) (d : list DriveEntry) : option DriveEntry :=
  find (fun x => String.eqb (e_id x) fid) d.

Definition meta_of (x : DriveEntry) : FileMeta :=
  mkFileMeta (e_id x) (e_name x) (e_mimeType x).

(** The two queries the program writes, read back on an entry. *)
Definition matches (q : string) (x : DriveEntry) : bool :=
  negb (e_trashed x) &&
  (existsb (fun p => String.eqb q (children_query p None)) (e_parents x)
   || (String.eqb q (folder_query (e_name x))
       && String.eqb (e_mimeType x) FOLDER_MIME
       && Py.mem "root" (e_parents x))).

Fixpoint drop_until (tok : string) (l : list DriveEntry) : list DriveEntry :=
  match l with
  | [] => []
  | x :: l' => if String.eqb (e_id x) tok then l else drop_until tok l'
  end.

(** A page of at most [pageSize] matches; the token of the next page is the
    id of its first file. *)
Definition list_page (q : string) (pageSize : nat) (tok : option string)
           (d : list DriveEntry) : ListResp :=
  let all := filter (matches q) d in
  let from := match tok with Some t => drop_until t all | None => all end in
  mkListResp (map meta_of (firstn pageSize from))
             (match skipn pageSize from with
              | [] => None
              | x :: _ => Some (e_id x)
              end).

(** [addParents] / [removeParents] of [files().update]. *)
Definition update_parents (add : string) (remove : option string)
           (x : DriveEntry) : DriveEntry :=
  let gone := match remove with Some r => Py.split "," r | None => [] end in
  let kept := filter (fun p => negb (Py.mem p gone)) (e_parents x) in
  mkEntry (e_id x) (e_name x) (e_mimeType x)
          (if Py.mem add kept then kept else (kept ++ [add])%list)
          (e_trashed x) (e_size x).

(** One entry of the Drive after [files().update] on the file [fid]. *)
Definition moved_entry (fid add : string) (remove : option string)
           (x : DriveEntry) : DriveEntry :=
  if String.eqb (e_id x) fid then update_parents add remove x else x.

Definition not_found (what : string) : exn := HttpError ("404 not found: " ++ what).
Definition no_such_file (p : string) : exn := IOError (Some ENOENT) ("No such file: " ++ p).

Definition set_drive (w : t) (d : list DriveEntry) : t :=
  mk d (fresh_ids w) (local_files w) (sftp_home w) (sftp_dirs w) (sftp_files w) (stop_after w).
Definition set_local (w : t) (l : list (string * N)) : t :=
  mk (drive w) (fresh_ids w) l (sftp_home w) (sftp_dirs w) (sftp_files w) (stop_after w).
Definition set_sftp (w : t) (dirs : list string) (files : list (string * N)) : t :=
  mk (drive w) (fresh_ids w) (local_files w) (sftp_home w) dirs files (stop_after w).

Definition answer (c : Call) (w : t) : answer (ret_ty c) * t :=
  match c as c0 return answer (ret_ty c0) * t with
  | CDriveList q pageSize _ tok => (Ok (list_page q pageSize tok (drive w)), w)
  | CDriveGet fid _ =>
      match find_entry fid (drive w) with
      | Some x => (Ok (e_parents x), w)
      | None => (Fail (not_found fid), w)
      end
  | CDriveUpdate fid add remove _ =>
      match find_entry fid (drive w) with
      | Some _ =>
          (Ok tt,
           set_drive w (map (moved_entry fid add remove) (drive w)))
      | None => (Fail (not_found fid), w)
      end
  | CDriveCreate name mime parents _ =>
      match fresh_ids w with
      | fid :: ids =>
          (Ok fid,
           mk (drive w ++ [mkEntry fid name mime parents false 0%N])%list ids
              (local_files w) (sftp_home w) (sftp_dirs w) (sftp_files w) (stop_after w))
      | [] => (Fail (HttpError "500 backend error"), w)
      end
  | CDriveDelete fid =>
      match find_entry fid (drive w) with
      | Some _ =>
          (Ok tt, set_drive w (filter (fun x => negb (String.eqb (e_id x) fid)) (drive w)))
      | None => (Fail (not_found fid), w)
      end
  | CDriveDownload req dest _ =>
      let fid := match req with ExportMedia f _ => f | GetMedia f => f end in
      match find_entry fid (drive w) with
      | Some x => (Ok tt, set_local w (store dest (e_size x) (local_files w)))
      | None => (Fail (not_found fid), w)
      end
  | COsMakedirs _ => (Ok tt, w)
  | COsGetsize p =>
      match lookup p (local_files w) with
      | Some n => (Ok n, w)
      | None => (Fail (no_such_file p), w)
      end
  | COsExists p =>
      (Ok (match lookup p (local_files w) with Some _ => true | None => false end), w)
  | COsRemove p =>
      match lookup p (local_files w) with
      | Some _ => (Ok tt, set_local w (remove p (local_files w)))
      | None => (Fail (no_such_file p), w)
      end
  | CTransport _ _ => (Ok tt, w)
  | CLoadKey _ => (Ok tt, w)
  | CAuthKey _ _ => (Ok tt, w)
  | CAuthPassword _ _ => (Ok tt, w)
  | CSftpFromTransport => (Ok tt, w)
  | CSftpNormalize _ =>
      match sftp_home w with
      | Some h => (Ok h, w)
      | None => (Fail (IOError None "Failure"), w)
      end
  | CSftpListdir p =>
      (Ok (map Py.basename
                (filter (fun d => String.eqb (Py.dirname d) p)
                        (sftp_dirs w ++ map fst (sftp_files w))%list)), w)
  | CSftpStat p =>
      if Py.mem p (sftp_dirs w) || Py.mem p (map fst (sftp_files w))
      then (Ok tt, w) else (Fail (no_such_file p), w)
  | CSftpMkdir p =>
      if Py.mem p (sftp_dirs w) || Py.mem p (map fst (sftp_files w))
      then (Fail (IOError None "Failure"), w)
      else (Ok tt, set_sftp w (sftp_dirs w ++ [p])%list (sftp_files w))
  | CSftpPut l r =>
      match lookup l (local_files w) with
      | Some n =>
          if Py.mem r (sftp_dirs w) then (Fail (IOError None "Failure"), w)
          else if Py.mem (Py.dirname r) (sftp_dirs w)
          then (Ok tt, set_sftp w (sftp_dirs w) (store r n (sftp_files w)))
          else (Fail (no_such_file r), w)
      | None => (Fail (no_such_file l), w)
      end
  | CSftpClose => (Ok tt, w)
  | CTransportClose => (Ok tt, w)
  | CStopFlag =>
      match stop_after w with
      | O => (Ok true, w)
      | S n =>
          (Ok false,
           mk (drive w) (fresh_ids w) (local_files w) (sftp_home w) (sftp_dirs w)
              (sftp_files w) n)
      end
  end.

#[global] Instance env : Env t := {| perform := answer |}.

End Sim.

(* ------------------------------------------------------------------ *)
(** ** Scenarios *)

Module Scenario.

(** A configuration with the allow-list [allowed] and the limit [max_mb]. *)
Definition cfg (allowed : list string) (max_mb : Q) : settings.t :=
  settings.mk "/tmp/sigma" "" "Sigma_Archive" "" 22 "" 30 allowed max_mb.

Definition conf : watcher.SftpConf :=
  watcher.mkSftpConf (Some "sftp.example") (Some 22%Z) (Some "bob") (Some "pw") None.

Definition self : watcher.Watcher := watcher.mkWatcher conf "/tmp/sigma".

Definition archive_folder : Sim.DriveEntry :=
  Sim.mkEntry "id-arch" "Sigma_Archive" drive_handler.FOLDER_MIME ["root"] false 0.

(** The folder [inbox] holds a.csv (500 KB) and big.bin (2000 KB); bob's
    home exists on the server, its catalog directory does not yet. *)
Definition two_files : Sim.t :=
  Sim.mk [ Sim.mkEntry "id-a" "a.csv" "text/csv" ["inbox"] false 512000;
           Sim.mkEntry "id-b" "big.bin" "application/octet-stream" ["inbox"] false 2048000;
           archive_folder ]
         [] [] (Some "/home/bob") ["/home"; "/home/bob"] [] 0.

(** Two CSV files; on the server a directory sits where a.csv should go. *)
Definition blocked_first : Sim.t :=
  Sim.mk [ Sim.mkEntry "id-a" "a.csv" "text/csv" ["inbox"] false 512000;
           Sim.mkEntry "id-b" "b.csv" "text/csv" ["inbox"] false 1024;
           archive_folder ]
         [] [] (Some "/home/bob")
         ["/home"; "/home/bob"; "/home/bob/catalog"; "/home/bob/catalog/a.csv"] [] 0.

Definition a_csv : FileMeta := mkFileMeta "id-a" "a.csv" "text/csv".

(** A temp copy whose file is no longer on Drive; the catalog exists. *)
Definition orphan : Sim.t :=
  Sim.mk [archive_folder] [] [("/tmp/sigma/z.csv", 10%N)] (Some "/home/bob")
         ["/home"; "/home/bob"; "/home/bob/catalog"] [] 0.

(** bob's handler, connected, with the home [home]. *)
Definition bob (home : option string) : sftp_handler.SFTPHandler :=
  sftp_handler.mkSFTPHandler "sftp.example" 22 "bob" (Some "pw") None true true home.

(** An empty [inbox]; the stop flag is set after [n] polls. *)
Definition idle (n : nat) : Sim.t :=
  Sim.mk [archive_folder] [] [] (Some "/home/bob") ["/home"; "/home/bob"] [] n.

(** A file that sits in [inbox] and in the archive folder at once. *)
Definition shared_file : Sim.t :=
  Sim.mk [ Sim.mkEntry "id-a" "a.csv" "text/csv" ["inbox"; "id-arch"] false 512000;
           archive_folder ]
         [] [] (Some "/home/bob") ["/home"; "/home/bob"] [] 0.

End Scenario.

(* ------------------------------------------------------------------ *)
(** ** Vocabulary of the statements *)




(** The pages a listing gets: starting with the token [tok], every page is
    requested through [_retry] with the token of the page before it, up to
    the first page without a (non-empty) token. *)
Inductive pages_served {E : Type} {EE : Env E} (q : string) (page_size : nat)
  : option string -> St E -> list ListResp -> St E -> Prop :=
| served_last (tok : option string) (s : St E) (resp : ListResp) (s' : St E) :
    drive_handler._retry_default (drive_handler.list_page q page_size tok) s = (Ret resp, s') ->
    Py.truthy_opt (lr_nextPageToken resp) = false ->
    pages_served q page_size tok s [resp] s'
| served_more (tok : option string) (s : St E) (resp : ListResp) (s' : St E)
              (rest : list ListResp) (s'' : St E) :
    drive_handler._retry_default (drive_handler.list_page q page_size tok) s = (Ret resp, s') ->
    Py.truthy_opt (lr_nextPageToken resp) = true ->
    pages_served q page_size (lr_nextPageToken resp) s' rest s'' ->
    pages_served q page_size tok s (resp :: rest) s''.

(** The files of some pages, in order. *)
Definition files_of (pages : list ListResp) : list FileMeta :=
  concat (map lr_files pages).

(** The state [s] with the events [evs] appended to its trace. *)
Definition after {E} (s : St E) (evs : list Event) : St E :=
  mkSt (env s) (trace s ++ evs)%list.

(** The number of WARNING records among some events. *)
Fixpoint warnings (evs : list Event) : nat :=
  match evs with
  | [] => 0
  | EvLog WARNING _ _ :: evs' => S (warnings evs')
  | _ :: evs' => warnings evs'
  end.

Fixpoint repeat_char (c : ascii) (k : nat) : string :=
  match k with
  | O => EmptyString
  | S k' => String c (repeat_char c k')
  end.

Fixpoint has_char (c : ascii) (s : string) : bool :=
  match s with
  | EmptyString => false
  | String a s' => Ascii.eqb a c || has_char c s'
  end.

(** [m] never runs out of fuel. *)
Definition nodiv {E A} (m : M E A) : Prop :=
  forall s, fst (m s) <> Diverged.

(** [m] always returns normally. *)
Definition safe {E A} (m : M E A) : Prop :=
  forall s, exists a s', m s = (Ret a, s').

(** The events of one poll of the stop flag, and of one poll followed by a
    second of sleep. *)
Definition polled : list Event := [EvCall CStopFlag None].
Definition polled_and_slept : list Event := [EvCall CStopFlag None; EvSleep 1%Q].

(** The cycle of the loop: [run_once] under [except Exception]. *)
Definition guarded_cycle {E : Type} {EE : Env E} (cfg : settings.t) (list_fuel : nat)
           (self : watcher.Watcher) (d : option string) : M E unit :=
  try_except (watcher.run_once cfg list_fuel self d None)
             (fun _ => log ERROR "Watcher: cycle failed with exception." []).

(** The events of finding the archive folder [A] under the name [nm]. *)
Definition found_events (nm A : string) : list Event :=
  [EvCall (CDriveList (drive_handler.folder_query nm) 10 "files(id, name)" None) None;
   EvLog DEBUG "Found existing archive folder '{name}' (id={fid})" [AStr nm; AOpt (Some A)]].

(** The file ids a download was attempted for, in order. *)
Fixpoint downloads (tr : list Event) : list string :=
  match tr with
  | [] => []
  | EvCall (CDriveDownload (GetMedia fid) _ _) _ :: tr' => fid :: downloads tr'
  | EvCall (CDriveDownload (ExportMedia fid _) _ _) _ :: tr' => fid :: downloads tr'
  | _ :: tr' => downloads tr'
  end.

(** The local paths whose size was asked for. *)
Fixpoint size_checks (tr : list Event) : list string :=
  match tr with
  | [] => []
  | EvCall (COsGetsize p) _ :: tr' => p :: size_checks tr'
  | _ :: tr' => size_checks tr'
  end.

(** The uploads that were attempted, with their outcome. *)
Fixpoint uploads (tr : list Event) : list (string * string * option exn) :=
  match tr with
  | [] => []
  | EvCall (CSftpPut l r) o :: tr' => (l, r, o) :: uploads tr'
  | _ :: tr' => uploads tr'
  end.

(** The files whose parents were updated, and the local files removed. *)
Fixpoint parent_updates (tr : list Event) : list string :=
  match tr with
  | [] => []
  | EvCall (CDriveUpdate fid _ _ _) None :: tr' => fid :: parent_updates tr'
  | _ :: tr' => parent_updates tr'
  end.

Fixpoint removals (tr : list Event) : list string :=
  match tr with
  | [] => []
  | EvCall (COsRemove p) None :: tr' => p :: removals tr'
  | _ :: tr' => removals tr'
  end.

(** The log records that interpolate the string [x]: level and text. *)
Fixpoint records_about (x : string) (tr : list Event) : list (Level * string) :=
  match tr with
  | [] => []
  | EvLog lvl fmt args :: tr' =>
      if existsb (fun a => match a with AStr y => String.eqb x y | _ => false end) args
      then (lvl, fmt) :: records_about x tr'
      else records_about x tr'
  | _ :: tr' => records_about x tr'
  end.

(** The arguments of the records with the text [fmt]. *)
Fixpoint records_with (fmt : string) (tr : list Event) : list (list Arg) :=
  match tr with
  | [] => []
  | EvLog _ fmt' args :: tr' =>
      if String.eqb fmt fmt' then args :: records_with fmt tr' else records_with fmt tr'
  | _ :: tr' => records_with fmt tr'
  end.

(** How many connections were opened, and how many cycles were started. *)
Fixpoint connections (tr : list Event) : nat :=
  match tr with
  | [] => 0
  | EvCall (CTransport _ _) _ :: tr' => S (connections tr')
  | _ :: tr' => connections tr'
  end.

Definition cycles (tr : list Event) : nat :=
  length (records_with "Watcher: checking Drive for new files..." tr).

Fixpoint sleeps (tr : list Event) : list Q :=
  match tr with
  | [] => []
  | EvSleep q :: tr' => q :: sleeps tr'
  | _ :: tr' => sleeps tr'
  end.

(* ------------------------------------------------------------------ *)
(** ** Footprints *)

(** The kind of a primitive call. *)
Inductive Tag : Type :=
| KList | KGet | KUpdate | KCreate | KDelete | KDownload
| KOsMakedirs | KOsGetsize | KOsExists | KOsRemove
| KTransport | KLoadKey | KAuthKey | KAuthPassword | KSftpOpen
| KNormalize | KListdir | KStat | KMkdir | KPut | KSftpClose | KTransportClose
| KFlag.

Definition tag (c : Call) : Tag :=
  match c with
  | CDriveList _ _ _ _ => KList
  | CDriveGet _ _ => KGet
  | CDriveUpdate _ _ _ _ => KUpdate
  | CDriveCreate _ _ _ _ => KCreate
  | CDriveDelete _ => KDelete
  | CDriveDownload _ _ _ => KDownload
  | COsMakedirs _ => KOsMakedirs
  | COsGetsize _ => KOsGetsize
  | COsExists _ => KOsExists
  | COsRemove _ => KOsRemove
  | CTransport _ _ => KTransport
  | CLoadKey _ => KLoadKey
  | CAuthKey _ _ => KAuthKey
  | CAuthPassword _ _ => KAuthPassword
  | CSftpFromTransport => KSftpOpen
  | CSftpNormalize _ => KNormalize
  | CSftpListdir _ => KListdir
  | CSftpStat _ => KStat
  | CSftpMkdir _ => KMkdir
  | CSftpPut _ _ => KPut
  | CSftpClose => KSftpClose
  | CTransportClose => KTransportClose
  | CStopFlag => KFlag
  end.

(** An event that is not a call of a kind outside [tags]. *)
Definition only (tags : list Tag) (ev : Event) : Prop :=
  match ev with
  | EvCall c _ => In (tag c) tags
  | _ => True
  end.

(** Whatever [m] does, it only adds events to the trace, and the calls among
    them are of the kinds [tags]. *)
Definition within {E A} (tags : list Tag) (m : M E A) : Prop :=
  forall s r s', m s = (r, s') ->
    exists evs, trace s' = (trace s ++ evs)%list /\ Forall (only tags) evs.

(** The kinds of call a cycle can make: everything but the deletion from
    Drive and the poll of the stop flag. *)
Definition cycle_tags : list Tag :=
  [KList; KOsMakedirs; KDownload; KOsGetsize;
   KTransport; KLoadKey; KAuthKey; KAuthPassword; KSftpOpen; KNormalize; KListdir;
   KStat; KMkdir; KPut; KCreate; KGet; KUpdate; KOsExists; KOsRemove;
   KSftpClose; KTransportClose].

(** The kinds of call of the relay of one file. *)
Definition relay_tags : list Tag :=
  [KStat; KMkdir; KPut; KList; KCreate; KGet; KUpdate; KOsExists; KOsRemove].

(** The kinds of call [connect] can make with the handler [self]. *)
Definition connect_tags (self : sftp_handler.SFTPHandler) : list Tag :=
  KTransport :: KSftpOpen :: KNormalize :: KListdir
    :: (if Py.truthy_opt (sftp_handler.key_file self) then [KLoadKey; KAuthKey]
        else [KAuthPassword]).

(** [l] is [l'] with some elements left out. *)
Inductive subseq {A : Type} : list A -> list A -> Prop :=
| subseq_nil : subseq [] []
| subseq_skip (x : A) (l l' : list A) : subseq l l' -> subseq l (x :: l')
| subseq_keep (x : A) (l l' : list A) : subseq l l' -> subseq (x :: l) (x :: l').

(** Every character of [s] is white space. *)
Fixpoint all_space (s : string) : bool :=
  match s with
  | EmptyString => true
  | String a s' => Py.isspace a && all_space s'
  end.

(** A result the filter turns away before any size check. *)
Definition rejected (cfg : settings.t) (r : drive_handler.result) : Prop :=
  drive_handler.r_status r <> "OK"
  \/ watcher._filter_allowed cfg (drive_handler.r_name r) = false.

(** Whether [download_all_from_folder] handles a file of the name [fname]:
    the complement of its [continue]. *)
Definition kept (allowed_name_prefix : option string) (fname : string) : bool :=
  match allowed_name_prefix with
  | Some prefix => negb (Py.truthy prefix && negb (Py.startswith fname prefix))
  | None => true
  end.

(** The number of primitive calls among some events. *)
Fixpoint calls (evs : list Event) : nat :=
  match evs with
  | [] => 0
  | EvCall _ _ :: evs' => S (calls evs')
  | _ :: evs' => calls evs'
  end.

(** The local paths of the uploads that were attempted, in order. *)
Definition uploaded_from (tr : list Event) : list string :=
  map (fun u => fst (fst u)) (uploads tr).

(** A warning of [_retry] for the last attempt it was allowed. *)
Definition gave_up (ev : Event) : bool :=
  match ev with
  | EvLog WARNING _ [ANat attempt; ANat retries; AExn _] => Nat.eqb attempt retries
  | _ => false
  end.

(** [m] fails through [_retry] only: it never runs out of fuel, every
    exception it raises is that of a retried call on its third and last
    attempt, whose warning is the last event, and no other retried call was
    given up. *)
Definition reports {E A} (m : M E A) : Prop :=
  forall s r s', m s = (r, s') ->
    exists evs,
      trace s' = (trace s ++ evs)%list
      /\ match r with
         | Ret _ => existsb gave_up evs = false
         | Raise x =>
             exists evs',
               evs = (evs' ++ [drive_handler.retry_warning 3 3 x])%list
               /\ existsb gave_up evs' = false
         | Diverged => False
         end.

(** The record of the archive step of a file in the second loop of
    [run_once]. *)
Definition archive_record (f : drive_handler.result) (moved : bool) : Event :=
  if moved
  then EvLog INFO "Drive: moved '{f['name']}' to Archive." [AStr (drive_handler.r_name f)]
  else EvLog WARNING "Drive: could not move '{f['name']}' to Archive."
             [AStr (drive_handler.r_name f)].

(** The removal of the temp copy that ends the turn of a file:
    [try: if os.path.exists(local_path): os.remove(local_path) ... except ...]. *)
Definition temp_cleanup {E : Type} {EE : Env E} (local_path : string) : M E unit :=
  try_except
    (ex <- call (COsExists local_path) ;;
     when ex (call (COsRemove local_path) ;;
              log INFO "Temp: removed {local_path}" [AStr local_path]))
    (fun e => log ERROR "Temp: failed to remove {local_path}: {e}" [AStr local_path; AExn e]).

(** The turn of the file [f] in the second loop of [run_once], begun in the
    state [sa] with the files [post] still to come.  Its upload is run.  When
    the upload raises, the failure is recorded and the loop goes on with
    [post].  When it returns, the file was put under its base name in the
    auto directory; the archive step is run, it answers [False] exactly when
    one of its Drive calls was given up, and it is recorded; the temp copy is
    dealt with; and the loop goes on with [post]. *)
Definition turn {E : Type} {EE : Env E} (cfg : settings.t)
           (sftp : sftp_handler.SFTPHandler) (arch : option string)
           (f : drive_handler.result) (post : list drive_handler.result)
           (sa : St E) : Prop :=
  let local_path := drive_handler.r_path f in
  exists dir r sb evs,
    fst (sftp_handler.get_auto_remote_dir sftp sa) = Ret dir
    /\ sftp_handler.upload_to_auto_dir sftp local_path sa = (r, sb)
    /\ trace sb = (trace sa ++ evs)%list
    /\ let target := Py.rstrip "/" dir ++ "/" ++ Py.basename local_path in
       match r with
       | Raise y =>
           (uploads evs = [] \/ uploads evs = [(local_path, target, Some y)])
           /\ watcher.relay_each cfg sftp arch (f :: post) sa
              = watcher.relay_each cfg sftp arch post
                  (after sb [EvLog ERROR "Upload failed for {f['name']}: {e}"
                                   [AStr (drive_handler.r_name f); AExn y]])
       | Ret _ =>
           uploads evs = [(local_path, target, None)]
           /\ exists moved sc sd evs',
                drive_handler.move_file_to_archive (drive_handler.r_id f)
                  (Some (Py.or_else arch (settings.ARCHIVE_FOLDER_NAME cfg))) sb
                = (Ret moved, sc)
                /\ trace sc = (trace sb ++ evs')%list
                /\ existsb gave_up evs' = negb moved
                /\ temp_cleanup local_path (after sc [archive_record f moved]) = (Ret tt, sd)
                /\ watcher.relay_each cfg sftp arch (f :: post) sa
                   = watcher.relay_each cfg sftp arch post sd
       | Diverged => False
       end.

(** What [close] does in the state [s] of a connected handler, and how the
    cycle ends with it: both close calls are made, in this order, whatever the
    first one answers; the record of the disconnection is written when both
    returned; otherwise the exception of the close call that failed (the
    later one, when both did) is the outcome. *)
Definition closes {E : Type} {EE : Env E} (s : St E) (outcome : res unit * St E) : Prop :=
  exists a1 e1 a2 e2,
    perform CSftpClose (env s) = (a1, e1)
    /\ perform CTransportClose e1 = (a2, e2)
    /\ outcome
       = match a1, a2 with
         | Ok _, Ok _ =>
             (Ret tt, mkSt e2 (trace s ++ [EvCall CSftpClose None; EvCall CTransportClose None;
                                           EvLog INFO "SFTP: disconnected." []])%list)
         | Fail x, Ok _ =>
             (Raise x, mkSt e2 (trace s ++ [EvCall CSftpClose (Some x);
                                            EvCall CTransportClose None])%list)
         | _, Fail y =>
             (Raise y, mkSt e2 (trace s ++ [EvCall CSftpClose (failure a1);
                                            EvCall CTransportClose (Some y)])%list)
         end.




(** The record the filter of [run_once] writes for a result it turns away
    before any size check. *)
Definition rejection_record (r : drive_handler.result) : Event :=
  if negb (String.eqb (drive_handler.r_status r) "OK")
  then EvLog WARNING "Skipping errored file {f.get('name')}: {f.get('message')}"
             [AStr (drive_handler.r_name r); AStr (drive_handler.r_message r)]
  else EvLog INFO "Skipping disallowed extension: {f.get('name')}"
             [AStr (drive_handler.r_name r)].

(** Every character of [s] is an ASCII character. *)
Fixpoint is_ascii (s : string) : bool :=
  match s with
  | EmptyString => true
  | String a s' => (nat_of_ascii a <? 128)%nat && is_ascii s'
  end.

(** A delay that [time.sleep] takes on every platform: [2^32 - 1]
    milliseconds, in whole seconds (beyond its limit, [time.sleep] raises
    OverflowError). *)
Definition MAX_SLEEP : Q := 4294967.

(* ================================================================== *)
(** * Properties *)

Section MonadFacts.
Context {E : Type} {EE : Env E}.

Lemma after_nil (s : St E) : after s [] = s.
Proof. destruct s; unfold after; simpl; now rewrite app_nil_r. Qed.

Lemma after_after (s : St E) (a b : list Event) :
  after (after s a) b = after s (a ++ b)%list.
Proof. unfold after; simpl; now rewrite app_assoc. Qed.

Lemma emit_run (ev : Event) (s : St E) : emit ev s = (Ret tt, after s [ev]).
Proof. reflexivity. Qed.

Lemma log_run lvl fmt args (s : St E) :
  log lvl fmt args s = (Ret tt, after s [EvLog lvl fmt args]).
Proof. reflexivity. Qed.

Lemma call_run (c : Call) (s : St E) a e' :
  perform c (env s) = (a, e') ->
  call c s = (res_of a, mkSt e' (trace s ++ [EvCall c (failure a)])%list).
Proof. intros H; unfold call; now rewrite H. Qed.

Lemma call_at (c : Call) (e : E) tr a e' :
  perform c e = (a, e') ->
  call c (mkSt e tr) = (res_of a, mkSt e' (tr ++ [EvCall c (failure a)])%list).
Proof. intros H; unfold call; simpl; now rewrite H. Qed.

Lemma bind_Ret {A B} (m : M E A) (k : A -> M E B) s a s' :
  m s = (Ret a, s') -> bind m k s = k a s'.
Proof. intros H; unfold bind; now rewrite H. Qed.

Lemma bind_Raise {A B} (m : M E A) (k : A -> M E B) s e s' :
  m s = (Raise e, s') -> bind m k s = (Raise e, s').
Proof. intros H; unfold bind; now rewrite H. Qed.

Lemma bind_Diverged {A B} (m : M E A) (k : A -> M E B) s s' :
  m s = (Diverged, s') -> bind m k s = (Diverged, s').
Proof. intros H; unfold bind; now rewrite H. Qed.

Lemma try_except_Ret {A} (m : M E A) h s a s' :
  m s = (Ret a, s') -> try_except m h s = (Ret a, s').
Proof. intros H; unfold try_except; now rewrite H. Qed.

Lemma try_except_Raise {A} (m : M E A) h s e s' :
  m s = (Raise e, s') -> try_except m h s = h e s'.
Proof. intros H; unfold try_except; now rewrite H. Qed.

Lemma try_except_Diverged {A} (m : M E A) h s s' :
  m s = (Diverged, s') -> try_except m h s = (Diverged, s').
Proof. intros H; unfold try_except; now rewrite H. Qed.

End MonadFacts.

Section RetryFacts.
Context {E : Type} {EE : Env E}.
Import drive_handler.

(** A first attempt that succeeds is the whole of [_retry]. *)
Lemma retry_first_success {A} (func : M E A) n base s a s' :
  func s = (Ret a, s') -> _retry func (S n) base s = (Ret a, s').
Proof. intros H. unfold _retry; simpl. now apply try_except_Ret. Qed.

(** A call that succeeds needs one attempt. *)
Lemma retry_call_ok (c : Call) (e : E) tr (v : ret_ty c) e' :
  perform c e = (Ok v, e') ->
  _retry_default (call c) (mkSt e tr) = (Ret v, mkSt e' (tr ++ [EvCall c None])%list).
Proof.
  intros H. apply retry_first_success. exact (call_at c e tr (Ok v) e' H).
Qed.

Lemma retry_first_diverged {A} (func : M E A) n base s s' :
  func s = (Diverged, s') -> _retry func (S n) base s = (Diverged, s').
Proof. intros H. unfold _retry; simpl. now apply try_except_Diverged. Qed.

Lemma retry_loop_success {A} (func : M E A) retries base attempt remaining last s a s' :
  func s = (Ret a, s') ->
  retry_loop func retries base attempt (S remaining) last s = (Ret a, s').
Proof. intros H. simpl. now apply try_except_Ret. Qed.

(** One failed attempt that is not the last: warning, sleep, next attempt. *)
Lemma retry_loop_fail_more {A} (func : M E A) retries base attempt remaining last s x s' :
  func s = (Raise x, s') ->
  Nat.eqb attempt retries = false ->
  retry_loop func retries base attempt (S remaining) last s =
  retry_loop func retries base (S attempt) remaining (Some x)
             (after s' [retry_warning attempt retries x; EvSleep (backoff base attempt)]).
Proof.
  intros H Hne. simpl. rewrite (try_except_Raise _ _ _ _ _ H).
  unfold bind at 1. rewrite emit_run, Hne.
  unfold bind at 1. unfold sleep. rewrite emit_run, after_after. reflexivity.
Qed.

(** The failed last attempt: warning, and the exception is raised again. *)
Lemma retry_loop_fail_last {A} (func : M E A) retries base remaining last s x s' :
  func s = (Raise x, s') ->
  retry_loop func retries base retries (S remaining) last s =
  (Raise x, after s' [retry_warning retries retries x]).
Proof.
  intros H. simpl. rewrite (try_except_Raise _ _ _ _ _ H).
  unfold bind at 1. rewrite emit_run, Nat.eqb_refl. reflexivity.
Qed.

End RetryFacts.

(** C4 (RetryPolicy).  With three attempts, an operation that fails on
    attempts 1 and 2 and succeeds on attempt 3 makes [_retry] return that
    success; the wrapper itself adds exactly two WARNING records and sleeps
    [base_sleep * 2^(attempt-1)] after each of them, before the retry.  An
    operation that fails three times makes it raise the last failure again,
    after a third warning and no further sleep.  The exceptions [x1 x2 x3] are
    arbitrary: whatever their class, the record is a WARNING with the same
    arguments and the same backoff follows.  ([d1 d2 d3] are the events of the
    three runs of the operation itself.) *)
Theorem retry_three_attempts :
  forall (E : Type) (EE : Env E) (A : Type) (func : M E A) (base_sleep : Q)
         (e0 e1 e2 e3 : E) (d1 d2 d3 : list Event) (x1 x2 : exn),
    (forall tr, func (mkSt e0 tr) = (Raise x1, mkSt e1 (tr ++ d1)%list)) ->
    (forall tr, func (mkSt e1 tr) = (Raise x2, mkSt e2 (tr ++ d2)%list)) ->
    let w1 := [drive_handler.retry_warning 1 3 x1;
               EvSleep (drive_handler.backoff base_sleep 1)] in
    let w2 := [drive_handler.retry_warning 2 3 x2;
               EvSleep (drive_handler.backoff base_sleep 2)] in
    (forall (v : A) tr,
        (forall tr', func (mkSt e2 tr') = (Ret v, mkSt e3 (tr' ++ d3)%list)) ->
        drive_handler._retry func 3 base_sleep (mkSt e0 tr)
        = (Ret v, mkSt e3 (tr ++ d1 ++ w1 ++ d2 ++ w2 ++ d3)%list))
    /\ (forall (x3 : exn) tr,
        (forall tr', func (mkSt e2 tr') = (Raise x3, mkSt e3 (tr' ++ d3)%list)) ->
        drive_handler._retry func 3 base_sleep (mkSt e0 tr)
        = (Raise x3, mkSt e3 (tr ++ d1 ++ w1 ++ d2 ++ w2 ++ d3
                                 ++ [drive_handler.retry_warning 3 3 x3])%list))
    /\ warnings (w1 ++ w2) = 2
    /\ (drive_handler.backoff base_sleep 1 == base_sleep)%Q
    /\ (drive_handler.backoff base_sleep 2 == 2 * base_sleep)%Q
    /\ (forall (x : exn) (attempt : nat), exists fmt,
           drive_handler.retry_warning attempt 3 x
           = EvLog WARNING fmt [ANat attempt; ANat 3; AExn x]).
Proof.
  intros E EE A func base e0 e1 e2 e3 d1 d2 d3 x1 x2 H1 H2 w1 w2.
  assert (Hgo : forall tr,
             drive_handler._retry func 3 base (mkSt e0 tr)
             = drive_handler.retry_loop func 3 base 3 1 (Some x2)
                 (mkSt e2 (tr ++ d1 ++ w1 ++ d2 ++ w2)%list)).
  { intros tr. unfold drive_handler._retry.
    rewrite (retry_loop_fail_more func 3 base 1 2 None _ x1 _ (H1 tr) eq_refl).
    unfold after; cbn [env trace].
    rewrite (retry_loop_fail_more func 3 base 2 1 (Some x1) _ x2 _ (H2 _) eq_refl).
    unfold after; cbn [env trace].
    repeat rewrite <- app_assoc. reflexivity. }
  repeat split.
  - intros v tr H3. rewrite Hgo.
    rewrite (retry_loop_success func 3 base 3 0 (Some x2) _ v _ (H3 _)).
    repeat rewrite <- app_assoc. reflexivity.
  - intros x3 tr H3. rewrite Hgo.
    rewrite (retry_loop_fail_last func 3 base 0 (Some x2) _ x3 _ (H3 _)).
    unfold after; cbn [env trace].
    repeat rewrite <- app_assoc. reflexivity.
  - unfold drive_handler.backoff. simpl. ring.
  - unfold drive_handler.backoff. simpl. ring.
  - intros x attempt. unfold drive_handler.retry_warning. eexists. reflexivity.
Qed.

Lemma retry_three_attempts_witness :
  let x1 := HttpError "503 backend error" in
  let x2 := PyError "TimeoutError" "timed out" in
  let c := CDriveDelete "f" in
  drive_handler._retry (call c) 3 1%Q
    (Mock.init Mock.no_answers [Some x1; Some x2; None] [])
  = (Ret tt,
     mkSt (Mock.mk Mock.no_answers [] [])
          [EvCall c (Some x1);
           EvLog WARNING "HttpError on attempt {attempt}/{retries}: {e}"
                 [ANat 1; ANat 3; AExn x1];
           EvSleep (drive_handler.backoff 1%Q 1);
           EvCall c (Some x2);
           EvLog WARNING "Error on attempt {attempt}/{retries}: {e}"
                 [ANat 2; ANat 3; AExn x2];
           EvSleep (drive_handler.backoff 1%Q 2);
           EvCall c None]).
Proof.
  intros x1 x2 c.
  destruct (retry_three_attempts Mock.t _ unit (call c) 1%Q
              (Mock.mk Mock.no_answers [Some x1; Some x2; None] [])
              (Mock.mk Mock.no_answers [Some x2; None] [])
              (Mock.mk Mock.no_answers [None] [])
              (Mock.mk Mock.no_answers [] [])
              [EvCall c (Some x1)] [EvCall c (Some x2)] [EvCall c None] x1 x2)
    as [H _].
  - intros tr; reflexivity.
  - intros tr; reflexivity.
  - apply (H tt []). intros tr'; reflexivity.
Defined.

(* ------------------------------------------------------------------ *)
(** ** Strings *)

Section StringFacts.

Lemma append_nil_r (s : string) : s ++ "" = s.
Proof. induction s; simpl; congruence. Qed.

Lemma append_assoc (a b c : string) : (a ++ b) ++ c = a ++ b ++ c.
Proof. induction a; simpl; congruence. Qed.

(** [rstrip] removes a run of [c] at the end, and all of it. *)
Lemma rstrip_spec (c : ascii) (s : string) :
  exists k, s = Py.rstrip c s ++ repeat_char c k
            /\ Py.endswith_char (Py.rstrip c s) c = false.
Proof.
  induction s as [|a s IH].
  - exists 0. split; reflexivity.
  - destruct IH as [k [Hs He]]. simpl.
    destruct (Py.rstrip c s) as [|b r] eqn:R.
    + destruct (Ascii.eqb a c) eqn:Hac.
      * apply Ascii.eqb_eq in Hac. subst a. exists (S k).
        split; [simpl in *; now rewrite <- Hs | reflexivity].
      * exists k. split; [simpl in *; now rewrite <- Hs | simpl; exact Hac].
    + exists k. split.
      * simpl. simpl in Hs. now rewrite <- Hs.
      * simpl in *. exact He.
Qed.

Lemma rstrip_no_trailing (c : ascii) (s : string) :
  Py.endswith_char s c = false -> Py.rstrip c s = s.
Proof.
  induction s as [|a s IH]; intros H; [reflexivity|].
  simpl in *. destruct s as [|b s'].
  - simpl. now rewrite H.
  - rewrite (IH H). reflexivity.
Qed.

End StringFacts.

(** C6 (destination directory).  For the user bob: with the home resolved as
    /home/bob the destination is /home/bob/catalog; in general, with a
    resolved (non-empty) home it is the home without its trailing slashes,
    followed by /catalog; with no resolved home it is the fixed template
    /vendor-automation-sftp-storage-live-me-1/home/bob/catalog, unchanged.
    The call touches nothing but the log. *)
Theorem auto_remote_dir_resolution :
  forall (E : Type) (EE : Env E) (self : sftp_handler.SFTPHandler) (s : St E),
    (forall home,
        sftp_handler._home self = Some home -> home <> "" ->
        exists k evs,
          home = Py.rstrip "/" home ++ repeat_char "/" k
          /\ Py.endswith_char (Py.rstrip "/" home) "/" = false
          /\ sftp_handler.get_auto_remote_dir self s
             = (Ret (Py.rstrip "/" home ++ "/catalog"), after s evs))
    /\ (sftp_handler._home self = None ->
        exists evs,
          sftp_handler.get_auto_remote_dir self s
          = (Ret ("/vendor-automation-sftp-storage-live-me-1/home/"
                    ++ sftp_handler.username self ++ "/catalog"), after s evs))
    /\ (sftp_handler.username self = "bob" ->
        sftp_handler._home self = Some "/home/bob" ->
        fst (sftp_handler.get_auto_remote_dir self s) = Ret "/home/bob/catalog")
    /\ (sftp_handler.username self = "bob" ->
        sftp_handler._home self = None ->
        fst (sftp_handler.get_auto_remote_dir self s)
        = Ret "/vendor-automation-sftp-storage-live-me-1/home/bob/catalog").
Proof.
  intros E EE self s. repeat split.
  - intros home Hh Hne.
    destruct (rstrip_spec "/" home) as [k [Hk He]].
    exists k. eexists. split; [exact Hk | split; [exact He|]].
    unfold sftp_handler.get_auto_remote_dir. rewrite Hh.
    destruct home as [|a h]; [congruence|]. cbn [Py.truthy].
    unfold bind. rewrite log_run. reflexivity.
  - intros Hh. eexists.
    unfold sftp_handler.get_auto_remote_dir. rewrite Hh.
    unfold bind. rewrite log_run. reflexivity.
  - intros Hu Hh. unfold sftp_handler.get_auto_remote_dir. rewrite Hh. reflexivity.
  - intros Hu Hh. unfold sftp_handler.get_auto_remote_dir, sftp_handler._aws_intended_dir.
    rewrite Hh, Hu. reflexivity.
Qed.

Lemma auto_remote_dir_resolution_witness :
  let bob home := sftp_handler.mkSFTPHandler "sftp.example" 22 "bob" (Some "pw") None
                    true true home in
  let s := Mock.init Mock.no_answers [] [] in
  fst (sftp_handler.get_auto_remote_dir (bob (Some "/home/bob")) s) = Ret "/home/bob/catalog"
  /\ fst (sftp_handler.get_auto_remote_dir (bob None) s)
     = Ret "/vendor-automation-sftp-storage-live-me-1/home/bob/catalog"
  /\ (exists k evs,
         "/srv/data//" = Py.rstrip "/" "/srv/data//" ++ repeat_char "/" k
         /\ Py.endswith_char (Py.rstrip "/" "/srv/data//") "/" = false
         /\ sftp_handler.get_auto_remote_dir (bob (Some "/srv/data//")) s
            = (Ret (Py.rstrip "/" "/srv/data//" ++ "/catalog"), after s evs))
  /\ (exists evs,
         sftp_handler.get_auto_remote_dir (bob None) s
         = (Ret ("/vendor-automation-sftp-storage-live-me-1/home/" ++ "bob" ++ "/catalog"),
            after s evs)).
Proof.
  intros bob s.
  split; [|split; [|split]].
  - apply (auto_remote_dir_resolution Mock.t _ (bob (Some "/home/bob")) s); reflexivity.
  - apply (auto_remote_dir_resolution Mock.t _ (bob None) s); reflexivity.
  - apply (auto_remote_dir_resolution Mock.t _ (bob (Some "/srv/data//")) s
             : _ /\ _ /\ _ /\ _); [reflexivity | discriminate].
  - apply (auto_remote_dir_resolution Mock.t _ (bob None) s); reflexivity.
Defined.

Section ExtensionFacts.

Lemma rsplit_slash_no_slash (s : string) :
  has_char "/" s = false -> Py.rsplit_slash s = ("", s).
Proof.
  induction s as [|a s IH]; intros H; [reflexivity|].
  simpl in H. apply orb_false_iff in H as [Ha Hs].
  simpl. rewrite (IH Hs). simpl. now rewrite Ha.
Qed.

Lemma rsplit_slash_tail_no_char (c : ascii) (s : string) :
  has_char c s = false -> has_char c (snd (Py.rsplit_slash s)) = false.
Proof.
  induction s as [|a s IH]; intros H; [reflexivity|].
  simpl in H. apply orb_false_iff in H as [Ha Hs]. specialize (IH Hs).
  simpl. destruct (Py.rsplit_slash s) as [h t]. simpl in IH.
  destruct (Py.truthy h); [exact IH|].
  destruct (Ascii.eqb a "/"); [exact IH|].
  simpl. now rewrite Ha, IH.
Qed.

Lemma split_last_dot_no_dot (s : string) :
  has_char "." s = false -> Py.split_last_dot s = None.
Proof.
  induction s as [|a s IH]; intros H; [reflexivity|].
  simpl in H. apply orb_false_iff in H as [Ha Hs].
  simpl. now rewrite (IH Hs), Ha.
Qed.

Lemma split_last_dot_app (pre suf : string) :
  has_char "." suf = false ->
  Py.split_last_dot (pre ++ String "." suf) = Some (pre, String "." suf).
Proof.
  intros H. induction pre as [|a pre IH].
  - simpl. now rewrite (split_last_dot_no_dot suf H).
  - simpl. now rewrite IH.
Qed.

Lemma lstrip_dot_suffix (suf : string) :
  has_char "." suf = false -> Py.lstrip "." (String "." suf) = suf.
Proof.
  intros H. simpl. destruct suf as [|a s]; [reflexivity|].
  simpl in H. apply orb_false_iff in H as [Ha _]. simpl. now rewrite Ha.
Qed.

(** A name without a dot has the empty extension. *)
Lemma splitext_no_dot (name : string) :
  has_char "." name = false -> snd (Py.splitext name) = "".
Proof.
  intros H. unfold Py.splitext.
  pose proof (rsplit_slash_tail_no_char "." name H) as Ht.
  destruct (Py.rsplit_slash name) as [h t]. simpl in Ht.
  now rewrite (split_last_dot_no_dot t Ht).
Qed.

Lemma mem_empty_lower (l : list string) :
  Py.mem "" (map Py.lower l) = Py.mem "" l.
Proof.
  unfold Py.mem. induction l as [|x l IH]; [reflexivity|].
  cbn [map existsb]. rewrite IH. now destruct x.
Qed.

Lemma mem_In (x : string) (l : list string) : Py.mem x l = true <-> In x l.
Proof.
  unfold Py.mem. rewrite existsb_exists. split.
  - intros [y [Hy Heq]]. apply String.eqb_eq in Heq. now subst.
  - intros H. exists x. split; [exact H | apply String.eqb_refl].
Qed.

End ExtensionFacts.

(** C10, as the code has it.  With a non-empty allow-list, eligibility
    compares the lower-cased [os.path.splitext] extension of the name, its
    dot removed, with the lower-cased allow-list.  For a name without a slash
    that reads [pre.suf] with no dot in [suf] and something other than dots in
    [pre], that extension is [suf], the suffix after the last dot.  A name
    without any dot has the empty extension: it is excluded exactly when the
    allow-list does not itself contain the empty string. *)
Theorem filter_allowed_extension :
  forall (cfg : settings.t) (name : string),
    settings.ALLOWED_EXTENSIONS cfg <> [] ->
    let allowed := map Py.lower (settings.ALLOWED_EXTENSIONS cfg) in
    watcher._filter_allowed cfg name
    = Py.mem (Py.lower (Py.lstrip "." (snd (Py.splitext name)))) allowed
    /\ (forall pre suf,
           name = pre ++ String "." suf ->
           has_char "." suf = false ->
           has_char "/" name = false ->
           Py.all_dots pre = false ->
           watcher._filter_allowed cfg name = Py.mem (Py.lower suf) allowed)
    /\ (has_char "." name = false ->
        (watcher._filter_allowed cfg name = false
         <-> ~ In "" (settings.ALLOWED_EXTENSIONS cfg))).
Proof.
  intros cfg name Hne allowed.
  assert (Hdef : watcher._filter_allowed cfg name
                 = Py.mem (Py.lower (Py.lstrip "." (snd (Py.splitext name)))) allowed).
  { unfold watcher._filter_allowed, allowed.
    destruct (settings.ALLOWED_EXTENSIONS cfg); [congruence | reflexivity]. }
  split; [exact Hdef | split].
  - intros pre suf Hname Hsuf Hslash Hpre. rewrite Hdef.
    unfold Py.splitext. rewrite (rsplit_slash_no_slash name Hslash).
    rewrite Hname, (split_last_dot_app pre suf Hsuf), Hpre. simpl snd.
    now rewrite (lstrip_dot_suffix suf Hsuf).
  - intros Hdot. rewrite Hdef, (splitext_no_dot name Hdot). simpl.
    unfold allowed. rewrite mem_empty_lower. rewrite <- mem_In.
    destruct (Py.mem "" (settings.ALLOWED_EXTENSIONS cfg)); split; congruence.
Qed.

(** C10 as stated fails twice: under the allow-list [[""]] the dot-less name
    README is accepted, and under [["csv"]] the name [.csv], whose suffix after
    the last dot is csv, is rejected. *)
Lemma filter_allowed_counterexample :
  let cfg l := settings.mk "/tmp/sigma" "" "Sigma_Archive" "" 22 "" 30 l 0%Q in
  (settings.ALLOWED_EXTENSIONS (cfg [""]) <> []
   /\ has_char "." "README" = false
   /\ watcher._filter_allowed (cfg [""]) "README" = true)
  /\ (".csv" = "" ++ String "." "csv"
      /\ Py.mem (Py.lower "csv") (map Py.lower ["csv"]) = true
      /\ watcher._filter_allowed (cfg ["csv"]) ".csv" = false).
Proof.
  intros cfg. repeat split; try reflexivity. discriminate.
Qed.

Lemma filter_allowed_extension_witness :
  let cfg := settings.mk "/tmp/sigma" "" "Sigma_Archive" "" 22 "" 30 ["csv"; "TXT"] 0%Q in
  watcher._filter_allowed cfg "DATA.CSV" = Py.mem (Py.lower "CSV") (map Py.lower ["csv"; "TXT"])
  /\ watcher._filter_allowed cfg "DATA.CSV" = true
  /\ (watcher._filter_allowed cfg "README" = false <-> ~ In "" ["csv"; "TXT"]).
Proof.
  intros cfg.
  assert (Hne : settings.ALLOWED_EXTENSIONS cfg <> []) by discriminate.
  destruct (filter_allowed_extension cfg "DATA.CSV" Hne) as [_ [H2 _]].
  destruct (filter_allowed_extension cfg "README" Hne) as [_ [_ H3]].
  split; [|split].
  - apply (H2 "DATA" "CSV"); reflexivity.
  - reflexivity.
  - apply H3. reflexivity.
Defined.

(* ------------------------------------------------------------------ *)
(** ** Computations that always come back *)

Section Totality.
Context {E : Type} {EE : Env E}.

Lemma safe_nodiv {A} (m : M E A) : safe m -> nodiv m.
Proof. intros H s. destruct (H s) as [a [s' Hs]]. rewrite Hs. discriminate. Qed.

Lemma safe_ret {A} (a : A) : safe (ret a : M E A).
Proof. intros s. now exists a, s. Qed.

Lemma safe_emit ev : safe (emit ev : M E unit).
Proof. intros s. eexists _, _. reflexivity. Qed.

Lemma safe_log lvl fmt args : safe (log lvl fmt args : M E unit).
Proof. apply safe_emit. Qed.

Lemma nodiv_raise {A} e : nodiv (raise e : M E A).
Proof. intros s. discriminate. Qed.

Lemma nodiv_call c : nodiv (call c : M E (ret_ty c)).
Proof.
  intros s. unfold call. destruct (perform c (env s)) as [[a|e] e']; discriminate.
Qed.

Lemma safe_bind {A B} (m : M E A) (k : A -> M E B) :
  safe m -> (forall a, safe (k a)) -> safe (bind m k).
Proof.
  intros Hm Hk s. destruct (Hm s) as [a [s' Hs]].
  destruct (Hk a s') as [b [s'' Hs']]. exists b, s''.
  unfold bind. now rewrite Hs.
Qed.

Lemma nodiv_bind {A B} (m : M E A) (k : A -> M E B) :
  nodiv m -> (forall a, nodiv (k a)) -> nodiv (bind m k).
Proof.
  intros Hm Hk s. unfold bind. specialize (Hm s).
  destruct (m s) as [[a|e|] s']; simpl in *; [apply Hk | discriminate | congruence].
Qed.

Lemma nodiv_try_except {A} (m : M E A) h :
  nodiv m -> (forall e, nodiv (h e)) -> nodiv (try_except m h).
Proof.
  intros Hm Hh s. unfold try_except. specialize (Hm s).
  destruct (m s) as [[a|e|] s']; simpl in *; [discriminate | apply Hh | congruence].
Qed.

(** A handler that always returns makes the whole [try] return. *)
Lemma safe_try_except {A} (m : M E A) h :
  nodiv m -> (forall e, safe (h e)) -> safe (try_except m h).
Proof.
  intros Hm Hh s. unfold try_except. specialize (Hm s).
  destruct (m s) as [[a|e|] s']; simpl in *;
    [now exists a, s' | apply Hh | congruence].
Qed.

Lemma nodiv_when b (m : M E unit) : nodiv m -> nodiv (when b m).
Proof. destruct b; simpl; [trivial | intros _ s; discriminate]. Qed.

Lemma nodiv_if {A} (b : bool) (m1 m2 : M E A) :
  nodiv m1 -> nodiv m2 -> nodiv (if b then m1 else m2).
Proof. now destruct b. Qed.

Lemma nodiv_retry_loop {A} (func : M E A) retries base attempt remaining last :
  nodiv func -> nodiv (drive_handler.retry_loop func retries base attempt remaining last).
Proof.
  intros Hf. revert attempt last.
  induction remaining as [|r IH]; intros attempt last.
  - simpl. destruct last; apply nodiv_raise.
  - simpl. apply nodiv_try_except; [exact Hf|]. intros e.
    apply nodiv_bind; [apply safe_nodiv, safe_emit|]. intros _.
    apply nodiv_if; [apply nodiv_raise|].
    apply nodiv_bind; [apply safe_nodiv, safe_emit|]. intros _. apply IH.
Qed.

Lemma nodiv_retry {A} (func : M E A) :
  nodiv func -> nodiv (drive_handler._retry_default func).
Proof. intros H. apply nodiv_retry_loop, H. Qed.

End Totality.

Ltac nodiv_step :=
  first
    [ apply nodiv_bind; [|intros ?]
    | apply nodiv_try_except; [|intros ?]
    | apply nodiv_if
    | apply nodiv_retry
    | apply nodiv_when
    | match goal with |- nodiv (call ?c) => exact (nodiv_call c) end
    | apply nodiv_raise
    | apply safe_nodiv; first [apply safe_log | apply safe_emit | apply safe_ret] ].

Section ProgramTotality.
Context {E : Type} {EE : Env E}.
Import drive_handler sftp_handler.

Lemma nodiv_move file_id name : nodiv (move_file_to_archive file_id name : M E bool).
Proof.
  unfold move_file_to_archive, get_or_create_archive_folder, _find_folder_in_root,
    _create_folder_in_root.
  repeat nodiv_step.
  all: match goal with |- context [lr_files ?r] => destruct (lr_files r) end.
  all: repeat nodiv_step.
Qed.

(** [move_file_to_archive] reports every failure as [False]. *)
Lemma safe_move file_id name : safe (move_file_to_archive file_id name : M E bool).
Proof.
  unfold move_file_to_archive. apply safe_try_except.
  - unfold get_or_create_archive_folder, _find_folder_in_root, _create_folder_in_root.
    repeat nodiv_step.
    all: match goal with |- context [lr_files ?r] => destruct (lr_files r) end.
    all: repeat nodiv_step.
  - intros e. apply safe_bind; [apply safe_log | intros; apply safe_ret].
Qed.

Lemma nodiv_makedirs_loop absolute path parts :
  nodiv (makedirs_loop absolute path parts : M E unit).
Proof.
  revert path. induction parts as [|p parts IH]; intros path; simpl.
  - apply safe_nodiv, safe_ret.
  - apply nodiv_bind; [|intros _; apply IH].
    unfold makedirs_step, try_except_if. repeat nodiv_step.
Qed.

Lemma nodiv_upload self local_path : nodiv (upload_to_auto_dir self local_path : M E unit).
Proof.
  unfold upload_to_auto_dir. apply nodiv_bind.
  - unfold get_auto_remote_dir. destruct (_home self) as [h|]; [destruct (Py.truthy h)|];
      repeat nodiv_step.
  - intros rd. apply nodiv_bind.
    + apply nodiv_when. unfold makedirs. apply nodiv_if;
        [apply safe_nodiv, safe_ret | apply nodiv_makedirs_loop].
    + intros _. repeat nodiv_step.
Qed.

End ProgramTotality.

Section CycleFacts.
Context {E : Type} {EE : Env E}.
Context (cfg : settings.t).
Import drive_handler sftp_handler watcher.

Lemma bind_inv_Ret {A B} (m : M E A) (k : A -> M E B) s b s' :
  bind m k s = (Ret b, s') ->
  exists a s1, m s = (Ret a, s1) /\ k a s1 = (Ret b, s').
Proof.
  unfold bind. destruct (m s) as [[a|e|] s1]; intros H; try discriminate.
  now exists a, s1.
Qed.

Lemma nodiv_relay_one sftp arch f : nodiv (relay_one cfg sftp arch f : M E unit).
Proof.
  unfold relay_one.
  apply nodiv_bind; [apply nodiv_upload | intros _].
  apply nodiv_bind; [apply nodiv_move | intros moved].
  apply nodiv_bind; [destruct moved; apply safe_nodiv, safe_log | intros _].
  repeat nodiv_step.
Qed.

(** No failure of a file escapes the second loop of [run_once]. *)
Lemma safe_relay_each sftp arch files : safe (relay_each cfg sftp arch files : M E unit).
Proof.
  induction files as [|f files IH]; simpl.
  - apply safe_ret.
  - apply safe_bind; [|intros _; exact IH].
    apply safe_try_except; [apply nodiv_relay_one | intros e; apply safe_log].
Qed.

Lemma relay_each_tt sftp arch files (s : St E) :
  exists s', relay_each cfg sftp arch files s = (Ret tt, s').
Proof. destruct (safe_relay_each sftp arch files s) as [[] [s' H]]. now exists s'. Qed.

(** A handler that [connect] returns has its transport and its channel. *)
Lemma connect_opens self (s : St E) h s' :
  connect self s = (Ret h, s') -> _sftp h = true /\ _transport h = true.
Proof.
  unfold connect. intros H.
  repeat (apply bind_inv_Ret in H; destruct H as [? [? [_ H]]]).
  unfold ret in H. inversion H. split; reflexivity.
Qed.

(** With [close] calls that do not fail, [close] ends the trace with them. *)
Lemma close_run h (s : St E) :
  (forall e, exists e', perform CSftpClose e = (Ok tt, e')) ->
  (forall e, exists e', perform CTransportClose e = (Ok tt, e')) ->
  _sftp h = true -> _transport h = true ->
  exists e',
    close h s = (Ret tt, mkSt e' (trace s ++ [EvCall CSftpClose None;
                                              EvCall CTransportClose None;
                                              EvLog INFO "SFTP: disconnected." []])%list).
Proof.
  intros H1 H2 Hs Ht. unfold close. rewrite Hs, Ht. simpl when.
  destruct (H1 (env s)) as [e1 He1]. destruct (H2 e1) as [e2 He2].
  exists e2. unfold bind, try_finally.
  rewrite (call_run _ _ _ _ He1). simpl res_of.
  rewrite (call_at _ _ _ _ _ He2). simpl res_of. cbn [env trace failure].
  rewrite log_run. unfold after. cbn [env trace].
  repeat rewrite <- app_assoc. reflexivity.
Qed.

Lemma safe_size_skip f : safe (size_skip cfg f : M E bool).
Proof.
  unfold size_skip. destruct (negb _); [|apply safe_ret].
  apply safe_try_except.
  - apply nodiv_bind; [exact (nodiv_call (COsGetsize _)) | intros sz].
    apply nodiv_if; repeat nodiv_step.
  - intros e. apply safe_bind; [apply safe_log | intros; apply safe_ret].
Qed.

(** The filter always returns, and what it had accepted stays accepted. *)
Lemma filter_each_total files : forall files_ok (s : St E),
  exists more s', filter_each cfg files files_ok s = (Ret (files_ok ++ more)%list, s').
Proof.
  induction files as [|f files IH]; intros ok s; simpl.
  - exists [], s. now rewrite app_nil_r.
  - destruct (negb (r_status f =? "OK")).
    { unfold bind. rewrite log_run. apply IH. }
    destruct (negb (_filter_allowed cfg (r_name f))).
    { unfold bind. rewrite log_run. apply IH. }
    destruct (safe_size_skip f s) as [skip [s1 Hs]].
    rewrite (bind_Ret _ _ _ _ _ Hs). destruct skip; [apply IH|].
    destruct (IH (ok ++ [f])%list s1) as [more [s' H]].
    exists (f :: more), s'. rewrite H. now rewrite <- app_assoc.
Qed.

(** A cycle with eligible files is the relay of those files. *)
Lemma run_once_relays fuel self d arch (s s1 : St E) f files_ok :
  Py.truthy (Py.strip_ws (Py.or_else d (settings.DRIVE_FOLDER_ID cfg))) = true ->
  collect_phase cfg fuel self (Py.strip_ws (Py.or_else d (settings.DRIVE_FOLDER_ID cfg))) s
  = (Ret (f :: files_ok), s1) ->
  run_once cfg fuel self d arch s = relay_phase cfg self arch (f :: files_ok) s1.
Proof.
  intros Hf Hc. unfold run_once. cbv zeta. rewrite Hf. cbn [negb].
  unfold bind at 1. now rewrite Hc.
Qed.

End CycleFacts.

Section MakedirsFacts.
Context {E : Type} {EE : Env E}.
Import sftp_handler.








End MakedirsFacts.

Section PrefixFacts.
Import sftp_handler.







End PrefixFacts.

Section ListingFacts.
Context {E : Type} {EE : Env E}.
Import drive_handler.

(** With fuel for every page, the loop returns the pages' files after what
    it had accumulated. *)
Lemma list_loop_served q page_size tok (s : St E) pages s' :
  pages_served q page_size tok s pages s' ->
  forall fuel acc, length pages <= fuel ->
    list_loop fuel q page_size acc tok s = (Ret (acc ++ files_of pages)%list, s').
Proof.
  induction 1 as [tok s resp s' Hreq Hend | tok s resp s' rest s'' Hreq Hmore Hrest IH];
    intros fuel acc Hfuel.
  - destruct fuel as [|fuel]; [simpl in Hfuel; lia|].
    cbn [list_loop]. rewrite (bind_Ret _ _ _ _ _ Hreq). cbv zeta. rewrite Hend.
    unfold files_of. simpl. now rewrite app_nil_r.
  - destruct fuel as [|fuel]; [simpl in Hfuel; lia|].
    cbn [list_loop]. rewrite (bind_Ret _ _ _ _ _ Hreq). cbv zeta. rewrite Hmore.
    cbn [negb]. rewrite IH by (simpl in Hfuel; lia).
    unfold files_of. simpl. now rewrite <- app_assoc.
Qed.

(** What the loop returns is made of pages that were served. *)
Lemma list_loop_inv q page_size : forall fuel acc tok (s : St E) files s',
  list_loop fuel q page_size acc tok s = (Ret files, s') ->
  exists pages,
    pages_served q page_size tok s pages s'
    /\ files = (acc ++ files_of pages)%list
    /\ length pages <= fuel.
Proof.
  induction fuel as [|fuel IH]; intros acc tok s files s' H; [discriminate|].
  cbn [list_loop] in H. apply bind_inv_Ret in H. destruct H as [resp [s1 [Hreq H]]].
  cbv zeta in H. destruct (Py.truthy_opt (lr_nextPageToken resp)) eqn:Htok; cbn [negb] in H.
  - apply IH in H. destruct H as [pages [Hp [Hf Hl]]].
    exists (resp :: pages). split; [|split].
    + now apply served_more with s1.
    + rewrite Hf. unfold files_of. simpl. now rewrite <- app_assoc.
    + simpl. lia.
  - inversion H. subst. exists [resp]. split; [|split].
    + now apply served_last.
    + unfold files_of. simpl. now rewrite app_nil_r.
    + simpl. lia.
Qed.

End ListingFacts.

(** C8, as the code has it.  [list_files_in_folder] requests the pages one
    after the other, each through [_retry] and each with the token of the page
    before, until a page has no token; with fuel for every page it returns,
    and what it returns is the files of all the pages, in order.  Conversely,
    whatever it returns is made that way.  The code removes no duplicates: the
    result has no identifier twice when (and only when) the pages served have
    none twice between them. *)
Theorem list_accumulates_pages :
  forall (E : Type) (EE : Env E) (folder_id : string) (page_size : nat)
         (extra_query : option string) (s : St E),
    let q := drive_handler.children_query folder_id extra_query in
    (forall pages s' fuel,
        pages_served q page_size None s pages s' ->
        length pages <= fuel ->
        drive_handler.list_files_in_folder fuel folder_id page_size extra_query s
        = (Ret (files_of pages),
           after s' [EvLog INFO "Found {len(files)} file(s) in folder {folder_id}"
                           [ANat (length (files_of pages)); AStr folder_id]])
        /\ (NoDup (map fm_id (files_of pages)) ->
            forall files s'',
              drive_handler.list_files_in_folder fuel folder_id page_size extra_query s
              = (Ret files, s'') ->
              NoDup (map fm_id files)))
    /\ (forall fuel files s'',
           drive_handler.list_files_in_folder fuel folder_id page_size extra_query s
           = (Ret files, s'') ->
           exists pages s',
             pages_served q page_size None s pages s'
             /\ files = files_of pages
             /\ length pages <= fuel
             /\ (NoDup (map fm_id files) <-> NoDup (map fm_id (files_of pages)))).
Proof.
  intros E EE folder_id page_size extra_query s q. split.
  - intros pages s' fuel Hp Hfuel.
    assert (Hrun : drive_handler.list_files_in_folder fuel folder_id page_size extra_query s
                   = (Ret (files_of pages),
                      after s' [EvLog INFO "Found {len(files)} file(s) in folder {folder_id}"
                                      [ANat (length (files_of pages)); AStr folder_id]])).
    { unfold drive_handler.list_files_in_folder. fold q.
      rewrite (bind_Ret _ _ _ _ _ (list_loop_served q page_size None s pages s' Hp fuel [] Hfuel)).
      cbn [app]. unfold bind. rewrite log_run. reflexivity. }
    split; [exact Hrun|].
    intros Hnd files s'' H. rewrite Hrun in H. inversion H. now subst.
  - intros fuel files s'' H.
    unfold drive_handler.list_files_in_folder in H. fold q in H.
    apply bind_inv_Ret in H. destruct H as [fs [s1 [Hloop H]]].
    apply bind_inv_Ret in H. destruct H as [u [s2 [_ H]]]. inversion H. subst.
    apply list_loop_inv in Hloop. destruct Hloop as [pages [Hp [Hf Hl]]].
    exists pages, s1. cbn [app] in Hf. subst. repeat split; trivial.
Qed.

(** C8 as stated fails: when two pages hold the same file, the result holds
    it twice. *)
Lemma list_accumulates_pages_counterexample :
  let x := mkFileMeta "id-x" "x.csv" "text/csv" in
  exists s',
    drive_handler.list_files_in_folder 5 "inbox" 1 None (Mock.init (Mock.repeating x) [] [])
    = (Ret [x; x], s')
    /\ ~ NoDup (map fm_id [x; x]).
Proof.
  intros x. eexists. split; [reflexivity|].
  intros H. inversion H as [|a l Hin _]. apply Hin. now left.
Qed.

Lemma list_accumulates_pages_witness :
  exists s',
    drive_handler.list_files_in_folder 2 "inbox" 1 None (mkSt Scenario.two_files [])
    = (Ret [Scenario.a_csv; mkFileMeta "id-b" "big.bin" "application/octet-stream"], s').
Proof.
  destruct (list_accumulates_pages Sim.t _ "inbox" 1 None (mkSt Scenario.two_files []))
    as [H _].
  edestruct H as [Hrun _].
  - eapply served_more; [reflexivity | reflexivity |].
    eapply served_last; reflexivity.
  - simpl. apply le_n.
  - eexists. exact Hrun.
Defined.

Section LoopFacts.
Context {E : Type} {EE : Env E}.
Context (cfg : settings.t).
Import watcher.

Lemma check_stop_run (s : St E) b e1 :
  perform CStopFlag (env s) = (Ok b, e1) ->
  check_stop true s = (Ret b, mkSt e1 (trace s ++ polled)%list).
Proof. intros H. unfold check_stop. now rewrite (call_run _ _ _ _ H). Qed.

(** A second of sleep: the flag was polled and was not set. *)
Lemma sleep_loop_tick n (s : St E) e1 :
  perform CStopFlag (env s) = (Ok false, e1) ->
  sleep_loop true (S n) s
  = sleep_loop true n (mkSt e1 (trace s ++ polled_and_slept)%list).
Proof.
  intros H. cbn [sleep_loop]. rewrite (bind_Ret _ _ _ _ _ (check_stop_run _ _ _ H)).
  unfold bind at 1. unfold sleep. rewrite emit_run. unfold after. cbn [env trace].
  now rewrite <- app_assoc.
Qed.

(** The flag is set: the sleep ends at once. *)
Lemma sleep_loop_break n (s : St E) e1 :
  perform CStopFlag (env s) = (Ok true, e1) ->
  sleep_loop true (S n) s = (Ret tt, mkSt e1 (trace s ++ polled)%list).
Proof.
  intros H. cbn [sleep_loop]. now rewrite (bind_Ret _ _ _ _ _ (check_stop_run _ _ _ H)).
Qed.

(** The whole sleep: at most [n] seconds, one poll before each of them. *)
Lemma sleep_loop_shape n :
  (forall e, exists b e', perform CStopFlag e = (Ok b, e')) ->
  forall s : St E, exists k e',
    k <= n
    /\ sleep_loop true n s
       = (Ret tt, mkSt e' (trace s ++ concat (repeat polled_and_slept k)
                                   ++ (if (k <? n)%nat then polled else []))%list).
Proof.
  intros Hflag. induction n as [|n IH]; intros s.
  - exists 0, (env s). split; [lia|]. simpl. rewrite app_nil_r. now destruct s.
  - destruct (Hflag (env s)) as [[|] [e1 H]].
    + exists 0, e1. split; [lia|]. rewrite (sleep_loop_break _ _ _ H). reflexivity.
    + destruct (IH (mkSt e1 (trace s ++ polled_and_slept)%list)) as [k [e' [Hk Hrun]]].
      exists (S k), e'. split; [lia|].
      rewrite (sleep_loop_tick _ _ _ H), Hrun. cbn [trace repeat concat].
      change (S k <? S n)%nat with (k <? n)%nat. now repeat rewrite <- app_assoc.
Qed.

Lemma nodiv_sleep_loop n : nodiv (sleep_loop true n : M E unit).
Proof.
  induction n as [|n IH]; simpl; [apply safe_nodiv, safe_ret|].
  apply nodiv_bind; [exact (nodiv_call CStopFlag) | intros b].
  apply nodiv_if; [apply safe_nodiv, safe_ret|].
  apply nodiv_bind; [apply safe_nodiv, safe_emit | intros _; exact IH].
Qed.

(** The flag is set when the loop comes round: no cycle is run. *)
Lemma main_loop_stop fuel list_fuel self d interval (s : St E) e1 :
  perform CStopFlag (env s) = (Ok true, e1) ->
  main_loop cfg (S fuel) list_fuel self d true interval s
  = (Ret tt, mkSt e1 (trace s ++ polled
                        ++ [EvLog INFO "Watcher: stop requested. exiting loop." []])%list).
Proof.
  intros H. cbn [main_loop]. rewrite (bind_Ret _ _ _ _ _ (check_stop_run _ _ _ H)).
  rewrite log_run. unfold after. cbn [env trace]. now rewrite <- app_assoc.
Qed.

(** The flag is not set when the loop comes round: a cycle, the sleep, and
    round again. *)
Lemma main_loop_cycle fuel list_fuel self d interval (s : St E) e1 :
  perform CStopFlag (env s) = (Ok false, e1) ->
  main_loop cfg (S fuel) list_fuel self d true interval s
  = bind (guarded_cycle cfg list_fuel self d)
         (fun _ => bind (sleep_loop true (Z.to_nat interval))
                        (fun _ => main_loop cfg fuel list_fuel self d true interval))
         (mkSt e1 (trace s ++ polled)%list).
Proof.
  intros H. cbn [main_loop]. now rewrite (bind_Ret _ _ _ _ _ (check_stop_run _ _ _ H)).
Qed.

(** Nothing raised inside a cycle leaves it. *)
Lemma guarded_cycle_catches list_fuel self d (s : St E) :
  (forall x s1, run_once cfg list_fuel self d None s = (Raise x, s1) ->
                guarded_cycle cfg list_fuel self d s
                = (Ret tt, after s1 [EvLog ERROR "Watcher: cycle failed with exception." []]))
  /\ (forall x s1, guarded_cycle cfg list_fuel self d s <> (Raise x, s1)).
Proof.
  unfold guarded_cycle, try_except. split.
  - intros x s1 H. now rewrite H.
  - intros x s1. destruct (run_once cfg list_fuel self d None s) as [[[]|y|] s2];
      discriminate.
Qed.

(** With a flag that answers, the loop ends by returning or not at all. *)
Lemma main_loop_never_raises list_fuel self d interval :
  (forall e, exists b e', perform CStopFlag e = (Ok b, e')) ->
  forall fuel (s : St E) x s',
    main_loop cfg fuel list_fuel self d true interval s <> (Raise x, s').
Proof.
  intros Hflag. induction fuel as [|fuel IH]; intros s x s'; [discriminate|].
  destruct (Hflag (env s)) as [[|] [e1 H]].
  - rewrite (main_loop_stop _ _ _ _ _ _ _ H). discriminate.
  - rewrite (main_loop_cycle _ _ _ _ _ _ _ H). unfold bind at 1.
    pose proof (proj2 (guarded_cycle_catches list_fuel self d
                         (mkSt e1 (trace s ++ polled)%list))) as Hg.
    destruct (guarded_cycle cfg list_fuel self d (mkSt e1 (trace s ++ polled)%list))
      as [[[]|y|] s2]; [| exfalso; now apply (Hg y s2) | discriminate].
    unfold bind at 1.
    destruct (sleep_loop_shape (Z.to_nat interval) Hflag s2) as [k [e' [_ Hs]]].
    rewrite Hs. apply IH.
Qed.

End LoopFacts.

Section SplitJoin.

Lemma split_no_sep (c : ascii) (x : string) :
  has_char c x = false -> Py.split c x = [x].
Proof.
  induction x as [|a x IH]; intros H; [reflexivity|].
  simpl in H. apply orb_false_iff in H as [Ha Hx].
  simpl. now rewrite Ha, (IH Hx).
Qed.

Lemma split_app_sep (c : ascii) (x t : string) :
  has_char c x = false -> Py.split c (x ++ String c t) = x :: Py.split c t.
Proof.
  induction x as [|a x IH]; intros H.
  - simpl. now rewrite Ascii.eqb_refl.
  - simpl in H. apply orb_false_iff in H as [Ha Hx].
    simpl. now rewrite Ha, (IH Hx).
Qed.

(** Splitting the joined identifiers gives them back. *)
Lemma split_join (l : list string) :
  l <> [] -> (forall p, In p l -> has_char "," p = false) ->
  Py.split "," (Py.join "," l) = l.
Proof.
  induction l as [|x l IH]; intros Hne Hl; [congruence|].
  destruct l as [|y l].
  - simpl. apply split_no_sep, Hl. now left.
  - change (Py.join "," (x :: y :: l)) with (x ++ String "," (Py.join "," (y :: l))).
    rewrite split_app_sep by (apply Hl; now left).
    rewrite IH; [reflexivity | discriminate |].
    intros p Hp. apply Hl. now right.
Qed.

Lemma join_truthy (l : list string) :
  l <> [] -> (forall p, In p l -> p <> "") -> Py.truthy (Py.join "," l) = true.
Proof.
  destruct l as [|x l]; intros Hne Hl; [congruence|].
  assert (Hx : x <> "") by (apply Hl; now left).
  destruct x as [|a x]; [congruence|]. now destruct l.
Qed.

Lemma filter_not_mem_self (l : list string) :
  filter (fun p => negb (Py.mem p l)) l = [].
Proof.
  assert (H : forall l', (forall p, In p l' -> In p l) ->
                         filter (fun p => negb (Py.mem p l)) l' = []).
  { induction l' as [|p l' IH]; intros Hsub; [reflexivity|].
    simpl. assert (Hm : Py.mem p l = true) by (apply mem_In, Hsub; now left).
    rewrite Hm. simpl. apply IH. intros q Hq. apply Hsub. now right. }
  now apply H.
Qed.

End SplitJoin.

Section SimDriveFacts.
Import drive_handler.

Lemma folder_query_is_not_children_query nm p :
  String.eqb (folder_query nm) (children_query p None) = false.
Proof. reflexivity. Qed.

(** A file that is not a folder is not an answer to the folder query. *)
Lemma matches_folder_query_file nm (x : Sim.DriveEntry) :
  String.eqb (Sim.e_mimeType x) FOLDER_MIME = false ->
  Sim.matches (folder_query nm) x = false.
Proof.
  intros Hm. unfold Sim.matches. rewrite Hm.
  assert (He : existsb (fun p => String.eqb (folder_query nm) (children_query p None))
                       (Sim.e_parents x) = false).
  { induction (Sim.e_parents x) as [|p l IH]; [reflexivity|].
    cbn [existsb]. now rewrite folder_query_is_not_children_query, IH. }
  rewrite He. cbn [orb]. now rewrite andb_false_r, andb_false_r.
Qed.

(** Moving a file leaves the answers to the folder query as they were. *)
Lemma folder_listing_stable nm fid add remove (d : list Sim.DriveEntry) :
  (forall y, In y d -> Sim.e_id y = fid ->
             String.eqb (Sim.e_mimeType y) FOLDER_MIME = false) ->
  filter (Sim.matches (folder_query nm)) (map (Sim.moved_entry fid add remove) d)
  = filter (Sim.matches (folder_query nm)) d.
Proof.
  induction d as [|y d IH]; intros Hfile; [reflexivity|].
  cbn [map filter]. rewrite IH by (intros z Hz; apply Hfile; now right).
  unfold Sim.moved_entry. destruct (String.eqb (Sim.e_id y) fid) eqn:Hid.
  - apply String.eqb_eq in Hid.
    assert (Hy : String.eqb (Sim.e_mimeType y) FOLDER_MIME = false)
      by (apply Hfile; [now left | exact Hid]).
    rewrite (matches_folder_query_file nm y Hy).
    now rewrite (matches_folder_query_file nm (Sim.update_parents add remove y)).
  - reflexivity.
Qed.

Lemma moved_entry_id fid add remove (y : Sim.DriveEntry) :
  Sim.e_id (Sim.moved_entry fid add remove y) = Sim.e_id y.
Proof. unfold Sim.moved_entry. now destruct (String.eqb (Sim.e_id y) fid). Qed.

Lemma find_moved fid add remove (d : list Sim.DriveEntry) x :
  Sim.find_entry fid d = Some x ->
  Sim.find_entry fid (map (Sim.moved_entry fid add remove) d)
  = Some (Sim.update_parents add remove x).
Proof.
  unfold Sim.find_entry. induction d as [|y d IH]; intros H; [discriminate|].
  cbn [map find] in *. rewrite moved_entry_id.
  destruct (String.eqb (Sim.e_id y) fid) eqn:Hid.
  - inversion H. subst. unfold Sim.moved_entry. now rewrite Hid.
  - now apply IH.
Qed.

(** Replacing every parent by the archive folder leaves it alone. *)
Lemma update_parents_replaces add (x : Sim.DriveEntry) :
  (forall p, In p (Sim.e_parents x) -> p <> "" /\ has_char "," p = false) ->
  Sim.e_parents (Sim.update_parents add (remove_parents_of (Sim.e_parents x)) x) = [add].
Proof.
  intros Hwf. unfold Sim.update_parents, remove_parents_of. cbn [Sim.e_parents].
  destruct (Sim.e_parents x) as [|p l] eqn:HP; [reflexivity|].
  rewrite join_truthy; [| discriminate | intros q Hq; now apply Hwf].
  rewrite split_join; [| discriminate | intros q Hq; now apply Hwf].
  now rewrite filter_not_mem_self.
Qed.

End SimDriveFacts.

Section SimArchive.
Import drive_handler.

Lemma sim_archive_folder (w : Sim.t) tr name A item more :
  let nm := Py.or_else name DEFAULT_ARCHIVE_FOLDER_NAME in
  lr_files (Sim.list_page (folder_query nm) 10 None (Sim.drive w)) = item :: more ->
  fm_id item = A -> Py.truthy A = true ->
  get_or_create_archive_folder name (mkSt w tr)
  = (Ret A, mkSt w (tr ++ found_events nm A)%list).
Proof.
  intros nm Hlist Hid HA. unfold get_or_create_archive_folder. fold nm.
  assert (Hfind : _find_folder_in_root nm (mkSt w tr)
                  = (Ret (Some A),
                     mkSt w (tr ++ [EvCall (CDriveList (folder_query nm) 10
                                              "files(id, name)" None) None])%list)).
  { unfold _find_folder_in_root.
    erewrite bind_Ret; [| apply retry_call_ok; reflexivity].
    rewrite Hlist, Hid. reflexivity. }
  rewrite (bind_Ret _ _ _ _ _ Hfind). cbn [Py.truthy_opt]. rewrite HA.
  unfold bind. rewrite log_run. unfold after, ret, found_events. cbn [env trace Py.or_else].
  rewrite HA. now rewrite <- app_assoc.
Qed.

(** The file is already under the archive folder: nothing is changed. *)
Lemma sim_move_short (w : Sim.t) tr fid name A item more x :
  let nm := Py.or_else name DEFAULT_ARCHIVE_FOLDER_NAME in
  lr_files (Sim.list_page (folder_query nm) 10 None (Sim.drive w)) = item :: more ->
  fm_id item = A -> Py.truthy A = true ->
  Sim.find_entry fid (Sim.drive w) = Some x ->
  Py.mem A (Sim.e_parents x) = true ->
  move_file_to_archive fid name (mkSt w tr)
  = (Ret true,
     mkSt w (tr ++ found_events nm A
                ++ [EvCall (CDriveGet fid "id, name, parents") None;
                    EvLog INFO "File {file_id} already in archive folder {archive_id}"
                          [AStr fid; AStr A]])%list).
Proof.
  intros nm Hlist Hid HA Hx Hmem. unfold move_file_to_archive.
  apply try_except_Ret.
  rewrite (bind_Ret _ _ _ _ _ (sim_archive_folder w tr name A item more Hlist Hid HA)).
  fold nm.
  erewrite bind_Ret; [| apply retry_call_ok; simpl; rewrite Hx; reflexivity].
  rewrite Hmem.
  unfold bind. rewrite log_run. unfold after, ret. cbn [env trace].
  now repeat rewrite <- app_assoc.
Qed.

(** The file is elsewhere: one update replaces its parents. *)
Lemma sim_move_update (w : Sim.t) tr fid name A item more x :
  let nm := Py.or_else name DEFAULT_ARCHIVE_FOLDER_NAME in
  let remove := remove_parents_of (Sim.e_parents x) in
  lr_files (Sim.list_page (folder_query nm) 10 None (Sim.drive w)) = item :: more ->
  fm_id item = A -> Py.truthy A = true ->
  Sim.find_entry fid (Sim.drive w) = Some x ->
  Py.mem A (Sim.e_parents x) = false ->
  move_file_to_archive fid name (mkSt w tr)
  = (Ret true,
     mkSt (Sim.set_drive w (map (Sim.moved_entry fid A remove) (Sim.drive w)))
          (tr ++ found_events nm A
              ++ [EvCall (CDriveGet fid "id, name, parents") None;
                  EvCall (CDriveUpdate fid A remove "id, parents") None;
                  EvLog INFO "Moved file id={file_id} to archive folder id={archive_id}"
                        [AStr fid; AStr A]])%list).
Proof.
  intros nm remove Hlist Hid HA Hx Hmem. unfold move_file_to_archive.
  apply try_except_Ret.
  rewrite (bind_Ret _ _ _ _ _ (sim_archive_folder w tr name A item more Hlist Hid HA)).
  fold nm.
  erewrite bind_Ret; [| apply retry_call_ok; simpl; rewrite Hx; reflexivity].
  rewrite Hmem.
  erewrite bind_Ret; [| apply retry_call_ok; simpl; rewrite Hx; reflexivity].
  unfold bind. rewrite log_run. unfold after, ret. cbn [env trace].
  now repeat rewrite <- app_assoc.
Qed.

End SimArchive.

(** C3, as the code has it, on the simulated Drive.  For every file (not a
    folder, its parents well-formed identifiers) and every archive folder that
    exists: archiving twice in succession returns success both times.  After
    the first call the archive folder is among the file's parents; it is the
    only parent when it was not a parent before, and when it was already one
    the first call changes nothing.  The second call finds the folder among
    the parents and returns success without any update of the parents. *)
Theorem archive_idempotent :
  forall (w : Sim.t) (tr : list Event) (fid : string) (name : option string)
         (A : string) (item : FileMeta) (more : list FileMeta) (x : Sim.DriveEntry),
    let nm := Py.or_else name drive_handler.DEFAULT_ARCHIVE_FOLDER_NAME in
    lr_files (Sim.list_page (drive_handler.folder_query nm) 10 None (Sim.drive w))
    = item :: more ->
    fm_id item = A -> Py.truthy A = true ->
    Sim.find_entry fid (Sim.drive w) = Some x ->
    (forall y, In y (Sim.drive w) -> Sim.e_id y = fid ->
               String.eqb (Sim.e_mimeType y) drive_handler.FOLDER_MIME = false) ->
    (forall p, In p (Sim.e_parents x) -> p <> "" /\ has_char "," p = false) ->
    exists s1 x1,
      drive_handler.move_file_to_archive fid name (mkSt w tr) = (Ret true, s1)
      /\ Sim.find_entry fid (Sim.drive (env s1)) = Some x1
      /\ Py.mem A (Sim.e_parents x1) = true
      /\ (Py.mem A (Sim.e_parents x) = false -> Sim.e_parents x1 = [A])
      /\ (Py.mem A (Sim.e_parents x) = true -> env s1 = w)
      /\ drive_handler.move_file_to_archive fid name s1
         = (Ret true,
            mkSt (env s1)
                 (trace s1 ++ found_events nm A
                    ++ [EvCall (CDriveGet fid "id, name, parents") None;
                        EvLog INFO "File {file_id} already in archive folder {archive_id}"
                              [AStr fid; AStr A]])%list).
Proof.
  intros w tr fid name A item more x nm Hlist Hid HA Hx Hfile Hwf.
  destruct (Py.mem A (Sim.e_parents x)) eqn:Hmem.
  - eexists. exists x.
    split; [exact (sim_move_short w tr fid name A item more x Hlist Hid HA Hx Hmem)|].
    cbn [env trace]. repeat split; trivial; try discriminate.
    exact (sim_move_short w _ fid name A item more x Hlist Hid HA Hx Hmem).
  - pose (remove := drive_handler.remove_parents_of (Sim.e_parents x)).
    pose (w1 := Sim.set_drive w (map (Sim.moved_entry fid A remove) (Sim.drive w))).
    assert (Hparents : Sim.e_parents (Sim.update_parents A remove x) = [A])
      by (apply update_parents_replaces, Hwf).
    assert (Hmem1 : Py.mem A (Sim.e_parents (Sim.update_parents A remove x)) = true).
    { rewrite Hparents. simpl. now rewrite String.eqb_refl. }
    assert (Hx1 : Sim.find_entry fid (Sim.drive w1)
                  = Some (Sim.update_parents A remove x))
      by (apply find_moved, Hx).
    assert (Hlist1 : lr_files (Sim.list_page (drive_handler.folder_query nm) 10 None
                                 (Sim.drive w1)) = item :: more).
    { rewrite <- Hlist. unfold Sim.list_page, w1. cbn [Sim.drive Sim.set_drive lr_files].
      now rewrite (folder_listing_stable nm fid A remove (Sim.drive w) Hfile). }
    eexists. exists (Sim.update_parents A remove x).
    split; [exact (sim_move_update w tr fid name A item more x Hlist Hid HA Hx Hmem)|].
    cbn [env trace]. fold remove. fold w1.
    repeat split; trivial; try discriminate.
    exact (sim_move_short w1 _ fid name A item more _ Hlist1 Hid HA Hx1 Hmem1).
Qed.

(** C3 as stated fails for a file that is already under the archive folder
    and under another folder: the first call succeeds and both parents stay. *)
Lemma archive_idempotent_counterexample :
  exists s1,
    drive_handler.move_file_to_archive "id-a" None (mkSt Scenario.shared_file [])
    = (Ret true, s1)
    /\ option_map Sim.e_parents (Sim.find_entry "id-a" (Sim.drive (env s1)))
       = Some ["inbox"; "id-arch"]
    /\ ["inbox"; "id-arch"] <> ["id-arch"].
Proof.
  eexists. split; [reflexivity | split; [reflexivity | discriminate]].
Qed.

Lemma archive_idempotent_witness :
  exists s1 x1,
    drive_handler.move_file_to_archive "id-a" None (mkSt Scenario.two_files [])
    = (Ret true, s1)
    /\ Sim.find_entry "id-a" (Sim.drive (env s1)) = Some x1
    /\ Sim.e_parents x1 = ["id-arch"]
    /\ fst (drive_handler.move_file_to_archive "id-a" None s1) = Ret true.
Proof.
  destruct (archive_idempotent Scenario.two_files [] "id-a" None "id-arch"
              (mkFileMeta "id-arch" "Sigma_Archive" drive_handler.FOLDER_MIME) []
              (Sim.mkEntry "id-a" "a.csv" "text/csv" ["inbox"] false 512000))
    as [s1 [x1 [H1 [H2 [_ [H4 [_ H6]]]]]]].
  - reflexivity.
  - reflexivity.
  - reflexivity.
  - reflexivity.
  - intros y [<-|[<-|[<-|[]]]] H; try reflexivity; discriminate H.
  - intros p [<-|[]]. split; [discriminate | reflexivity].
  - exists s1, x1. split; [exact H1 | split; [exact H2 | split]].
    + apply H4. reflexivity.
    + now rewrite H6.
Defined.

Section FilterFacts.
Context {E : Type} {EE : Env E}.
Context (cfg : settings.t).
Import drive_handler watcher.

(** A downloaded file with a disallowed extension leaves the filter at the
    extension test: its size is not asked for. *)
Lemma filter_each_disallowed (f : result) rest files_ok (s : St E) :
  r_status f = "OK" -> _filter_allowed cfg (r_name f) = false ->
  filter_each cfg (f :: rest) files_ok s
  = filter_each cfg rest files_ok
      (after s [EvLog INFO "Skipping disallowed extension: {f.get('name')}"
                      [AStr (r_name f)]]).
Proof.
  intros Hst Hext. cbn [filter_each]. rewrite Hst, Hext. simpl.
  unfold bind. now rewrite log_run.
Qed.

End FilterFacts.

(** C1, as the code has it.  In the cycle over a.csv (500 KB) and big.bin
    (2000 KB), with the allow-list [csv] and a limit of 1 MB: both files are
    downloaded; big.bin is then excluded by the extension filter, before any
    size check, and nothing else is done for it: no upload, no archive, no
    removal, so its temp copy stays and the log holds its two download records
    and the record of its exclusion.  a.csv is downloaded, checked for size,
    uploaded, archived (the archive folder becomes its only parent) and its
    temp copy is removed; the cycle returns, and a.csv is the one file reported
    as moved. *)
Theorem end_to_end_two_files :
  let r := watcher.run_once (Scenario.cfg ["csv"] 1%Q) 5 Scenario.self (Some "inbox") None
             (mkSt Scenario.two_files []) in
  let tr := trace (snd r) in
  let w := env (snd r) in
  fst r = Ret tt
  /\ downloads tr = ["id-a"; "id-b"]
  /\ size_checks tr = ["/tmp/sigma/a.csv"]
  /\ uploads tr = [("/tmp/sigma/a.csv", "/home/bob/catalog/a.csv", None)]
  /\ parent_updates tr = ["id-a"]
  /\ removals tr = ["/tmp/sigma/a.csv"]
  /\ records_about "big.bin" tr
     = [(INFO, "Downloading '{name}' (id={file_id}, mime={mime}) -> {dest_path}");
        (INFO, "Downloaded '{name}' -> {dest_path}");
        (INFO, "Skipping disallowed extension: {f.get('name')}")]
  /\ records_with "Drive: moved '{f['name']}' to Archive." tr = [[AStr "a.csv"]]
  /\ option_map Sim.e_parents (Sim.find_entry "id-a" (Sim.drive w)) = Some ["id-arch"]
  /\ option_map Sim.e_parents (Sim.find_entry "id-b" (Sim.drive w)) = Some ["inbox"]
  /\ Sim.local_files w = [("/tmp/sigma/big.bin", 2048000%N)]
  /\ Sim.sftp_files w = [("/home/bob/catalog/a.csv", 512000%N)].
Proof.
  vm_compute. repeat split.
Qed.

(** C1 as stated fails: a download is attempted (and succeeds) for big.bin
    before the extension filter sees it, and the log has records for it. *)
Lemma end_to_end_counterexample :
  let r := watcher.run_once (Scenario.cfg ["csv"] 1%Q) 5 Scenario.self (Some "inbox") None
             (mkSt Scenario.two_files []) in
  In (EvCall (CDriveDownload (GetMedia "id-b") "/tmp/sigma/big.bin" 32768) None)
     (trace (snd r))
  /\ In "id-b" (downloads (trace (snd r)))
  /\ records_about "big.bin" (trace (snd r)) <> []
  /\ Sim.lookup "/tmp/sigma/big.bin" (Sim.local_files (env (snd r))) = Some 2048000%N.
Proof.
  vm_compute. repeat split.
  - do 9 right. left. reflexivity.
  - right. left. reflexivity.
  - discriminate.
Qed.

(* ------------------------------------------------------------------ *)
(** ** Two complete runs *)

(** The cycle whose first upload fails: one connection, closed at the end;
    b.csv is uploaded, archived and removed; a.csv stays where it was. *)
Example blocked_first_run :
  let r := watcher.run_once (Scenario.cfg [] 0%Q) 5 Scenario.self (Some "inbox") None
             (mkSt Scenario.blocked_first []) in
  let tr := trace (snd r) in
  fst r = Ret tt
  /\ connections tr = 1
  /\ uploads tr
     = [("/tmp/sigma/a.csv", "/home/bob/catalog/a.csv", Some (IOError None "Failure"));
        ("/tmp/sigma/b.csv", "/home/bob/catalog/b.csv", None)]
  /\ parent_updates tr = ["id-b"]
  /\ removals tr = ["/tmp/sigma/b.csv"]
  /\ skipn (length tr - 3) tr
     = [EvCall CSftpClose None; EvCall CTransportClose None;
        EvLog INFO "SFTP: disconnected." []].
Proof. vm_compute. repeat split. Qed.

(** A loop with a one-second interval whose flag is set at the fifth poll:
    two cycles, one second of sleep after each, and the loop returns. *)
Example loop_two_cycles :
  let r := watcher.start_loop (Scenario.cfg [] 0%Q) 3 5 Scenario.self (Some "inbox") true
             (Some 1%Z) (mkSt (Scenario.idle 4) []) in
  fst r = Ret tt
  /\ cycles (trace (snd r)) = 2
  /\ sleeps (trace (snd r)) = [1%Q; 1%Q]
  /\ length (filter (fun ev => match ev with EvCall CStopFlag _ => true | _ => false end)
                    (trace (snd r))) = 5.
Proof. vm_compute. repeat split. Qed.

(* ================================================================== *)
(** * Further properties *)

Section Footprints.
Context {E : Type} {EE : Env E}.

Lemma within_mono {A} (tags tags' : list Tag) (m : M E A) :
  incl tags tags' -> within tags m -> within tags' m.
Proof.
  intros Hi Hm s r s' H. destruct (Hm s r s' H) as [evs [Ht Hf]].
  exists evs. split; [exact Ht|]. eapply Forall_impl; [|exact Hf].
  intros [| |c o]; simpl; auto.
Qed.

Lemma within_ret {A} tags (a : A) : within tags (ret a : M E A).
Proof. intros s r s' H. inversion H. exists []. now rewrite app_nil_r. Qed.

Lemma within_raise {A} tags e : within tags (raise e : M E A).
Proof. intros s r s' H. inversion H. exists []. now rewrite app_nil_r. Qed.

Lemma within_diverge {A} tags : within tags (drive_handler.diverge : M E A).
Proof. intros s r s' H. inversion H. exists []. now rewrite app_nil_r. Qed.

Lemma within_log tags lvl fmt args : within tags (log lvl fmt args : M E unit).
Proof.
  intros s r s' H. inversion H. exists [EvLog lvl fmt args].
  split; [reflexivity | repeat constructor].
Qed.

Lemma within_sleep tags q : within tags (sleep q : M E unit).
Proof.
  intros s r s' H. inversion H. exists [EvSleep q].
  split; [reflexivity | repeat constructor].
Qed.

Lemma within_call tags (c : Call) : In (tag c) tags -> within tags (call c).
Proof.
  intros Hin s r s' H. unfold call in H.
  destruct (perform c (env s)) as [a e']. inversion H.
  exists [EvCall c (failure a)]. split; [reflexivity|]. now repeat constructor.
Qed.

Lemma within_bind {A B} tags (m : M E A) (k : A -> M E B) :
  within tags m -> (forall a, within tags (k a)) -> within tags (bind m k).
Proof.
  intros Hm Hk s r s' H. unfold bind in H.
  destruct (m s) as [[a|e|] s1] eqn:Hms; destruct (Hm _ _ _ Hms) as [evs [Ht Hf]].
  - destruct (Hk a _ _ _ H) as [evs' [Ht' Hf']].
    exists (evs ++ evs')%list. split; [now rewrite Ht', Ht, app_assoc|].
    now apply Forall_app.
  - inversion H. subst. now exists evs.
  - inversion H. subst. now exists evs.
Qed.

Lemma within_try_except {A} tags (m : M E A) h :
  within tags m -> (forall e, within tags (h e)) -> within tags (try_except m h).
Proof.
  intros Hm Hh s r s' H. unfold try_except in H.
  destruct (m s) as [[a|e|] s1] eqn:Hms; destruct (Hm _ _ _ Hms) as [evs [Ht Hf]].
  - inversion H. subst. now exists evs.
  - destruct (Hh e _ _ _ H) as [evs' [Ht' Hf']].
    exists (evs ++ evs')%list. split; [now rewrite Ht', Ht, app_assoc|].
    now apply Forall_app.
  - inversion H. subst. now exists evs.
Qed.

Lemma within_try_finally {A} tags (m : M E A) f :
  within tags m -> within tags f -> within tags (try_finally m f).
Proof.
  intros Hm Hf s r s' H. unfold try_finally in H.
  destruct (m s) as [r1 s1] eqn:Hms. destruct (Hm _ _ _ Hms) as [evs [Ht Hq]].
  assert (Hfin : forall r2, (match f s1 with
                             | (Ret _, s'') => (r2, s'')
                             | (Raise e, s'') => (Raise e, s'')
                             | (Diverged, s'') => (Diverged, s'')
                             end) = (r, s') ->
                 exists evs0, trace s' = (trace s ++ evs0)%list /\ Forall (only tags) evs0).
  { intros r2 H2. destruct (f s1) as [r3 s3] eqn:Hfs.
    destruct (Hf _ _ _ Hfs) as [evs' [Ht' Hq']].
    assert (s3 = s') by (destruct r3; now inversion H2). subst s3.
    exists (evs ++ evs')%list. split; [now rewrite Ht', Ht, app_assoc|].
    now apply Forall_app. }
  destruct r1 as [a|e|].
  - exact (Hfin _ H).
  - exact (Hfin _ H).
  - inversion H. subst. now exists evs.
Qed.

Lemma within_if {A} tags (b : bool) (m1 m2 : M E A) :
  within tags m1 -> within tags m2 -> within tags (if b then m1 else m2).
Proof. now destruct b. Qed.

Lemma within_when tags b (m : M E unit) : within tags m -> within tags (when b m).
Proof. destruct b; simpl; [trivial | intros _; apply within_ret]. Qed.

Lemma within_retry_loop {A} tags (func : M E A) retries base attempt remaining last :
  within tags func ->
  within tags (drive_handler.retry_loop func retries base attempt remaining last).
Proof.
  intros Hf. revert attempt last.
  induction remaining as [|n IH]; intros attempt last.
  - simpl. destruct last; apply within_raise.
  - simpl. apply within_try_except; [exact Hf|]. intros e.
    apply within_bind; [apply within_log | intros _].
    apply within_if; [apply within_raise|].
    apply within_bind; [apply within_sleep | intros _; apply IH].
Qed.

Lemma within_retry {A} tags (func : M E A) :
  within tags func -> within tags (drive_handler._retry_default func).
Proof. intros H. now apply within_retry_loop. Qed.

End Footprints.

Ltac in_tags := simpl; tauto.

Ltac within_step :=
  first
    [ apply within_bind; [|intros ?]
    | apply within_try_except; [|intros ?]
    | apply within_try_finally
    | apply within_if
    | apply within_retry
    | apply within_when
    | match goal with |- within _ (call ?c) => apply (within_call _ c); in_tags end
    | apply within_raise
    | apply within_log
    | apply within_sleep
    | apply within_ret
    | apply within_diverge ].

Section ProgramFootprints.
Context {E : Type} {EE : Env E}.
Import drive_handler sftp_handler watcher.

Lemma within_list_loop fuel q page_size :
  forall (files : list FileMeta) (tok : option string),
    within [KList] (list_loop fuel q page_size files tok : M E (list FileMeta)).
Proof.
  induction fuel as [|fuel IH]; intros files tok; simpl.
  - apply within_diverge.
  - unfold list_page. repeat within_step. apply IH.
Qed.

Lemma within_list_files fuel folder_id page_size extra :
  within [KList] (list_files_in_folder fuel folder_id page_size extra : M E (list FileMeta)).
Proof.
  unfold list_files_in_folder. within_step; [apply within_list_loop|].
  repeat within_step.
Qed.

Lemma within_download_file f dest chunk :
  within [KOsMakedirs; KDownload] (download_file_to_path f dest chunk : M E string).
Proof.
  unfold download_file_to_path, _ensure_dir, _do_download. repeat within_step.
Qed.

Lemma within_delete_file fid : within [KDelete] (delete_file fid : M E unit).
Proof. unfold delete_file. repeat within_step. Qed.

Lemma within_download_each dest (del : bool) prefix files : forall results : list result,
  within (if del then [KOsMakedirs; KDownload; KDelete] else [KOsMakedirs; KDownload])
         (download_each files dest del prefix results : M E (list result)).
Proof.
  induction files as [|f files IH]; intros results; cbn [download_each].
  - apply within_ret.
  - cbv zeta. apply within_if.
    + within_step; [apply within_log | apply IH].
    + within_step; [|apply IH]. within_step; [|repeat within_step].
      within_step.
      * eapply within_mono; [|apply within_download_file].
        destruct del; intros t Ht; simpl in *; tauto.
      * within_step; [|apply within_ret].
        destruct del; simpl; [|apply within_ret].
        eapply within_mono; [|apply within_delete_file].
        intros t Ht; simpl in *; tauto.
Qed.

Lemma within_download_all fuel folder_id dest prefix :
  within [KList; KOsMakedirs; KDownload]
         (download_all_from_folder fuel folder_id dest false prefix : M E (list result)).
Proof.
  unfold download_all_from_folder. within_step.
  - eapply within_mono; [|apply within_list_files]. intros t Ht; simpl in *; tauto.
  - eapply within_mono; [|apply (within_download_each dest false)].
    intros t Ht; simpl in *; tauto.
Qed.

Lemma within_get_or_create name :
  within [KList; KCreate] (get_or_create_archive_folder name : M E string).
Proof.
  unfold get_or_create_archive_folder, _find_folder_in_root, _create_folder_in_root.
  repeat within_step.
  all: match goal with |- context [lr_files ?r] => destruct (lr_files r) end.
  all: repeat within_step.
Qed.

Lemma within_move fid name :
  within [KList; KCreate; KGet; KUpdate] (move_file_to_archive fid name : M E bool).
Proof.
  unfold move_file_to_archive. within_step; [|repeat within_step].
  within_step.
  - eapply within_mono; [|apply within_get_or_create]. intros t Ht; simpl in *; tauto.
  - repeat within_step.
Qed.

Lemma within_connect (self : SFTPHandler) :
  within (connect_tags self) (connect self : M E SFTPHandler).
Proof.
  unfold connect, connect_tags.
  destruct (Py.truthy_opt (key_file self)); repeat within_step.
Qed.

Lemma within_close (self : SFTPHandler) :
  within [KSftpClose; KTransportClose] (close self : M E unit).
Proof. unfold close. repeat within_step. Qed.

Lemma within_get_auto_remote_dir (self : SFTPHandler) :
  within [] (get_auto_remote_dir self : M E string).
Proof.
  unfold get_auto_remote_dir. destruct (_home self) as [h|]; [destruct (Py.truthy h)|];
    repeat within_step.
Qed.

Lemma within_makedirs_loop absolute parts : forall path : string,
  within [KStat; KMkdir] (makedirs_loop absolute path parts : M E unit).
Proof.
  induction parts as [|p parts IH]; intros path; simpl.
  - apply within_ret.
  - within_step; [|apply IH]. unfold makedirs_step, try_except_if. repeat within_step.
Qed.

Lemma within_makedirs remote_dir :
  within [KStat; KMkdir] (makedirs remote_dir : M E unit).
Proof.
  unfold makedirs. apply within_if; [apply within_ret | apply within_makedirs_loop].
Qed.

Lemma within_upload (self : SFTPHandler) local_path :
  within [KStat; KMkdir; KPut] (upload_to_auto_dir self local_path : M E unit).
Proof.
  unfold upload_to_auto_dir. within_step.
  - eapply within_mono; [|apply within_get_auto_remote_dir]. intros t [].
  - within_step.
    + apply within_when. eapply within_mono; [|apply within_makedirs].
      intros t Ht; simpl in *; tauto.
    + repeat within_step.
Qed.

End ProgramFootprints.

Ltac sub_tags := let t := fresh "t" in let Ht := fresh "Ht" in
  intros t Ht; simpl in *; tauto.

Section CycleFootprints.
Context {E : Type} {EE : Env E}.
Context (cfg : settings.t).
Import drive_handler sftp_handler watcher.

(** The events a computation adds, whatever its outcome. *)
Lemma within_run {A} tags (m : M E A) (s : St E) :
  within tags m ->
  exists evs, trace (snd (m s)) = (trace s ++ evs)%list /\ Forall (only tags) evs.
Proof. intros H. destruct (m s) as [r s'] eqn:Hm. exact (H s r s' Hm). Qed.

Lemma within_size_skip f : within [KOsGetsize] (size_skip cfg f : M E bool).
Proof.
  unfold size_skip. apply within_if; [|apply within_ret].
  within_step; [|repeat within_step].
  within_step; [repeat within_step|]. cbv zeta. repeat within_step.
Qed.

Lemma within_filter_each files : forall files_ok : list result,
  within [KOsGetsize] (filter_each cfg files files_ok : M E (list result)).
Proof.
  induction files as [|f files IH]; intros ok; cbn [filter_each].
  - apply within_ret.
  - apply within_if; [within_step; [apply within_log | apply IH]|].
    apply within_if; [within_step; [apply within_log | apply IH]|].
    within_step; [apply within_size_skip|]. apply within_if; apply IH.
Qed.

Lemma within_relay_one sftp arch f :
  within relay_tags (relay_one cfg sftp arch f : M E unit).
Proof.
  unfold relay_one. within_step.
  - eapply within_mono; [|apply within_upload]. unfold relay_tags. sub_tags.
  - within_step.
    + eapply within_mono; [|apply within_move]. unfold relay_tags. sub_tags.
    + unfold relay_tags. repeat within_step.
Qed.

Lemma within_relay_each sftp arch files :
  within relay_tags (relay_each cfg sftp arch files : M E unit).
Proof.
  induction files as [|f files IH]; simpl.
  - apply within_ret.
  - within_step; [|exact IH].
    within_step; [apply within_relay_one | apply within_log].
Qed.

Lemma within_collect fuel self folder_id :
  within [KList; KOsMakedirs; KDownload; KOsGetsize]
         (collect_phase cfg fuel self folder_id : M E (list result)).
Proof.
  unfold collect_phase. within_step; [apply within_log|].
  within_step.
  - eapply within_mono; [|apply within_download_all]. sub_tags.
  - eapply within_mono; [|apply within_filter_each]. sub_tags.
Qed.

Lemma connect_tags_cycle self : incl (connect_tags self) cycle_tags.
Proof.
  unfold connect_tags, cycle_tags.
  destruct (Py.truthy_opt (key_file self)); sub_tags.
Qed.

Lemma within_relay_phase self arch files :
  within cycle_tags (relay_phase cfg self arch files : M E unit).
Proof.
  unfold relay_phase. within_step.
  - eapply within_mono; [apply connect_tags_cycle | apply within_connect].
  - within_step.
    + eapply within_mono; [|apply within_relay_each]. unfold relay_tags, cycle_tags. sub_tags.
    + eapply within_mono; [|apply within_close]. unfold cycle_tags. sub_tags.
Qed.

Lemma within_run_once fuel self d arch :
  within cycle_tags (run_once cfg fuel self d arch : M E unit).
Proof.
  unfold run_once. cbv zeta. apply within_if; [apply within_log|].
  within_step.
  - eapply within_mono; [|apply within_collect]. unfold cycle_tags. sub_tags.
  - destruct a; [apply within_log | apply within_relay_phase].
Qed.

End CycleFootprints.

(** X1.  A cycle never deletes anything from Drive and never polls the stop
    flag: whatever its outcome, it only adds events to the trace, and the
    calls among them are listing, download, local file, SFTP and archive
    calls. *)
Theorem run_once_never_deletes :
  forall (E : Type) (EE : Env E) (cfg : settings.t) (fuel : nat) (self : watcher.Watcher)
         (d arch : option string) (s : St E),
  exists evs,
    trace (snd (watcher.run_once cfg fuel self d arch s)) = (trace s ++ evs)%list
    /\ Forall (only cycle_tags) evs
    /\ (forall c o, In (EvCall c o) evs -> tag c <> KDelete /\ tag c <> KFlag).
Proof.
  intros E EE cfg fuel self d arch s.
  destruct (within_run cycle_tags _ s (within_run_once cfg fuel self d arch))
    as [evs [Ht Hf]].
  exists evs. split; [exact Ht | split; [exact Hf|]].
  intros c o Hin. rewrite Forall_forall in Hf. specialize (Hf _ Hin). simpl in Hf.
  split; intros Heq; rewrite Heq in Hf; unfold cycle_tags in Hf; simpl in Hf;
    repeat (destruct Hf as [Hf|Hf]; [discriminate|]); exact Hf.
Qed.

(** X2.  Listing is read-only: whatever its outcome and however many pages
    and retries it takes, [list_files_in_folder] makes no call but
    [files().list]. *)
Theorem listing_is_read_only :
  forall (E : Type) (EE : Env E) (fuel : nat) (folder_id : string) (page_size : nat)
         (extra_query : option string) (s : St E),
  exists evs,
    trace (snd (drive_handler.list_files_in_folder fuel folder_id page_size extra_query s))
    = (trace s ++ evs)%list
    /\ Forall (only [KList]) evs.
Proof.
  intros. apply within_run, within_list_files.
Qed.

Section Reports.
Context {E : Type} {EE : Env E}.
Import drive_handler.

Lemma reports_ret {A} (a : A) : reports (ret a : M E A).
Proof. intros s r s' H. inversion H. exists []. now rewrite app_nil_r. Qed.

Lemma reports_log lvl fmt args :
  gave_up (EvLog lvl fmt args) = false -> reports (log lvl fmt args : M E unit).
Proof.
  intros Hq s r s' H. rewrite log_run in H. inversion H.
  exists [EvLog lvl fmt args]. split; [reflexivity|]. cbn [existsb]. now rewrite Hq.
Qed.

Lemma reports_bind {A B} (m : M E A) (k : A -> M E B) :
  reports m -> (forall a, reports (k a)) -> reports (bind m k).
Proof.
  intros Hm Hk s r s' H. unfold bind in H.
  destruct (m s) as [[a|x|] s1] eqn:Hms; destruct (Hm _ _ _ Hms) as [evs [Ht Hq]].
  - destruct (Hk a _ _ _ H) as [evs2 [Ht2 Hq2]].
    exists (evs ++ evs2)%list. split; [now rewrite Ht2, Ht, app_assoc|].
    destruct r as [b|y|]; [| |exact Hq2].
    + now rewrite existsb_app, Hq, Hq2.
    + destruct Hq2 as [evs' [He Hq']]. exists (evs ++ evs')%list.
      split; [now rewrite He, app_assoc|]. now rewrite existsb_app, Hq, Hq'.
  - inversion H; subst. now exists evs.
  - contradiction.
Qed.

Lemma reports_if {A} (b : bool) (m1 m2 : M E A) :
  reports m1 -> reports m2 -> reports (if b then m1 else m2).
Proof. now destruct b. Qed.

(** A call under [_retry]: three attempts at most. *)
Lemma reports_retry_call (c : Call) : reports (_retry_default (call c)).
Proof.
  intros s r s' H. unfold _retry_default, _retry in H. cbn [retry_loop] in H.
  unfold try_except, bind, call, sleep, emit, raise in H. cbn [env trace Nat.eqb] in H.
  repeat match type of H with
         | context [perform c ?e] =>
             let a := fresh "a" in let e' := fresh "e" in
             destruct (perform c e) as [[a|a] e']; cbn [res_of failure env trace] in H
         end;
    inversion H; subst; cbn [trace]; repeat rewrite <- app_assoc; cbn [app];
    (eexists; split; [reflexivity|]).
  - reflexivity.
  - reflexivity.
  - reflexivity.
  - eexists [_; _; _; _; _; _; _]. split; reflexivity.
Qed.

(** The body of the [try] of [move_file_to_archive]. *)
Lemma move_body_reports file_id name :
  reports (archive_id <- get_or_create_archive_folder name ;;
           parents <- _retry_default (call (CDriveGet file_id "id, name, parents")) ;;
           if Py.mem archive_id parents then
             log INFO "File {file_id} already in archive folder {archive_id}"
                 [AStr file_id; AStr archive_id] ;;
             ret true
           else
             _retry_default
               (call (CDriveUpdate file_id archive_id (remove_parents_of parents) "id, parents")) ;;
             log INFO "Moved file id={file_id} to archive folder id={archive_id}"
                 [AStr file_id; AStr archive_id] ;;
             ret true : M E bool).
Proof.
  apply reports_bind.
  - unfold get_or_create_archive_folder, _find_folder_in_root, _create_folder_in_root.
    apply reports_bind.
    + apply reports_bind; [apply reports_retry_call | intros resp].
      destruct (lr_files resp); apply reports_ret.
    + intros fid. apply reports_if.
      * apply reports_bind; [now apply reports_log | intros _; apply reports_ret].
      * apply reports_bind; [apply reports_retry_call | intros id].
        apply reports_bind; [now apply reports_log | intros _; apply reports_ret].
  - intros aid. apply reports_bind; [apply reports_retry_call | intros parents].
    apply reports_if.
    + apply reports_bind; [now apply reports_log | intros _; apply reports_ret].
    + apply reports_bind; [apply reports_retry_call | intros _].
      apply reports_bind; [now apply reports_log | intros _; apply reports_ret].
Qed.

(** [move_file_to_archive] answers [False] exactly when one of its calls was
    given up, and then the exception is recorded. *)
Lemma move_outcome file_id name (s : St E) :
  exists moved s' evs,
    move_file_to_archive file_id name s = (Ret moved, s')
    /\ trace s' = (trace s ++ evs)%list
    /\ existsb gave_up evs = negb moved
    /\ (moved = false ->
        exists evs' x,
          evs = (evs' ++ [retry_warning 3 3 x;
                          EvLog ERROR "Failed to move file {file_id} to archive: {e}"
                                [AStr file_id; AExn x]])%list).
Proof.
  unfold move_file_to_archive, try_except.
  match goal with |- context [match ?m s with _ => _ end] =>
    pose proof (move_body_reports file_id name s) as Hrep;
    destruct (m s) as [[b|x|] s1] eqn:Hm
  end; destruct (Hrep _ _ eq_refl) as [evs [Ht Hq]].
  - assert (b = true) as ->.
    { apply bind_inv_Ret in Hm as [aid [sa [_ Hm]]].
      apply bind_inv_Ret in Hm as [parents [sb [_ Hm]]].
      destruct (Py.mem aid parents).
      - apply bind_inv_Ret in Hm as [u [sc [_ Hm]]]. now inversion Hm.
      - apply bind_inv_Ret in Hm as [u [sc [_ Hm]]].
        apply bind_inv_Ret in Hm as [u' [sd [_ Hm]]]. now inversion Hm. }
    exists true, s1, evs. repeat split; trivial. discriminate.
  - destruct Hq as [evs' [He Hq']]. unfold bind. rewrite log_run.
    eexists false, _, (evs ++ [_])%list. split; [reflexivity|]. split; [|split].
    + cbn [after trace]. now rewrite Ht, app_assoc.
    + rewrite He. repeat rewrite existsb_app. rewrite Hq'. reflexivity.
    + intros _. exists evs', x. rewrite He, <- app_assoc. reflexivity.
  - contradiction.
Qed.

End Reports.

(** X3.  [move_file_to_archive] never raises, and every failure comes back as
    [False]: it answers [False] exactly when one of its Drive calls failed on
    the third and last attempt [_retry] allows, and it then ends with the
    error record of that exception; otherwise it answers [True].  Whatever it
    answers, it has only made metadata calls on Drive (list, create, get,
    update): it deletes nothing and touches neither the local files nor the
    SFTP server. *)
Theorem move_reports_and_stays_on_drive :
  forall (E : Type) (EE : Env E) (file_id : string) (name : option string) (s : St E),
  exists moved s' evs,
    drive_handler.move_file_to_archive file_id name s = (Ret moved, s')
    /\ trace s' = (trace s ++ evs)%list
    /\ Forall (only [KList; KCreate; KGet; KUpdate]) evs
    /\ existsb gave_up evs = negb moved
    /\ (if moved then True
        else exists evs' x,
               evs = (evs' ++ [drive_handler.retry_warning 3 3 x;
                               EvLog ERROR "Failed to move file {file_id} to archive: {e}"
                                     [AStr file_id; AExn x]])%list).
Proof.
  intros E EE file_id name s.
  destruct (move_outcome file_id name s) as [moved [s' [evs [H [Ht [Hq Hf]]]]]].
  destruct (within_move file_id name s _ _ H) as [evs0 [Ht0 Hw]].
  rewrite Ht in Ht0. apply app_inv_head in Ht0. subst evs0.
  exists moved, s', evs. repeat split; trivial.
  destruct moved; [exact I | now apply Hf].
Qed.

(** X4.  Key before password: a handler with a (non-empty) key file never
    authenticates with the password, even when it has one; a handler without a
    key file never loads a key. *)
Theorem connect_prefers_key :
  forall (E : Type) (EE : Env E) (self : sftp_handler.SFTPHandler) (s : St E),
  exists evs,
    trace (snd (sftp_handler.connect self s)) = (trace s ++ evs)%list
    /\ (forall c o, In (EvCall c o) evs ->
          if Py.truthy_opt (sftp_handler.key_file self)
          then tag c <> KAuthPassword
          else tag c <> KLoadKey /\ tag c <> KAuthKey).
Proof.
  intros E EE self s.
  destruct (within_run _ _ s (within_connect self)) as [evs [Ht Hf]].
  exists evs. split; [exact Ht|].
  intros c o Hin. rewrite Forall_forall in Hf. specialize (Hf _ Hin).
  unfold connect_tags in Hf. simpl in Hf.
  destruct (Py.truthy_opt (sftp_handler.key_file self)); simpl in Hf.
  - intros Heq. rewrite Heq in Hf.
    repeat (destruct Hf as [Hf|Hf]; [discriminate|]). exact Hf.
  - split; intros Heq; rewrite Heq in Hf;
      repeat (destruct Hf as [Hf|Hf]; [discriminate|]); exact Hf.
Qed.

Section ConnectionFacts.
Context {E : Type} {EE : Env E}.
Context (cfg : settings.t).
Import drive_handler sftp_handler watcher.

Lemma connections_app (a b : list Event) :
  connections (a ++ b) = connections a + connections b.
Proof.
  induction a as [|ev a IH]; [reflexivity|].
  destruct ev as [| |c o]; simpl; try exact IH.
  destruct c; simpl; try exact IH. now rewrite IH.
Qed.

Lemma no_transport_no_connection tags (evs : list Event) :
  ~ In KTransport tags -> Forall (only tags) evs -> connections evs = 0.
Proof.
  intros Hno. induction 1 as [|ev evs Hev _ IH]; [reflexivity|].
  destruct ev as [| |c o]; simpl; try exact IH.
  destruct c; simpl; try exact IH. simpl in Hev. contradiction.
Qed.

(** A computation that never opens a transport leaves the count as it is. *)
Lemma within_keeps_connections {A} tags (m : M E A) (s : St E) :
  ~ In KTransport tags -> within tags m ->
  connections (trace (snd (m s))) = connections (trace s).
Proof.
  intros Hno Hm. destruct (within_run tags m s Hm) as [evs [Ht Hf]].
  rewrite Ht, connections_app, (no_transport_no_connection tags evs Hno Hf). lia.
Qed.

Lemma connect_opens_one self (s : St E) :
  connections (trace (snd (connect self s))) <= connections (trace s) + 1.
Proof.
  unfold connect. unfold bind at 1. rewrite log_run.
  unfold bind at 1. unfold call at 1. cbn [env trace after].
  destruct (perform (CTransport (host self) (port self)) (env s)) as [[[]|x] e1];
    cbn [res_of failure].
  - match goal with
    | |- connections (trace (snd (?m ?st))) <= _ =>
        rewrite (within_keeps_connections
                   [KSftpOpen; KNormalize; KListdir; KLoadKey; KAuthKey; KAuthPassword]
                   m st)
    end.
    + cbn [trace]. repeat rewrite connections_app. simpl. lia.
    + simpl. intuition discriminate.
    + apply within_bind; [destruct (Py.truthy_opt (key_file self)); repeat within_step|].
      intros ?. repeat within_step.
  - cbn [snd trace]. repeat rewrite connections_app. simpl. lia.
Qed.

Lemma relay_phase_opens_one self arch files (s : St E) :
  connections (trace (snd (relay_phase cfg self arch files s)))
  <= connections (trace s) + 1.
Proof.
  unfold relay_phase. unfold bind.
  pose proof (connect_opens_one (make_handler cfg self) s) as Hc.
  destruct (connect (make_handler cfg self) s) as [[h|x|] s1]; cbn [snd] in *; try exact Hc.
  rewrite (within_keeps_connections (relay_tags ++ [KSftpClose; KTransportClose])
             (try_finally (relay_each cfg h arch files) (close h)) s1).
  - exact Hc.
  - unfold relay_tags. simpl. intuition discriminate.
  - apply within_try_finally.
    + eapply within_mono; [|apply within_relay_each]. apply incl_appl, incl_refl.
    + eapply within_mono; [|apply within_close]. apply incl_appr, incl_refl.
Qed.

End ConnectionFacts.

(** X5.  One connection per cycle at most: whatever a cycle does and however
    it ends, it opens at most one SFTP transport. *)
Theorem one_connection_per_cycle :
  forall (E : Type) (EE : Env E) (cfg : settings.t) (fuel : nat) (self : watcher.Watcher)
         (d arch : option string) (s : St E),
    connections (trace (snd (watcher.run_once cfg fuel self d arch s)))
    <= connections (trace s) + 1.
Proof.
  intros E EE cfg fuel self d arch s. unfold watcher.run_once. cbv zeta.
  destruct (negb _).
  - rewrite log_run. cbn [snd after trace]. rewrite connections_app. simpl. lia.
  - unfold bind.
    pose proof (within_keeps_connections [KList; KOsMakedirs; KDownload; KOsGetsize]
                  (watcher.collect_phase cfg fuel self
                     (Py.strip_ws (Py.or_else d (settings.DRIVE_FOLDER_ID cfg)))) s) as Hk.
    destruct (watcher.collect_phase cfg fuel self
                (Py.strip_ws (Py.or_else d (settings.DRIVE_FOLDER_ID cfg))) s)
      as [[files|x|] s1]; cbn [snd] in Hk;
      rewrite <- Hk;
      try (simpl; intuition discriminate); try apply within_collect;
      try (cbn [snd]; lia).
    destruct files as [|f files].
    + rewrite log_run. cbn [snd after trace]. rewrite connections_app. simpl. lia.
    + apply relay_phase_opens_one.
Qed.

Section FilterInvariants.
Context {E : Type} {EE : Env E}.
Context (cfg : settings.t).
Import drive_handler watcher.

Lemma subseq_refl {A} (l : list A) : subseq l l.
Proof. induction l; constructor; assumption. Qed.

Lemma subseq_nil_l {A} (l : list A) : subseq [] l.
Proof. induction l; constructor; assumption. Qed.

(** What the filter adds to its list: files of the input, in their order,
    each downloaded and of an allowed extension. *)
Lemma filter_each_keeps files : forall files_ok (s : St E),
  exists more s',
    filter_each cfg files files_ok s = (Ret (files_ok ++ more)%list, s')
    /\ subseq more files
    /\ Forall (fun f => r_status f = "OK" /\ _filter_allowed cfg (r_name f) = true) more.
Proof.
  induction files as [|f files IH]; intros ok s; cbn [filter_each].
  - exists [], s. rewrite app_nil_r. repeat split; constructor.
  - destruct (String.eqb (r_status f) "OK") eqn:Hst; cbn [negb].
    2:{ unfold bind. rewrite log_run.
        destruct (IH ok (after s [EvLog WARNING
                    "Skipping errored file {f.get('name')}: {f.get('message')}"
                    [AStr (r_name f); AStr (r_message f)]])) as [more [s' [H [Hs Hf]]]].
        exists more, s'. repeat split; trivial. now constructor. }
    destruct (_filter_allowed cfg (r_name f)) eqn:Hext; cbn [negb].
    2:{ unfold bind. rewrite log_run.
        destruct (IH ok (after s [EvLog INFO
                    "Skipping disallowed extension: {f.get('name')}" [AStr (r_name f)]]))
          as [more [s' [H [Hs Hf]]]].
        exists more, s'. repeat split; trivial. now constructor. }
    destruct (safe_size_skip cfg f s) as [skip [s1 Hskip]].
    rewrite (bind_Ret _ _ _ _ _ Hskip). destruct skip.
    + destruct (IH ok s1) as [more [s' [H [Hs Hf]]]].
      exists more, s'. repeat split; trivial. now constructor.
    + destruct (IH (ok ++ [f])%list s1) as [more [s' [H [Hs Hf]]]].
      exists (f :: more), s'. split; [|split].
      * rewrite H. now rewrite <- app_assoc.
      * now constructor.
      * constructor; [|exact Hf]. split; [now apply String.eqb_eq | exact Hext].
Qed.

(** Files that fail the status or the extension test are turned away with a
    log record each, and nothing else happens. *)
Lemma filter_each_rejects files : Forall (rejected cfg) files ->
  forall files_ok (s : St E),
    filter_each cfg files files_ok s = (Ret files_ok, after s (map rejection_record files)).
Proof.
  induction 1 as [|f files Hf _ IH]; intros ok s; cbn [filter_each map].
  - now rewrite after_nil.
  - unfold rejection_record at 1.
    destruct (String.eqb (r_status f) "OK") eqn:Hst; cbn [negb].
    + destruct Hf as [Hf|Hf]; [apply String.eqb_eq in Hst; contradiction|].
      rewrite Hf. cbn [negb]. unfold bind. rewrite log_run.
      now rewrite IH, after_after.
    + unfold bind. rewrite log_run. now rewrite IH, after_after.
Qed.

End FilterInvariants.

(** X6.  The eligible files are files of the download results, in the order
    of the results, and each of them was downloaded (status OK) and has an
    allowed extension; the filter always returns. *)
Theorem eligible_files_in_order :
  forall (E : Type) (EE : Env E) (cfg : settings.t)
         (files : list drive_handler.result) (s : St E),
  exists files_ok s',
    watcher.filter_each cfg files [] s = (Ret files_ok, s')
    /\ subseq files_ok files
    /\ Forall (fun f => drive_handler.r_status f = "OK"
                        /\ watcher._filter_allowed cfg (drive_handler.r_name f) = true)
              files_ok.
Proof.
  intros E EE cfg files s.
  destruct (filter_each_keeps cfg files [] s) as [more [s' H]].
  now exists more, s'.
Qed.

(** X7.  A cycle in which every download result fails the status or the
    extension test ends after the filter: it writes one record per result, in
    the order of the results (a warning for a result that is not OK, the
    record of the disallowed extension otherwise), then the record that there
    are no new files, and it does nothing else; no size is read, no SFTP
    connection is opened and nothing is archived. *)
Theorem nothing_eligible_no_connection :
  forall (E : Type) (EE : Env E) (cfg : settings.t) (fuel : nat) (self : watcher.Watcher)
         (d arch : option string) (results : list drive_handler.result) (s s1 : St E),
    let folder_id := Py.strip_ws (Py.or_else d (settings.DRIVE_FOLDER_ID cfg)) in
    Py.truthy folder_id = true ->
    drive_handler.download_all_from_folder fuel folder_id (watcher.temp_dir self) false None
      (after s [EvLog INFO "Watcher: checking Drive for new files..." []])
    = (Ret results, s1) ->
    Forall (rejected cfg) results ->
    watcher.run_once cfg fuel self d arch s
    = (Ret tt, after s1 (map rejection_record results
                           ++ [EvLog INFO "Watcher: no new files." []])).
Proof.
  intros E EE cfg fuel self d arch results s s1 folder_id Hfolder Hdl Hrej.
  unfold watcher.run_once. cbv zeta. fold folder_id. rewrite Hfolder. cbn [negb].
  assert (Hcol : watcher.collect_phase cfg fuel self folder_id s
                 = (Ret [], after s1 (map rejection_record results))).
  { unfold watcher.collect_phase. unfold bind at 1. rewrite log_run.
    rewrite (bind_Ret _ _ _ _ _ Hdl). now apply filter_each_rejects. }
  rewrite (bind_Ret _ _ _ _ _ Hcol). rewrite log_run. now rewrite after_after.
Qed.

Lemma nothing_eligible_no_connection_witness :
  exists s1,
    watcher.run_once (Scenario.cfg ["pdf"] 1%Q) 5 Scenario.self (Some "inbox") None
      (mkSt Scenario.two_files [])
    = (Ret tt,
       after s1 [EvLog INFO "Skipping disallowed extension: {f.get('name')}" [AStr "a.csv"];
                 EvLog INFO "Skipping disallowed extension: {f.get('name')}" [AStr "big.bin"];
                 EvLog INFO "Watcher: no new files." []]).
Proof.
  pose proof (fun results s1 =>
                nothing_eligible_no_connection Sim.t _ (Scenario.cfg ["pdf"] 1%Q) 5
                  Scenario.self (Some "inbox") None results
                  (mkSt Scenario.two_files []) s1) as T.
  eexists. etransitivity.
  - eapply T; [reflexivity | vm_compute; reflexivity |].
    repeat constructor; right; reflexivity.
  - reflexivity.
Defined.

Section SizeFacts.

Lemma not_Qle_bool_iff (x y : Q) : negb (Qle_bool x y) = true <-> (y < x)%Q.
Proof.
  rewrite negb_true_iff. split.
  - intros H. apply Qnot_le_lt. intros Hle. apply Qle_bool_iff in Hle. congruence.
  - intros H. destruct (Qle_bool x y) eqn:Hb; [|reflexivity].
    apply Qle_bool_iff in Hb. exfalso. exact (Qlt_not_le _ _ H Hb).
Qed.

(** An integer of at most 53 bits is a float. *)
Lemma round53_small (n : N) : (n < 2 ^ 53)%N -> Py.round53 n = n.
Proof.
  intros H. unfold Py.round53.
  destruct (N.leb_spec (N.size n) 53) as [_|Hgt]; [reflexivity|].
  exfalso. destruct (N.eq_dec n 0) as [->|Hn0]; [cbn in Hgt; lia|].
  rewrite N.size_log2 in Hgt by exact Hn0.
  assert (N.log2 n < 53)%N by (apply N.log2_lt_pow2; lia).
  lia.
Qed.

Lemma lstrip_ws_all_space (s : string) : all_space s = true -> Py.lstrip_ws s = "".
Proof.
  induction s as [|a s IH]; intros H; [reflexivity|].
  simpl in H. apply andb_true_iff in H as [Ha Hs]. simpl. rewrite Ha. now apply IH.
Qed.

Lemma strip_ws_all_space (s : string) : all_space s = true -> Py.strip_ws s = "".
Proof. intros H. unfold Py.strip_ws. now rewrite (lstrip_ws_all_space s H). Qed.

End SizeFacts.

(** X8.  The size limit, when one is configured and the size can be read: a
    file is skipped exactly when the float [bytes / 1048576] is greater than
    the limit.  For a file of less than 2^53 bytes that float is the exact
    quotient, and for a limit of [m] MB, [m] an integer, a file of exactly
    [m * 1048576] bytes is kept and one byte more is skipped.  From 2^53
    bytes on the quotient is rounded: against a limit of 2^33 MB a file of
    [2^53 + 1] bytes is kept. *)
Theorem size_limit_boundary :
  forall (E : Type) (EE : Env E) (cfg : settings.t) (f : drive_handler.result)
         (s : St E) (sz : N) (e' : E),
    Qeq_bool (settings.MAX_FILE_SIZE_MB cfg) 0 = false ->
    perform (COsGetsize (drive_handler.r_path f)) (env s) = (Ok sz, e') ->
    exists skip,
      fst (watcher.size_skip cfg f s) = Ret skip
      /\ (skip = true
          <-> (settings.MAX_FILE_SIZE_MB cfg < Z.of_N (Py.round53 sz) # watcher.MB)%Q)
      /\ ((sz < 2 ^ 53)%N ->
          Py.round53 sz = sz
          /\ forall m : Z,
               (settings.MAX_FILE_SIZE_MB cfg == inject_Z m)%Q ->
               (skip = true <-> (m * 1048576 < Z.of_N sz)%Z)
               /\ (Z.of_N sz = (m * 1048576)%Z -> skip = false)
               /\ (Z.of_N sz = (m * 1048576 + 1)%Z -> skip = true))
      /\ (sz = (2 ^ 53 + 1)%N ->
          (settings.MAX_FILE_SIZE_MB cfg == inject_Z (2 ^ 33))%Q -> skip = false).
Proof.
  intros E EE cfg f s sz e' Hmax Hsize.
  set (skip := negb (Qle_bool (Z.of_N (Py.round53 sz) # watcher.MB)
                              (settings.MAX_FILE_SIZE_MB cfg))).
  exists skip.
  assert (Hskip : skip = true
                  <-> (settings.MAX_FILE_SIZE_MB cfg < Z.of_N (Py.round53 sz) # watcher.MB)%Q)
    by apply not_Qle_bool_iff.
  split; [|split; [exact Hskip | split]].
  - unfold watcher.size_skip. rewrite Hmax. cbn [negb].
    unfold try_except, bind. rewrite (call_run _ _ _ _ Hsize). cbn [res_of failure].
    fold skip. destruct skip; reflexivity.
  - intros Hsmall. pose proof (round53_small sz Hsmall) as Hr. split; [exact Hr|].
    intros m Hm.
    assert (Hiff : skip = true <-> (m * 1048576 < Z.of_N sz)%Z).
    { rewrite Hskip, Hr, Hm. unfold Qlt, watcher.MB. simpl. lia. }
    split; [exact Hiff | split].
    + intros Heq. destruct skip; [|reflexivity].
      destruct Hiff as [Hi _]. specialize (Hi eq_refl). lia.
    + intros Heq. apply Hiff. lia.
  - intros -> Hm. destruct skip; [|reflexivity].
    destruct Hskip as [Hi _]. specialize (Hi eq_refl). rewrite Hm in Hi.
    vm_compute in Hi. discriminate Hi.
Qed.

Lemma size_limit_boundary_witness :
  let cfg := Scenario.cfg [] 1%Q in
  let f := drive_handler.mkResult "id-a" "a.csv" "/tmp/sigma/a.csv" "OK" "" in
  fst (watcher.size_skip cfg f (Mock.init (Mock.sized 1048576) [] [])) = Ret false
  /\ fst (watcher.size_skip cfg f (Mock.init (Mock.sized 1048577) [] [])) = Ret true.
Proof.
  intros cfg f. split.
  - edestruct (size_limit_boundary Mock.t _ cfg f (Mock.init (Mock.sized 1048576) [] []))
      as [skip [H [_ [H3 _]]]]; [reflexivity | vm_compute; reflexivity |].
    destruct H3 as [_ H3]; [reflexivity|].
    destruct (H3 1%Z) as [_ [Hat _]]; [reflexivity|].
    rewrite H, Hat; reflexivity.
  - edestruct (size_limit_boundary Mock.t _ cfg f (Mock.init (Mock.sized 1048577) [] []))
      as [skip [H [_ [H3 _]]]]; [reflexivity | vm_compute; reflexivity |].
    destruct H3 as [_ H3]; [reflexivity|].
    destruct (H3 1%Z) as [_ [_ Hover]]; [reflexivity|].
    rewrite H, Hover; reflexivity.
Defined.

(** X9.  A folder id made of white space only (or no id at all) ends the
    cycle at once: one warning, and no call to Drive, to the local files or to
    the SFTP server.  An id passed in that is blank but not empty is used as it
    is: the id of [settings] is not consulted. *)
Theorem blank_folder_id_skips :
  forall (E : Type) (EE : Env E) (cfg : settings.t) (fuel : nat) (self : watcher.Watcher)
         (d arch : option string) (s : St E),
    all_space (Py.or_else d (settings.DRIVE_FOLDER_ID cfg)) = true ->
    watcher.run_once cfg fuel self d arch s
    = (Ret tt, after s [EvLog WARNING "Watcher: Drive Folder ID is empty. Skipping." []]).
Proof.
  intros E EE cfg fuel self d arch s H. unfold watcher.run_once. cbv zeta.
  now rewrite (strip_ws_all_space _ H).
Qed.

Lemma blank_folder_id_skips_witness :
  let cfg := settings.mk "/tmp/sigma" "inbox" "Sigma_Archive" "" 22 "" 30 [] 0%Q in
  watcher.run_once cfg 5 Scenario.self (Some "  ") None (mkSt Scenario.two_files [])
  = (Ret tt, mkSt Scenario.two_files
               [EvLog WARNING "Watcher: Drive Folder ID is empty. Skipping." []]).
Proof.
  intros cfg.
  apply (blank_folder_id_skips Sim.t _ cfg 5 Scenario.self (Some "  ") None
           (mkSt Scenario.two_files [])).
  reflexivity.
Defined.

(** X10.  When [connect] raises, the cycle raises the same exception at once:
    nothing is uploaded, and no [close] is called on what [connect] had
    opened. *)
Theorem connect_failure_is_not_closed :
  forall (E : Type) (EE : Env E) (cfg : settings.t) (fuel : nat) (self : watcher.Watcher)
         (d arch : option string) (f : drive_handler.result)
         (files : list drive_handler.result) (s s0 s1 : St E) (x : exn),
    let folder_id := Py.strip_ws (Py.or_else d (settings.DRIVE_FOLDER_ID cfg)) in
    Py.truthy folder_id = true ->
    watcher.collect_phase cfg fuel self folder_id s = (Ret (f :: files), s0) ->
    sftp_handler.connect (watcher.make_handler cfg self) s0 = (Raise x, s1) ->
    watcher.run_once cfg fuel self d arch s = (Raise x, s1)
    /\ exists evs,
         trace s1 = (trace s0 ++ evs)%list
         /\ (forall c o, In (EvCall c o) evs ->
                tag c <> KSftpClose /\ tag c <> KTransportClose /\ tag c <> KPut).
Proof.
  intros E EE cfg fuel self d arch f files s s0 s1 x folder_id Hfolder Hcol Hconn.
  split.
  - rewrite (run_once_relays cfg fuel self d arch s s0 f files Hfolder Hcol).
    unfold watcher.relay_phase. now apply bind_Raise.
  - destruct (within_connect (watcher.make_handler cfg self) s0 _ _ Hconn) as [evs [Ht Hf]].
    exists evs. split; [exact Ht|]. intros c o Hin.
    rewrite Forall_forall in Hf. specialize (Hf _ Hin). cbn [only] in Hf.
    revert Hf. generalize (tag c). intros t Hf. unfold connect_tags in Hf.
    destruct (Py.truthy_opt (sftp_handler.key_file (watcher.make_handler cfg self)));
      cbn [In] in Hf;
      repeat (destruct Hf as [<-|Hf]; [repeat split; discriminate|]); contradiction.
Qed.

Lemma connect_failure_is_not_closed_witness :
  exists s1,
    watcher.run_once (Scenario.cfg [] 0%Q) 5 Scenario.self (Some "inbox") None
      (Mock.init (Mock.listing [Scenario.a_csv])
                 [None; None; None; None; Some (PyError "AuthenticationException" "denied")] [])
    = (Raise (PyError "AuthenticationException" "denied"), s1).
Proof.
  pose proof (fun f files s0 s1 x =>
                connect_failure_is_not_closed Mock.t _ (Scenario.cfg [] 0%Q) 5 Scenario.self
                  (Some "inbox") None f files
                  (Mock.init (Mock.listing [Scenario.a_csv])
                     [None; None; None; None;
                      Some (PyError "AuthenticationException" "denied")] [])
                  s0 s1 x) as T.
  edestruct T as [H _].
  - reflexivity.
  - vm_compute. reflexivity.
  - vm_compute. reflexivity.
  - eexists. exact H.
Defined.

(** X11.  A file whose upload raises is left as it is: its turn ends with the
    record of the failure, and before that only [stat], [mkdir] and [put] were
    called; nothing was asked of Drive (the file is not archived) and the temp
    copy was not removed. *)
Theorem failed_upload_keeps_file :
  forall (E : Type) (EE : Env E) (cfg : settings.t) (sftp : sftp_handler.SFTPHandler)
         (arch : option string) (f : drive_handler.result) (s s1 : St E) (x : exn),
    sftp_handler.upload_to_auto_dir sftp (drive_handler.r_path f) s = (Raise x, s1) ->
    watcher.relay_each cfg sftp arch [f] s
    = (Ret tt, after s1 [EvLog ERROR "Upload failed for {f['name']}: {e}"
                               [AStr (drive_handler.r_name f); AExn x]])
    /\ exists evs,
         trace s1 = (trace s ++ evs)%list /\ Forall (only [KStat; KMkdir; KPut]) evs.
Proof.
  intros E EE cfg sftp arch f s s1 x Hup. split.
  - cbn [watcher.relay_each]. unfold bind at 1.
    assert (Hone : watcher.relay_one cfg sftp arch f s = (Raise x, s1)).
    { unfold watcher.relay_one. now apply bind_Raise. }
    rewrite (try_except_Raise _ _ _ _ _ Hone), log_run. reflexivity.
  - exact (within_upload sftp (drive_handler.r_path f) s _ _ Hup).
Qed.

Lemma failed_upload_keeps_file_witness :
  let f := drive_handler.mkResult "id-a" "a.csv" "/tmp/sigma/a.csv" "OK" "" in
  exists s1,
    watcher.relay_each (Scenario.cfg [] 0%Q) (Scenario.bob None) None [f]
      (Mock.init Mock.no_answers
                 [None; None; None; None; Some (IOError None "Failure")] [])
    = (Ret tt, after s1 [EvLog ERROR "Upload failed for {f['name']}: {e}"
                               [AStr "a.csv"; AExn (IOError None "Failure")]]).
Proof.
  intros f.
  pose proof (fun s1 x =>
                failed_upload_keeps_file Mock.t _ (Scenario.cfg [] 0%Q) (Scenario.bob None)
                  None f
                  (Mock.init Mock.no_answers
                     [None; None; None; None; Some (IOError None "Failure")] [])
                  s1 x) as T.
  edestruct T as [H _].
  - vm_compute. reflexivity.
  - eexists. exact H.
Defined.

(** X12.  The temp copy goes even when the archive step fails: after an
    upload that returned, a [False] from [move_file_to_archive] is logged as a
    warning, and the local file is removed all the same. *)
Theorem temp_copy_removed_without_archive :
  forall (E : Type) (EE : Env E) (cfg : settings.t) (sftp : sftp_handler.SFTPHandler)
         (arch : option string) (f : drive_handler.result)
         (rest : list drive_handler.result) (s s1 s2 : St E) (e3 e4 : E),
    sftp_handler.upload_to_auto_dir sftp (drive_handler.r_path f) s = (Ret tt, s1) ->
    drive_handler.move_file_to_archive (drive_handler.r_id f)
      (Some (Py.or_else arch (settings.ARCHIVE_FOLDER_NAME cfg))) s1 = (Ret false, s2) ->
    perform (COsExists (drive_handler.r_path f)) (env s2) = (Ok true, e3) ->
    perform (COsRemove (drive_handler.r_path f)) e3 = (Ok tt, e4) ->
    watcher.relay_each cfg sftp arch (f :: rest) s
    = watcher.relay_each cfg sftp arch rest
        (mkSt e4 (trace s2 ++
           [EvLog WARNING "Drive: could not move '{f['name']}' to Archive."
                  [AStr (drive_handler.r_name f)];
            EvCall (COsExists (drive_handler.r_path f)) None;
            EvCall (COsRemove (drive_handler.r_path f)) None;
            EvLog INFO "Temp: removed {local_path}" [AStr (drive_handler.r_path f)]])%list).
Proof.
  intros E EE cfg sftp arch f rest s s1 s2 e3 e4 Hup Hmove Hex Hrm.
  cbn [watcher.relay_each]. unfold bind at 1.
  assert (Hone : watcher.relay_one cfg sftp arch f s
                 = (Ret tt, mkSt e4 (trace s2 ++
           [EvLog WARNING "Drive: could not move '{f['name']}' to Archive."
                  [AStr (drive_handler.r_name f)];
            EvCall (COsExists (drive_handler.r_path f)) None;
            EvCall (COsRemove (drive_handler.r_path f)) None;
            EvLog INFO "Temp: removed {local_path}" [AStr (drive_handler.r_path f)]])%list)).
  { unfold watcher.relay_one.
    rewrite (bind_Ret _ _ _ _ _ Hup), (bind_Ret _ _ _ _ _ Hmove).
    unfold bind at 1. rewrite log_run.
    unfold try_except, bind. unfold after at 1.
    rewrite (call_at _ _ _ _ _ Hex). cbn [res_of failure when].
    rewrite (call_at _ _ _ _ _ Hrm). cbn [res_of failure].
    rewrite log_run. unfold after. cbn [env trace].
    now repeat rewrite <- app_assoc. }
  now rewrite (try_except_Ret _ _ _ _ _ Hone).
Qed.

Lemma temp_copy_removed_without_archive_witness :
  let f := drive_handler.mkResult "id-z" "z.csv" "/tmp/sigma/z.csv" "OK" "" in
  exists s',
    watcher.relay_each (Scenario.cfg [] 0%Q) (Scenario.bob (Some "/home/bob")) None [f]
      (mkSt Scenario.orphan [])
    = (Ret tt, s')
    /\ Sim.local_files (env s') = []
    /\ Sim.sftp_files (env s') = [("/home/bob/catalog/z.csv", 10%N)].
Proof.
  intros f. eexists. split.
  - erewrite (temp_copy_removed_without_archive Sim.t _ (Scenario.cfg [] 0%Q)
                (Scenario.bob (Some "/home/bob")) None f [] (mkSt Scenario.orphan [])).
    + cbn [watcher.relay_each]. reflexivity.
    + vm_compute. reflexivity.
    + vm_compute. reflexivity.
    + vm_compute. reflexivity.
    + vm_compute. reflexivity.
  - split; vm_compute; reflexivity.
Defined.

Section RetryExhaustion.
Context {E : Type} {EE : Env E}.
Import drive_handler.

Lemma sleeps_app (a b : list Event) : sleeps (a ++ b) = (sleeps a ++ sleeps b)%list.
Proof.
  induction a as [|ev a IH]; [reflexivity|].
  destruct ev; simpl; now rewrite IH.
Qed.

Lemma calls_app (a b : list Event) : calls (a ++ b) = calls a + calls b.
Proof.
  induction a as [|ev a IH]; [reflexivity|].
  destruct ev; simpl; now rewrite IH.
Qed.

Lemma warnings_app (a b : list Event) : warnings (a ++ b) = warnings a + warnings b.
Proof.
  induction a as [|ev a IH]; [reflexivity|].
  destruct ev as [[] ? ?| |]; simpl; now rewrite IH.
Qed.

Lemma retry_warning_is_warning attempt retries x :
  warnings [retry_warning attempt retries x] = 1.
Proof. reflexivity. Qed.

(** A call that keeps failing is made once per attempt left, with a warning
    after each attempt and a sleep between two of them. *)
Lemma retry_loop_exhausts (c : Call) (Inv : E -> Prop) retries base :
  (forall e, Inv e -> exists x e', perform c e = (Fail x, e') /\ Inv e') ->
  forall remaining attempt last (s : St E),
    Inv (env s) -> attempt + remaining = retries ->
    exists x s' evs,
      retry_loop (call c) retries base attempt (S remaining) last s = (Raise x, s')
      /\ trace s' = (trace s ++ evs ++ [EvCall c (Some x); retry_warning retries retries x])%list
      /\ Inv (env s')
      /\ calls evs = remaining /\ warnings evs = remaining
      /\ sleeps evs = map (backoff base) (seq attempt remaining).
Proof.
  intros Hfail. induction remaining as [|r IH]; intros attempt last s Hinv Hsum.
  - destruct (Hfail _ Hinv) as [x [e' [Hc Hinv']]].
    pose proof (call_run c s _ _ Hc) as Hrun. cbn [res_of failure] in Hrun.
    assert (attempt = retries) by lia. subst attempt.
    exists x, (after (mkSt e' (trace s ++ [EvCall c (Some x)])%list)
                 [retry_warning retries retries x]), [].
    rewrite (retry_loop_fail_last _ _ _ _ _ _ _ _ Hrun).
    unfold after. cbn [env trace]. rewrite <- app_assoc. now repeat split.
  - destruct (Hfail _ Hinv) as [x [e' [Hc Hinv']]].
    pose proof (call_run c s _ _ Hc) as Hrun. cbn [res_of failure] in Hrun.
    assert (Hne : Nat.eqb attempt retries = false) by (apply Nat.eqb_neq; lia).
    rewrite (retry_loop_fail_more _ _ _ _ _ _ _ _ _ Hrun Hne).
    destruct (IH (S attempt) (Some x)
                 (after (mkSt e' (trace s ++ [EvCall c (Some x)])%list)
                    [retry_warning attempt retries x; EvSleep (backoff base attempt)]))
      as [y [s' [evs [Hr [Ht [Hi [Hcalls [Hw Hs]]]]]]]]; [exact Hinv' | lia |].
    exists y, s', ([EvCall c (Some x); retry_warning attempt retries x;
                    EvSleep (backoff base attempt)] ++ evs)%list.
    split; [exact Hr|]. split; [|split; [exact Hi|]].
    + rewrite Ht. unfold after. cbn [env trace]. now repeat rewrite <- app_assoc.
    + rewrite calls_app, warnings_app, sleeps_app, Hcalls, Hw, Hs.
      unfold retry_warning at 1. simpl. repeat split.
Qed.

End RetryExhaustion.

(** X13.  [_retry] gives up after exactly [retries] attempts.  For delays
    that [time.sleep] takes ([base_sleep] not negative, the longest delay not
    above [MAX_SLEEP]) and at most 1025 attempts (beyond, [2 ** (attempt - 1)]
    is no float): when the call fails every time, it is made [retries] times,
    each failure is logged as a warning, the sleeps between attempts are
    [base_sleep * 2^(k-1)] for [k = 1 .. retries - 1] (none after the last
    attempt), and the exception of the last attempt is raised.  With
    [retries = 0] the function is not called at all and [raise last_exc]
    raises a TypeError. *)
Theorem retry_gives_up :
  forall (E : Type) (EE : Env E) (c : Call) (Inv : E -> Prop) (n : nat) (base_sleep : Q)
         (s : St E),
    n <= 1024 ->
    (0 <= base_sleep)%Q ->
    (drive_handler.backoff base_sleep n <= MAX_SLEEP)%Q ->
    (forall e, Inv e -> exists x e', perform c e = (Fail x, e') /\ Inv e') ->
    Inv (env s) ->
    (exists x s' evs,
        drive_handler._retry (call c) (S n) base_sleep s = (Raise x, s')
        /\ trace s' = (trace s ++ evs)%list
        /\ calls evs = S n
        /\ warnings evs = S n
        /\ sleeps evs = map (drive_handler.backoff base_sleep) (seq 1 n)
        /\ exists evs', evs = (evs' ++ [EvCall c (Some x);
                                        drive_handler.retry_warning (S n) (S n) x])%list)
    /\ (forall (A : Type) (func : M E A),
           drive_handler._retry func 0 base_sleep s
           = (Raise (PyError "TypeError" "exceptions must derive from BaseException"), s)).
Proof.
  intros E EE c Inv n base s _ _ _ Hfail Hinv. split; [|reflexivity].
  destruct (retry_loop_exhausts c Inv (S n) base Hfail n 1 None s Hinv eq_refl)
    as [x [s' [evs [Hr [Ht [_ [Hc [Hw Hs]]]]]]]].
  exists x, s', (evs ++ [EvCall c (Some x); drive_handler.retry_warning (S n) (S n) x])%list.
  split; [exact Hr|]. split; [exact Ht|].
  rewrite calls_app, warnings_app, sleeps_app, Hc, Hw, Hs. simpl.
  repeat split; try lia.
  - now rewrite app_nil_r.
  - now exists evs.
Qed.

Lemma retry_gives_up_witness :
  exists x s' evs,
    drive_handler._retry (call (CDriveGet "id-z" "id, name, parents")) 4 (1 # 2)%Q
      (mkSt Scenario.orphan []) = (Raise x, s')
    /\ trace s' = evs
    /\ calls evs = 4
    /\ sleeps evs = [(1 # 2) * 1; (1 # 2) * 2; (1 # 2) * 4]%Q.
Proof.
  destruct (retry_gives_up Sim.t _ (CDriveGet "id-z" "id, name, parents")
              (fun e => e = Scenario.orphan) 3 (1 # 2)%Q (mkSt Scenario.orphan []))
    as [[x [s' [evs [Hr [Ht [Hc [_ [Hs _]]]]]]]] _].
  - lia.
  - discriminate.
  - vm_compute. discriminate.
  - intros e ->. eexists _, _. split; reflexivity.
  - reflexivity.
  - exists x, s', evs. repeat split; trivial.
Defined.

Section DownloadFacts.
Context {E : Type} {EE : Env E}.
Import drive_handler.

Lemma nodiv_download_file f dest chunk :
  nodiv (download_file_to_path f dest chunk : M E string).
Proof. unfold download_file_to_path, _ensure_dir, _do_download. repeat nodiv_step. Qed.

Lemma nodiv_delete_file fid : nodiv (delete_file fid : M E unit).
Proof. unfold delete_file. repeat nodiv_step. Qed.

(** The [try] of one file of [download_all_from_folder] always adds one
    result, OK or ERROR. *)
Lemma download_one_result (f : FileMeta) dest_path (del : bool) results (s : St E) :
  exists st msg s1,
    try_except
      (download_file_to_path f dest_path DEFAULT_CHUNK_SIZE ;;
       when del (delete_file (fm_id f)) ;;
       ret (results ++ [mkResult (fm_id f) (fm_name f) dest_path "OK" ""])%list)
      (fun e =>
         log ERROR "Failed to handle file {fname} ({fid}): {e}"
             [AStr (fm_name f); AStr (fm_id f); AExn e] ;;
         ret (results ++ [mkResult (fm_id f) (fm_name f) dest_path "ERROR" (exn_str e)])%list)
      s
    = (Ret (results ++ [mkResult (fm_id f) (fm_name f) dest_path st msg])%list, s1)
    /\ (st = "OK" \/ st = "ERROR").
Proof.
  unfold try_except.
  match goal with |- context [match ?m s with _ => _ end] =>
    assert (Hnd : nodiv m)
      by (apply nodiv_bind; [apply nodiv_download_file | intros ?];
          apply nodiv_bind; [apply nodiv_when, nodiv_delete_file | intros ?];
          apply safe_nodiv, safe_ret);
    specialize (Hnd s); destruct (m s) as [[v|x|] s1] eqn:Hm
  end.
  - apply bind_inv_Ret in Hm as [p [s2 [_ Hm]]].
    apply bind_inv_Ret in Hm as [u [s3 [_ Hm]]].
    inversion Hm. subst. exists "OK", "", s1. split; [reflexivity | now left].
  - unfold bind. rewrite log_run. eexists "ERROR", _, _. split; [reflexivity | now right].
  - now elim Hnd.
Qed.

Lemma download_each_results dest (del : bool) prefix files : forall results (s : St E),
  exists more s',
    download_each files dest del prefix results s = (Ret (results ++ more)%list, s')
    /\ Forall2 (fun f r => r_id r = fm_id f /\ r_name r = fm_name f
                           /\ r_path r = Py.path_join dest (Py.replace "/" "_" (fm_name f))
                           /\ (r_status r = "OK" \/ r_status r = "ERROR"))
               (filter (fun f => kept prefix (fm_name f)) files) more.
Proof.
  induction files as [|f files IH]; intros results s; cbn [download_each filter].
  - exists [], s. rewrite app_nil_r. split; [reflexivity | constructor].
  - cbv zeta.
    assert (Hk : kept prefix (fm_name f)
                 = negb match prefix with
                        | Some p => Py.truthy p && negb (Py.startswith (fm_name f) p)
                        | None => false
                        end) by (now destruct prefix).
    rewrite Hk.
    destruct (match prefix with
              | Some p => Py.truthy p && negb (Py.startswith (fm_name f) p)
              | None => false
              end); cbn [negb].
    + unfold bind at 1. rewrite log_run. apply IH.
    + destruct (download_one_result f (Py.path_join dest (Py.replace "/" "_" (fm_name f)))
                  del results s) as [st [msg [s1 [Hone Hst]]]].
      rewrite (bind_Ret _ _ _ _ _ Hone).
      destruct (IH (results ++ [mkResult (fm_id f) (fm_name f)
                                  (Py.path_join dest (Py.replace "/" "_" (fm_name f)))
                                  st msg])%list s1) as [more [s' [Hrest Hall]]].
      eexists (_ :: more), s'. split.
      * rewrite Hrest, <- app_assoc. reflexivity.
      * constructor; [|exact Hall]. cbn. repeat split; trivial.
Qed.

End DownloadFacts.

(** X14.  Once the listing has returned, [download_all_from_folder] returns:
    no failure of a download or of a deletion leaves it.  Its results are one
    per listed file whose name passes the prefix test, in the order of the
    listing, each with the id and the name of its file, the status OK or
    ERROR, and the path [dest_dir] joined with the name, slashes replaced by
    underscores. *)
Theorem download_one_result_per_file :
  forall (E : Type) (EE : Env E) (fuel : nat) (folder_id dest_dir : string)
         (del : bool) (prefix : option string) (files : list FileMeta) (s s1 : St E),
    drive_handler.list_files_in_folder fuel folder_id 100 None s = (Ret files, s1) ->
    exists results s',
      drive_handler.download_all_from_folder fuel folder_id dest_dir del prefix s
      = (Ret results, s')
      /\ Forall2 (fun f r =>
                    drive_handler.r_id r = fm_id f
                    /\ drive_handler.r_name r = fm_name f
                    /\ drive_handler.r_path r
                       = Py.path_join dest_dir (Py.replace "/" "_" (fm_name f))
                    /\ (drive_handler.r_status r = "OK"
                        \/ drive_handler.r_status r = "ERROR"))
                 (filter (fun f => kept prefix (fm_name f)) files) results.
Proof.
  intros E EE fuel folder_id dest del prefix files s s1 Hlist.
  destruct (download_each_results dest del prefix files [] s1) as [more [s' [H Hall]]].
  exists more, s'. split; [|exact Hall].
  unfold drive_handler.download_all_from_folder. now rewrite (bind_Ret _ _ _ _ _ Hlist).
Qed.

Lemma download_one_result_per_file_witness :
  exists results s',
    drive_handler.download_all_from_folder 5 "inbox" "/tmp/sigma" false (Some "a")
      (mkSt Scenario.two_files [])
    = (Ret results, s')
    /\ map drive_handler.r_path results = ["/tmp/sigma/a.csv"].
Proof.
  pose proof (fun files s1 =>
                download_one_result_per_file Sim.t _ 5 "inbox" "/tmp/sigma" false (Some "a")
                  files (mkSt Scenario.two_files []) s1) as T.
  edestruct T as [results [s' [H Hall]]].
  - vm_compute. reflexivity.
  - exists results, s'. split; [exact H|].
    cbn in Hall. inversion Hall as [|f r fs rs [_ [_ [Hp _]]] Hrest]; subst.
    inversion Hrest; subst. cbn. now rewrite Hp.
Defined.

(** X15.  With [delete_after_download], a file whose download raises is not
    deleted from Drive: its turn ends with an ERROR result that carries the
    text of the exception, and the only calls made for it are the creation of
    the temp directory and the download attempts. *)
Theorem failed_download_is_not_deleted :
  forall (E : Type) (EE : Env E) (f : FileMeta) (files : list FileMeta)
         (dest_dir : string) (prefix : option string)
         (results : list drive_handler.result) (s s1 : St E) (x : exn),
    let dest_path := Py.path_join dest_dir (Py.replace "/" "_" (fm_name f)) in
    kept prefix (fm_name f) = true ->
    drive_handler.download_file_to_path f dest_path drive_handler.DEFAULT_CHUNK_SIZE s
    = (Raise x, s1) ->
    drive_handler.download_each (f :: files) dest_dir true prefix results s
    = drive_handler.download_each files dest_dir true prefix
        (results ++ [drive_handler.mkResult (fm_id f) (fm_name f) dest_path "ERROR"
                       (drive_handler.exn_str x)])%list
        (after s1 [EvLog ERROR "Failed to handle file {fname} ({fid}): {e}"
                         [AStr (fm_name f); AStr (fm_id f); AExn x]])
    /\ exists evs,
         trace s1 = (trace s ++ evs)%list
         /\ Forall (only [KOsMakedirs; KDownload]) evs.
Proof.
  intros E EE f files dest prefix results s s1 x dest_path Hk Hdl. split.
  - cbn [drive_handler.download_each]. cbv zeta.
    assert (Hs : match prefix with
                 | Some p => Py.truthy p && negb (Py.startswith (fm_name f) p)
                 | None => false
                 end = false).
    { destruct prefix; [|reflexivity]. unfold kept in Hk. now apply negb_true_iff in Hk. }
    rewrite Hs. fold dest_path. unfold bind at 1.
    match goal with |- context [try_except ?m ?h s] =>
      assert (Hm : m s = (Raise x, s1)) by (now apply bind_Raise);
      rewrite (try_except_Raise m h _ _ _ Hm)
    end.
    unfold bind at 1. now rewrite log_run.
  - exact (within_download_file f dest_path _ s _ _ Hdl).
Qed.

Lemma failed_download_is_not_deleted_witness :
  let gone := mkFileMeta "id-z" "z.csv" "text/csv" in
  exists x s1 results s',
    drive_handler.download_each [gone] "/tmp/sigma" true None [] (mkSt Scenario.orphan [])
    = (Ret results, s')
    /\ results = [drive_handler.mkResult "id-z" "z.csv" "/tmp/sigma/z.csv" "ERROR"
                    (drive_handler.exn_str x)]
    /\ s' = after s1 [EvLog ERROR "Failed to handle file {fname} ({fid}): {e}"
                            [AStr "z.csv"; AStr "id-z"; AExn x]].
Proof.
  intros gone.
  pose proof (fun s1 x =>
                failed_download_is_not_deleted Sim.t _ gone [] "/tmp/sigma" None []
                  (mkSt Scenario.orphan []) s1 x) as T.
  edestruct T as [H _].
  - reflexivity.
  - vm_compute. reflexivity.
  - eexists _, _, _, _. split; [exact H|]. split; reflexivity.
Defined.
Section UploadFacts.
Context {E : Type} {EE : Env E}.
Import drive_handler sftp_handler.

Lemma uploads_app (a b : list Event) : uploads (a ++ b) = (uploads a ++ uploads b)%list.
Proof.
  induction a as [|ev a IH]; [reflexivity|].
  destruct ev as [| |c o]; simpl; try exact IH.
  destruct c; simpl; try exact IH. now rewrite IH.
Qed.

Lemma no_put_no_uploads tags (evs : list Event) :
  ~ In KPut tags -> Forall (only tags) evs -> uploads evs = [].
Proof.
  intros Hno. induction 1 as [|ev evs Hev _ IH]; [reflexivity|].
  destruct ev as [| |c o]; simpl; try exact IH.
  destruct c; simpl; try exact IH. simpl in Hev. contradiction.
Qed.

Lemma get_auto_remote_dir_run (self : SFTPHandler) (s : St E) :
  exists dir fmt args, get_auto_remote_dir self s = (Ret dir, after s [EvLog INFO fmt args]).
Proof.
  unfold get_auto_remote_dir.
  destruct (_home self) as [h|]; [destruct (Py.truthy h)|];
    unfold bind; rewrite log_run; eexists _, _, _; reflexivity.
Qed.

Lemma nodiv_makedirs remote_dir : nodiv (makedirs remote_dir : M E unit).
Proof.
  unfold makedirs. apply nodiv_if; [apply safe_nodiv, safe_ret | apply nodiv_makedirs_loop].
Qed.

(** One [put] at most, and to the auto directory, under the base name of the
    local file. *)
Lemma upload_puts_once (self : SFTPHandler) local_path (s : St E) :
  exists dir evs,
    fst (get_auto_remote_dir self s) = Ret dir
    /\ trace (snd (upload_to_auto_dir self local_path s)) = (trace s ++ evs)%list
    /\ match fst (upload_to_auto_dir self local_path s) with
       | Ret _ => uploads evs
                  = [(local_path, Py.rstrip "/" dir ++ "/" ++ Py.basename local_path, None)]
       | Raise x => uploads evs = []
                    \/ uploads evs
                       = [(local_path, Py.rstrip "/" dir ++ "/" ++ Py.basename local_path,
                           Some x)]
       | Diverged => False
       end.
Proof.
  destruct (get_auto_remote_dir_run self s) as [dir [fmt [args Hdir]]].
  set (ev := EvLog INFO fmt args) in *.
  assert (Hev : uploads [ev] = []) by reflexivity.
  exists dir. rewrite Hdir.
  destruct (upload_to_auto_dir self local_path s) as [r s'] eqn:Hrun. cbn [fst snd].
  unfold upload_to_auto_dir in Hrun. rewrite (bind_Ret _ _ _ _ _ Hdir) in Hrun.
  cbv zeta in Hrun.
  set (target := Py.rstrip "/" dir ++ "/" ++ Py.basename local_path) in *.
  set (cond := Py.truthy (Py.dirname target) && negb (Py.mem (Py.dirname target) ["."; "/"]))
    in *.
  unfold bind at 1 in Hrun.
  assert (Hw : within [KStat; KMkdir] (when cond (makedirs (Py.dirname target)) : M E unit))
    by (apply within_when, within_makedirs).
  assert (Hn : nodiv (when cond (makedirs (Py.dirname target)) : M E unit))
    by (apply nodiv_when, nodiv_makedirs).
  specialize (Hn (after s [ev])).
  destruct (when cond (makedirs (Py.dirname target)) (after s [ev])) as [[[]|x|] s1] eqn:Hmk;
    [| |now elim Hn];
    destruct (Hw _ _ _ Hmk) as [evs1 [Ht1 Hf1]];
    assert (Hu1 : uploads evs1 = [])
      by (apply (no_put_no_uploads [KStat; KMkdir]); [simpl; intuition discriminate | exact Hf1]);
    cbn [after trace] in Ht1.
  - unfold bind at 1 in Hrun. rewrite log_run in Hrun. unfold bind at 1 in Hrun.
    unfold call at 1 in Hrun. cbn [env trace after] in Hrun.
    destruct (perform (CSftpPut local_path target) (env s1)) as [[[]|x] e2];
      cbn [res_of failure] in Hrun; [rewrite log_run in Hrun|];
      inversion Hrun; subst r s'; cbn [after trace]; rewrite Ht1;
      eexists; (split; [reflexivity|]);
      (split; [repeat rewrite <- app_assoc; reflexivity|]);
      [|right]; repeat rewrite uploads_app; rewrite Hu1, Hev; reflexivity.
  - inversion Hrun; subst r s'. rewrite Ht1.
    eexists. split; [reflexivity|]. split; [repeat rewrite <- app_assoc; reflexivity|].
    left. repeat rewrite uploads_app. now rewrite Hu1, Hev.
Qed.

End UploadFacts.
(** X16.  [upload_to_auto_dir] makes one [put] at most, and never to another
    place than the auto directory (its trailing slashes stripped) followed by
    a slash and the base name of the local file.  When it returns, the [put]
    was made and returned; when it raises, either no [put] was made (creating
    the directories was refused) or the exception is that of the [put]. *)
Theorem upload_goes_to_auto_dir :
  forall (E : Type) (EE : Env E) (self : sftp_handler.SFTPHandler) (local_path : string)
         (s : St E),
  exists dir evs,
    fst (sftp_handler.get_auto_remote_dir self s) = Ret dir
    /\ trace (snd (sftp_handler.upload_to_auto_dir self local_path s)) = (trace s ++ evs)%list
    /\ match fst (sftp_handler.upload_to_auto_dir self local_path s) with
       | Ret _ => uploads evs
                  = [(local_path, Py.rstrip "/" dir ++ "/" ++ Py.basename local_path, None)]
       | Raise x => uploads evs = []
                    \/ uploads evs
                       = [(local_path, Py.rstrip "/" dir ++ "/" ++ Py.basename local_path,
                           Some x)]
       | Diverged => False
       end.
Proof. intros. apply upload_puts_once. Qed.

Section TempNames.

Lemma replace_slash_no_slash (s : string) : has_char "/" (Py.replace "/" "_" s) = false.
Proof.
  induction s as [|a s IH]; [reflexivity|].
  simpl. rewrite IH, orb_false_r. destruct (Ascii.eqb a "/") eqn:Ha; [reflexivity | exact Ha].
Qed.

Lemma no_slash_not_absolute (s : string) :
  has_char "/" s = false -> Py.startswith s "/" = false.
Proof.
  destruct s as [|a s]; [reflexivity|]. cbn [has_char]. intros H.
  apply orb_false_iff in H as [Ha _]. unfold Py.startswith. cbn [String.prefix].
  destruct (Ascii.ascii_dec "/" a) as [<-|Hne]; [|reflexivity].
  rewrite Ascii.eqb_refl in Ha. discriminate Ha.
Qed.

Lemma truthy_snoc (a b : string) : Py.truthy (a ++ String "/" b) = true.
Proof. now destruct a. Qed.

Lemma rsplit_slash_app (a b : string) :
  has_char "/" b = false -> Py.rsplit_slash (a ++ String "/" b) = (a ++ "/", b).
Proof.
  intros Hb. induction a as [|c a IH].
  - simpl. now rewrite (rsplit_slash_no_slash b Hb).
  - change ((String c a) ++ String "/" b) with (String c (a ++ String "/" b)).
    cbn [Py.rsplit_slash]. rewrite IH.
    change (a ++ "/") with (a ++ String "/" ""). now rewrite truthy_snoc.
Qed.

Lemma endswith_char_snoc (a : string) (c : ascii) :
  Py.endswith_char a c = true -> exists a0, a = a0 ++ String c "".
Proof.
  induction a as [|x a IH]; [discriminate|]. intros H.
  destruct a as [|y a].
  - simpl in H. apply Ascii.eqb_eq in H. subst x. now exists "".
  - destruct (IH H) as [a0 Ha0]. exists (String x a0). simpl. now rewrite <- Ha0.
Qed.

Lemma rsplit_slash_join (dest safe : string) :
  has_char "/" safe = false ->
  Py.rsplit_slash (Py.path_join dest safe)
  = ((if negb (Py.truthy dest) || Py.endswith_char dest "/" then dest else dest ++ "/"),
     safe).
Proof.
  intros Hs. unfold Py.path_join. rewrite (no_slash_not_absolute safe Hs).
  destruct dest as [|c dest].
  - simpl. apply rsplit_slash_no_slash, Hs.
  - cbn [Py.truthy negb orb].
    destruct (Py.endswith_char (String c dest) "/") eqn:He.
    + destruct (endswith_char_snoc _ _ He) as [a0 Ha0]. rewrite Ha0.
      rewrite append_assoc. change (String "/" "" ++ safe) with (String "/" safe).
      now rewrite rsplit_slash_app.
    + change (String c dest ++ "/" ++ safe) with (String c dest ++ String "/" safe).
      now rewrite rsplit_slash_app.
Qed.

End TempNames.

(** X17.  The name a Drive file travels under.  Its temp copy sits directly
    in [dest_dir]: the file name used is the Drive name with every slash
    replaced by an underscore, so it has no slash, and joining it to
    [dest_dir] adds one path component.  The upload of that temp copy is
    addressed to the auto directory plus that same name. *)
Theorem drive_name_decides_remote_name :
  forall (E : Type) (EE : Env E) (self : sftp_handler.SFTPHandler)
         (dest_dir name : string) (s : St E),
    let safe_name := Py.replace "/" "_" name in
    let local_path := Py.path_join dest_dir safe_name in
    has_char "/" safe_name = false
    /\ Py.rsplit_slash local_path
       = ((if negb (Py.truthy dest_dir) || Py.endswith_char dest_dir "/"
           then dest_dir else dest_dir ++ "/"), safe_name)
    /\ exists dir evs,
         fst (sftp_handler.get_auto_remote_dir self s) = Ret dir
         /\ trace (snd (sftp_handler.upload_to_auto_dir self local_path s))
            = (trace s ++ evs)%list
         /\ Forall (fun u => u = (local_path, Py.rstrip "/" dir ++ "/" ++ safe_name, snd u))
                   (uploads evs).
Proof.
  intros E EE self dest name s safe_name local_path.
  pose proof (replace_slash_no_slash name) as Hs. fold safe_name in Hs.
  pose proof (rsplit_slash_join dest safe_name Hs) as Hr. fold local_path in Hr.
  split; [exact Hs | split; [exact Hr|]].
  destruct (upload_puts_once self local_path s) as [dir [evs [Hd [Ht Hu]]]].
  exists dir, evs. split; [exact Hd | split; [exact Ht|]].
  unfold Py.basename in Hu. rewrite Hr in Hu. cbn [snd] in Hu.
  destruct (fst (sftp_handler.upload_to_auto_dir self local_path s)) as [[]|x|].
  - rewrite Hu. now repeat constructor.
  - destruct Hu as [Hu|Hu]; rewrite Hu; now repeat constructor.
  - contradiction.
Qed.

Section RelayUploads.
Context {E : Type} {EE : Env E}.
Context (cfg : settings.t).
Import drive_handler sftp_handler watcher.

Lemma uploaded_from_app (a b : list Event) :
  uploaded_from (a ++ b) = (uploaded_from a ++ uploaded_from b)%list.
Proof. unfold uploaded_from. now rewrite uploads_app, map_app. Qed.

Lemma subseq_app {A} (a b c d : list A) :
  subseq a b -> subseq c d -> subseq (a ++ c) (b ++ d).
Proof.
  induction 1 as [|x l l' _ IH|x l l' _ IH]; simpl; intros Hcd;
    [exact Hcd | apply subseq_skip | apply subseq_keep]; exact (IH Hcd).
Qed.

(** The relay of one file attempts one upload at most, that of its temp
    copy. *)
Lemma relay_one_uploads sftp arch f (s : St E) r s' :
  relay_one cfg sftp arch f s = (r, s') ->
  exists evs,
    trace s' = (trace s ++ evs)%list /\ subseq (uploaded_from evs) [r_path f].
Proof.
  intros H. unfold relay_one in H. cbv zeta in H. unfold bind at 1 in H.
  destruct (upload_puts_once sftp (r_path f) s) as [dir [evs [_ [Ht Hu]]]].
  destruct (upload_to_auto_dir sftp (r_path f) s) as [[[]|x|] s1]; cbn [fst snd] in *.
  - match type of H with ?m s1 = _ =>
      assert (Hw : within [KList; KCreate; KGet; KUpdate; KOsExists; KOsRemove] m)
    end.
    { within_step.
      - eapply within_mono; [|apply within_move]. sub_tags.
      - repeat within_step. }
    destruct (Hw _ _ _ H) as [evs2 [Ht2 Hf2]].
    exists (evs ++ evs2)%list. split; [now rewrite Ht2, Ht, app_assoc|].
    rewrite uploaded_from_app. unfold uploaded_from at 2.
    assert (Hno : ~ In KPut [KList; KCreate; KGet; KUpdate; KOsExists; KOsRemove])
      by (simpl; intuition discriminate).
    rewrite (no_put_no_uploads _ evs2 Hno Hf2).
    unfold uploaded_from. rewrite Hu. cbn. apply subseq_refl.
  - inversion H; subst. exists evs. split; [exact Ht|].
    unfold uploaded_from. destruct Hu as [Hu|Hu]; rewrite Hu; cbn;
      [apply subseq_nil_l | apply subseq_refl].
  - contradiction.
Qed.

Lemma relay_each_uploads sftp arch files : forall (s : St E) r s',
  relay_each cfg sftp arch files s = (r, s') ->
  exists evs,
    trace s' = (trace s ++ evs)%list
    /\ subseq (uploaded_from evs) (map r_path files).
Proof.
  induction files as [|f files IH]; intros s r s' H; cbn [relay_each] in H.
  - inversion H; subst. exists []. rewrite app_nil_r. split; [reflexivity | constructor].
  - unfold bind at 1 in H. unfold try_except in H.
    destruct (relay_one cfg sftp arch f s) as [[[]|x|] s1] eqn:Hone;
      destruct (relay_one_uploads _ _ _ _ _ _ Hone) as [evs1 [Ht1 Hs1]].
    + destruct (IH _ _ _ H) as [evs2 [Ht2 Hs2]].
      exists (evs1 ++ evs2)%list. split; [now rewrite Ht2, Ht1, app_assoc|].
      rewrite uploaded_from_app. exact (subseq_app _ _ _ _ Hs1 Hs2).
    + rewrite log_run in H. destruct (IH _ _ _ H) as [evs2 [Ht2 Hs2]].
      eexists ((evs1 ++ [_]) ++ evs2)%list. split.
      * rewrite Ht2. cbn [after trace]. rewrite Ht1. now repeat rewrite <- app_assoc.
      * repeat rewrite uploaded_from_app. cbn. rewrite app_nil_r.
        exact (subseq_app _ _ _ _ Hs1 Hs2).
    + inversion H; subst. exists evs1. split; [exact Ht1|].
      rewrite <- (app_nil_r (uploaded_from evs1)).
      change (map r_path (f :: files)) with ([r_path f] ++ map r_path files)%list.
      apply subseq_app; [exact Hs1 | apply subseq_nil_l].
Qed.

End RelayUploads.

(** X18.  No file is uploaded twice in a cycle, and nothing is uploaded but
    the temp copies of the eligible files: the local paths of the [put] calls
    of the second loop of [run_once] are paths of [files_ok], in the order of
    [files_ok], each at most once per entry. *)
Theorem uploads_follow_eligible_files :
  forall (E : Type) (EE : Env E) (cfg : settings.t) (sftp : sftp_handler.SFTPHandler)
         (arch : option string) (files_ok : list drive_handler.result) (s : St E),
  exists evs,
    trace (snd (watcher.relay_each cfg sftp arch files_ok s)) = (trace s ++ evs)%list
    /\ subseq (uploaded_from evs) (map drive_handler.r_path files_ok).
Proof.
  intros E EE cfg sftp arch files s.
  destruct (watcher.relay_each cfg sftp arch files s) as [r s'] eqn:H.
  exact (relay_each_uploads cfg sftp arch files s r s' H).
Qed.
(** X19.  [close] closes the transport whatever the SFTP client does: when
    [sftp.close()] raises, [transport.close()] is still called, the exception
    leaves [close] and the record of the disconnection is not written; an
    exception of [transport.close()] takes its place.  A handler that never
    connected makes no call. *)
Theorem close_always_closes_transport :
  forall (E : Type) (EE : Env E) (self : sftp_handler.SFTPHandler) (s : St E),
    (sftp_handler._sftp self = false -> sftp_handler._transport self = false ->
     sftp_handler.close self s = (Ret tt, after s [EvLog INFO "SFTP: disconnected." []]))
    /\ (sftp_handler._sftp self = true -> sftp_handler._transport self = true ->
        forall x e1,
          perform CSftpClose (env s) = (Fail x, e1) ->
          (forall e2,
              perform CTransportClose e1 = (Ok tt, e2) ->
              sftp_handler.close self s
              = (Raise x, mkSt e2 (trace s ++ [EvCall CSftpClose (Some x);
                                               EvCall CTransportClose None])%list))
          /\ (forall y e2,
                 perform CTransportClose e1 = (Fail y, e2) ->
                 sftp_handler.close self s
                 = (Raise y, mkSt e2 (trace s ++ [EvCall CSftpClose (Some x);
                                                  EvCall CTransportClose (Some y)])%list))).
Proof.
  intros E EE self s. split.
  - intros Hs Ht. unfold sftp_handler.close. rewrite Hs, Ht. reflexivity.
  - intros Hs Ht x e1 Hc. unfold sftp_handler.close. rewrite Hs, Ht. cbn [when].
    unfold bind, try_finally. rewrite (call_run _ _ _ _ Hc). cbn [res_of failure].
    split.
    + intros e2 H2. rewrite (call_at _ _ _ _ _ H2). cbn [res_of failure].
      now rewrite <- app_assoc.
    + intros y e2 H2. rewrite (call_at _ _ _ _ _ H2). cbn [res_of failure].
      now rewrite <- app_assoc.
Qed.

Lemma close_always_closes_transport_witness :
  let x := PyError "EOFError" "" in
  sftp_handler.close (sftp_handler.new "sftp.example" 22 "bob" None None)
    (Mock.init Mock.no_answers [] [])
  = (Ret tt, after (Mock.init Mock.no_answers [] []) [EvLog INFO "SFTP: disconnected." []])
  /\ sftp_handler.close (Scenario.bob None) (Mock.init Mock.no_answers [Some x; None] [])
     = (Raise x, mkSt (Mock.mk Mock.no_answers [] [])
                      [EvCall CSftpClose (Some x); EvCall CTransportClose None]).
Proof.
  intros x. split.
  - apply (close_always_closes_transport Mock.t _
             (sftp_handler.new "sftp.example" 22 "bob" None None)
             (Mock.init Mock.no_answers [] [])); reflexivity.
  - eapply (close_always_closes_transport Mock.t _ (Scenario.bob None)
              (Mock.init Mock.no_answers [Some x; None] [])); reflexivity.
Defined.

Section NoFlag.
Context {E : Type} {EE : Env E}.
Context (cfg : settings.t).
Import watcher.

(** Without a stop flag the sleep is [n] whole seconds. *)
Lemma sleep_loop_no_flag n : forall s : St E,
  sleep_loop false n s = (Ret tt, after s (repeat (EvSleep 1%Q) n)).
Proof.
  induction n as [|n IH]; intros s; cbn [sleep_loop repeat].
  - now rewrite after_nil.
  - unfold check_stop, bind, ret, sleep. rewrite emit_run, IH, after_after. reflexivity.
Qed.

Lemma main_loop_no_flag list_fuel self d interval : forall fuel (s : St E),
  fst (main_loop cfg fuel list_fuel self d false interval s) = Diverged.
Proof.
  induction fuel as [|fuel IH]; intros s; [reflexivity|].
  cbn [main_loop]. unfold check_stop. unfold bind at 1. unfold ret at 1.
  unfold bind at 1. unfold try_except.
  destruct (run_once cfg list_fuel self d None s) as [[[]|x|] s1]; [| |reflexivity].
  - unfold bind at 1. rewrite sleep_loop_no_flag. apply IH.
  - rewrite log_run. unfold bind at 1. rewrite sleep_loop_no_flag. apply IH.
Qed.

End NoFlag.

(** X20.  Started without a stop flag, the loop has no way out: whatever
    the cycles do, and however many of them are allowed, [start_loop] does not
    return and does not raise.  Between two cycles it then sleeps [n] times
    one second for an interval of [n]. *)
Theorem loop_without_flag_never_returns :
  forall (E : Type) (EE : Env E) (cfg : settings.t) (fuel list_fuel : nat)
         (self : watcher.Watcher) (d : option string) (p : option Z) (s : St E),
    fst (watcher.start_loop cfg fuel list_fuel self d false p s) = Diverged
    /\ forall n s', watcher.sleep_loop false n s' = (Ret tt, after s' (repeat (EvSleep 1%Q) n)).
Proof.
  intros E EE cfg fuel list_fuel self d p s. split; [|intros n s'; apply sleep_loop_no_flag].
  unfold watcher.start_loop. cbv zeta. unfold bind at 1. rewrite log_run.
  unfold bind at 1.
  pose proof (main_loop_no_flag cfg list_fuel self d (watcher.interval_of cfg p) fuel
                (after s [EvLog INFO "Watcher: loop started." []])) as H.
  destruct (watcher.main_loop cfg fuel list_fuel self d false (watcher.interval_of cfg p)
              (after s [EvLog INFO "Watcher: loop started." []])) as [[[]|x|] s1];
    try discriminate H. reflexivity.
Qed.

(** X21.  The poll interval: an interval of 0 (or none) passed in falls back
    to the one of [settings], and that one to 30, so the interval is never 0;
    a negative interval is taken as it is, and the loop then goes from one
    cycle to the next without sleeping and without polling the stop flag in
    between. *)
Theorem poll_interval_fallback :
  forall (E : Type) (EE : Env E) (cfg : settings.t) (p : option Z),
    watcher.interval_of cfg p <> 0%Z
    /\ (forall z, p = Some z -> z <> 0%Z -> watcher.interval_of cfg p = z)
    /\ ((p = None \/ p = Some 0%Z) ->
        watcher.interval_of cfg p
        = if Z.eqb (settings.POLL_INTERVAL cfg) 0 then 30%Z else settings.POLL_INTERVAL cfg)
    /\ (forall (stop_flag : bool) (s : St E),
           (watcher.interval_of cfg p < 0)%Z ->
           watcher.sleep_loop stop_flag (Z.to_nat (watcher.interval_of cfg p)) s = (Ret tt, s)).
Proof.
  intros E EE cfg p. unfold watcher.interval_of. repeat split.
  - destruct p as [z|]; [destruct (Z.eqb_spec z 0); cbn [negb]|];
      try destruct (Z.eqb_spec (settings.POLL_INTERVAL cfg) 0); cbn [negb]; lia.
  - intros z -> Hz. destruct (Z.eqb_spec z 0); [contradiction | reflexivity].
  - intros [->| ->]; cbn; now destruct (Z.eqb (settings.POLL_INTERVAL cfg) 0).
  - intros flag s Hneg.
    match goal with |- context [Z.to_nat ?i] =>
      replace (Z.to_nat i) with 0 by (symmetry; apply Z2Nat.inj_0 || lia)
    end.
    reflexivity.
Qed.

Lemma poll_interval_fallback_witness :
  watcher.interval_of (Scenario.cfg [] 0%Q) (Some (-5)%Z) = (-5)%Z
  /\ watcher.interval_of (Scenario.cfg [] 0%Q) (Some 0%Z) = 30%Z
  /\ watcher.sleep_loop true
       (Z.to_nat (watcher.interval_of (Scenario.cfg [] 0%Q) (Some (-5)%Z)))
       (mkSt (Scenario.idle 3) [])
     = (Ret tt, mkSt (Scenario.idle 3) []).
Proof.
  split; [|split].
  - apply (poll_interval_fallback Sim.t _ (Scenario.cfg [] 0%Q) (Some (-5)%Z) ) with (z := (-5)%Z);
      [reflexivity | lia].
  - apply (poll_interval_fallback Sim.t _ (Scenario.cfg [] 0%Q) (Some 0%Z)). now right.
  - apply (poll_interval_fallback Sim.t _ (Scenario.cfg [] 0%Q) (Some (-5)%Z)). reflexivity.
Defined.
Section ConnectFacts.
Context {E : Type} {EE : Env E}.
Import sftp_handler.

(** What [connect] leaves behind, case by case on the answers it gets. *)
Lemma connect_outcome (self : SFTPHandler) (s : St E) r s' :
  connect self s = (r, s') ->
  exists evs,
    trace s' = (trace s ++ evs)%list
    /\ match r with
       | Ret h =>
           host h = host self /\ port h = port self /\ username h = username self
           /\ password h = password self /\ key_file h = key_file self
           /\ ((exists x, In (EvCall (CSftpNormalize ".") (Some x)) evs) -> _home h = None)
           /\ (forall home, _home h = Some home ->
                 In (EvCall (CSftpNormalize ".") None) evs)
       | Raise x =>
           exists c evs', evs = (evs' ++ [EvCall c (Some x)])%list
                          /\ In (tag c) [KTransport; KLoadKey; KAuthKey; KAuthPassword; KSftpOpen]
       | Diverged => False
       end.
Proof.
  intros H. unfold connect in H.
  unfold bind, try_except, call, log, emit, ret in H. cbn [env trace] in H.
  repeat match type of H with
         | context [perform ?c ?e] =>
             let a := fresh "a" in let e' := fresh "e" in
             destruct (perform c e) as [[a|a] e']; cbn [res_of failure env trace] in H
         | context [if Py.truthy_opt ?k then _ else _] =>
             destruct (Py.truthy_opt k) eqn:?; cbn [res_of failure env trace] in H
         end;
    inversion H; subst r s'; cbn [trace];
    repeat rewrite <- app_assoc; cbn [app];
    (eexists; split; [reflexivity|]);
    cbn [host port username password key_file _home];
    try match goal with Hk : Py.truthy_opt None = true |- _ => discriminate Hk end.
  all: try (do 5 (split; [reflexivity|]); split;
            [ intros [x Hin]; cbn [In] in Hin;
              repeat (destruct Hin as [Hin|Hin]; [discriminate Hin|]);
              first [contradiction | reflexivity]
            | intros home Hh; first [discriminate Hh | cbn [In]; tauto] ]).
  all: match goal with
       | |- exists c evs', ?l = _ /\ _ =>
           first
             [ eexists _, []; split; [reflexivity | cbn; tauto]
             | eexists _, [_]; split; [reflexivity | cbn; tauto]
             | eexists _, [_; _]; split; [reflexivity | cbn; tauto]
             | eexists _, [_; _; _]; split; [reflexivity | cbn; tauto]
             | eexists _, [_; _; _; _]; split; [reflexivity | cbn; tauto] ]
       | _ => idtac
       end.
Qed.

End ConnectFacts.
(** X22.  [connect] fails on the handshake only: when it raises, the
    exception is that of the last call it made, and that call is the opening
    of the transport, the loading of the key, the authentication or the
    opening of the SFTP session.  A failure to resolve or to list the home
    directory never fails the connection. *)
Theorem connect_fails_only_on_handshake :
  forall (E : Type) (EE : Env E) (self : sftp_handler.SFTPHandler) (s s' : St E) (x : exn),
    sftp_handler.connect self s = (Raise x, s') ->
    exists c evs,
      trace s' = (trace s ++ evs ++ [EvCall c (Some x)])%list
      /\ In (tag c) [KTransport; KLoadKey; KAuthKey; KAuthPassword; KSftpOpen].
Proof.
  intros E EE self s s' x H.
  destruct (connect_outcome self s _ _ H) as [evs [Ht [c [evs' [He Hc]]]]].
  exists c, evs'. split; [now rewrite Ht, He | exact Hc].
Qed.

Lemma connect_fails_only_on_handshake_witness :
  let denied := PyError "AuthenticationException" "Authentication failed." in
  exists c evs s',
    sftp_handler.connect (sftp_handler.new "sftp.example" 22 "bob" (Some "pw") None)
      (Mock.init Mock.no_answers [None; Some denied] [])
    = (Raise denied, s')
    /\ trace s' = (evs ++ [EvCall c (Some denied)])%list
    /\ In (tag c) [KTransport; KLoadKey; KAuthKey; KAuthPassword; KSftpOpen].
Proof.
  intros denied.
  pose proof (fun s' =>
                connect_fails_only_on_handshake Mock.t _
                  (sftp_handler.new "sftp.example" 22 "bob" (Some "pw") None)
                  (Mock.init Mock.no_answers [None; Some denied] []) s' denied) as T.
  edestruct T as [c [evs [Ht Hc]]].
  - vm_compute. reflexivity.
  - eexists c, evs, _. split; [reflexivity|]. split; [exact Ht | exact Hc].
Defined.

(** X23.  When the home directory cannot be resolved, the connection is still
    made, the handler has no home, and every upload through it is addressed to
    the full AWS path of the user. *)
Theorem unresolved_home_falls_back :
  forall (E : Type) (EE : Env E) (self h : sftp_handler.SFTPHandler) (s s' : St E)
         (evs : list Event) (x : exn),
    sftp_handler.connect self s = (Ret h, s') ->
    trace s' = (trace s ++ evs)%list ->
    In (EvCall (CSftpNormalize ".") (Some x)) evs ->
    sftp_handler._home h = None
    /\ forall s2 : St E,
         fst (sftp_handler.get_auto_remote_dir h s2)
         = Ret ("/vendor-automation-sftp-storage-live-me-1/home/"
                  ++ sftp_handler.username self ++ "/catalog").
Proof.
  intros E EE self h s s' evs x H Ht Hin.
  destruct (connect_outcome self s _ _ H) as [evs0 [Ht0 [_ [_ [Hu [_ [_ [Hnone _]]]]]]]].
  rewrite Ht in Ht0. apply app_inv_head in Ht0. subst evs0.
  assert (Hh : sftp_handler._home h = None) by (apply Hnone; now exists x).
  split; [exact Hh|]. intros s2.
  unfold sftp_handler.get_auto_remote_dir, sftp_handler._aws_intended_dir.
  now rewrite Hh, Hu.
Qed.

Lemma unresolved_home_falls_back_witness :
  let server := Sim.mk [] [] [] None [] [] 0 in
  exists h s',
    sftp_handler.connect (sftp_handler.new "sftp.example" 22 "bob" (Some "pw") None)
      (mkSt server []) = (Ret h, s')
    /\ sftp_handler._home h = None
    /\ fst (sftp_handler.get_auto_remote_dir h s')
       = Ret "/vendor-automation-sftp-storage-live-me-1/home/bob/catalog".
Proof.
  intros server.
  pose proof (fun h s' evs x =>
                unresolved_home_falls_back Sim.t _
                  (sftp_handler.new "sftp.example" 22 "bob" (Some "pw") None) h
                  (mkSt server []) s' evs x) as T.
  edestruct T as [Hh Hd].
  - vm_compute. reflexivity.
  - cbn [trace app]. reflexivity.
  - cbn [In]. do 4 right. left. reflexivity.
  - eexists _, _. split; [reflexivity|]. split; [exact Hh | exact (Hd _)].
Defined.

Section CaseFacts.

Lemma lower_ascii_slash (a : ascii) : Ascii.eqb (Py.lower_ascii a) "/" = Ascii.eqb a "/".
Proof. destruct a as [[] [] [] [] [] [] [] []]; reflexivity. Qed.

Lemma lower_ascii_dot (a : ascii) : Ascii.eqb (Py.lower_ascii a) "." = Ascii.eqb a ".".
Proof. destruct a as [[] [] [] [] [] [] [] []]; reflexivity. Qed.

Lemma lower_app (a b : string) : Py.lower (a ++ b) = Py.lower a ++ Py.lower b.
Proof. induction a as [|c a IH]; [reflexivity|]. simpl. now rewrite IH. Qed.

Lemma truthy_lower (s : string) : Py.truthy (Py.lower s) = Py.truthy s.
Proof. now destruct s. Qed.

Lemma rsplit_slash_lower (p : string) :
  Py.rsplit_slash (Py.lower p)
  = (Py.lower (fst (Py.rsplit_slash p)), Py.lower (snd (Py.rsplit_slash p))).
Proof.
  induction p as [|a p IH]; [reflexivity|].
  cbn [Py.lower Py.rsplit_slash]. rewrite IH.
  destruct (Py.rsplit_slash p) as [h t]. cbn [fst snd].
  rewrite truthy_lower, lower_ascii_slash.
  destruct (Py.truthy h); [reflexivity|]. now destruct (Ascii.eqb a "/").
Qed.

Lemma split_last_dot_lower (s : string) :
  Py.split_last_dot (Py.lower s)
  = match Py.split_last_dot s with
    | Some (pre, suf) => Some (Py.lower pre, Py.lower suf)
    | None => None
    end.
Proof.
  induction s as [|a s IH]; [reflexivity|].
  cbn [Py.lower Py.split_last_dot]. rewrite IH.
  destruct (Py.split_last_dot s) as [[pre suf]|]; [reflexivity|].
  rewrite lower_ascii_dot. now destruct (Ascii.eqb a ".").
Qed.

Lemma all_dots_lower (s : string) : Py.all_dots (Py.lower s) = Py.all_dots s.
Proof.
  induction s as [|a s IH]; [reflexivity|]. simpl. now rewrite IH, lower_ascii_dot.
Qed.

Lemma splitext_lower (p : string) :
  snd (Py.splitext (Py.lower p)) = Py.lower (snd (Py.splitext p)).
Proof.
  unfold Py.splitext. rewrite rsplit_slash_lower.
  destruct (Py.rsplit_slash p) as [h t]. cbn [fst snd]. rewrite split_last_dot_lower.
  destruct (Py.split_last_dot t) as [[pre suf]|]; [|reflexivity].
  rewrite all_dots_lower. now destruct (Py.all_dots pre).
Qed.

Lemma lstrip_dot_lower (s : string) :
  Py.lstrip "." (Py.lower s) = Py.lower (Py.lstrip "." s).
Proof.
  induction s as [|a s IH]; [reflexivity|].
  cbn [Py.lower Py.lstrip]. rewrite lower_ascii_dot.
  destruct (Ascii.eqb a "."); [exact IH | reflexivity].
Qed.

(** The extension the filter looks up is a function of the lower-cased
    name. *)
Lemma extension_of_lower (name : string) :
  Py.lower (Py.lstrip "." (snd (Py.splitext name)))
  = Py.lstrip "." (snd (Py.splitext (Py.lower name))).
Proof. now rewrite splitext_lower, lstrip_dot_lower. Qed.

End CaseFacts.

(** X24.  On ASCII names and allow-lists the extension filter ignores case
    on both sides: two names that differ in the case of their letters only are
    treated alike, and so are two allow-lists that differ in case only. *)
Theorem extension_filter_ignores_case :
  forall (cfg cfg' : settings.t) (name name' : string),
    is_ascii name = true -> is_ascii name' = true ->
    forallb is_ascii (settings.ALLOWED_EXTENSIONS cfg) = true ->
    forallb is_ascii (settings.ALLOWED_EXTENSIONS cfg') = true ->
    map Py.lower (settings.ALLOWED_EXTENSIONS cfg)
    = map Py.lower (settings.ALLOWED_EXTENSIONS cfg') ->
    Py.lower name = Py.lower name' ->
    watcher._filter_allowed cfg name = watcher._filter_allowed cfg' name'.
Proof.
  intros cfg cfg' name name' _ _ _ _ Hl Hn. unfold watcher._filter_allowed.
  rewrite (extension_of_lower name), (extension_of_lower name'), Hn.
  destruct (settings.ALLOWED_EXTENSIONS cfg) as [|a l];
    destruct (settings.ALLOWED_EXTENSIONS cfg') as [|a' l']; try discriminate Hl;
    [reflexivity|].
  now rewrite Hl.
Qed.

Lemma extension_filter_ignores_case_witness :
  watcher._filter_allowed (Scenario.cfg ["csv"; "TXT"] 0%Q) "Report.CSV"
  = watcher._filter_allowed (Scenario.cfg ["CSV"; "txt"] 0%Q) "report.csv".
Proof.
  apply (extension_filter_ignores_case (Scenario.cfg ["csv"; "TXT"] 0%Q)
           (Scenario.cfg ["CSV"; "txt"] 0%Q) "Report.CSV" "report.csv"); reflexivity.
Defined.

(** X25.  A listing that fails ends the cycle there: the exception leaves
    [run_once], and nothing but [files().list] was called; no file was
    downloaded and no connection was opened. *)
Theorem listing_failure_ends_cycle :
  forall (E : Type) (EE : Env E) (cfg : settings.t) (fuel : nat) (self : watcher.Watcher)
         (d arch : option string) (s s1 : St E) (x : exn),
    let folder_id := Py.strip_ws (Py.or_else d (settings.DRIVE_FOLDER_ID cfg)) in
    let started := [EvLog INFO "Watcher: checking Drive for new files..." []] in
    Py.truthy folder_id = true ->
    drive_handler.list_files_in_folder fuel folder_id 100 None (after s started)
    = (Raise x, s1) ->
    watcher.run_once cfg fuel self d arch s = (Raise x, s1)
    /\ exists evs,
         trace s1 = (trace s ++ started ++ evs)%list /\ Forall (only [KList]) evs.
Proof.
  intros E EE cfg fuel self d arch s s1 x folder_id started Hfolder Hlist. split.
  - unfold watcher.run_once. cbv zeta. fold folder_id. rewrite Hfolder. cbn [negb].
    apply bind_Raise. unfold watcher.collect_phase. unfold bind at 1. rewrite log_run.
    apply bind_Raise. unfold drive_handler.download_all_from_folder. now apply bind_Raise.
  - destruct (within_list_files fuel folder_id 100 None _ _ _ Hlist) as [evs [Ht Hf]].
    exists evs. split; [|exact Hf]. rewrite Ht. cbn [after trace]. now rewrite <- app_assoc.
Qed.

Lemma listing_failure_ends_cycle_witness :
  let x := HttpError "503 backend error" in
  exists s1,
    watcher.run_once (Scenario.cfg [] 0%Q) 5 Scenario.self (Some "inbox") None
      (Mock.init (Mock.listing [Scenario.a_csv]) [Some x; Some x; Some x] [])
    = (Raise x, s1)
    /\ calls (trace s1) = 3.
Proof.
  intros x.
  pose proof (fun s1 =>
                listing_failure_ends_cycle Mock.t _ (Scenario.cfg [] 0%Q) 5 Scenario.self
                  (Some "inbox") None
                  (Mock.init (Mock.listing [Scenario.a_csv]) [Some x; Some x; Some x] [])
                  s1 x) as T.
  edestruct T as [H _].
  - reflexivity.
  - vm_compute. reflexivity.
  - eexists. split; [exact H | reflexivity].
Defined.

Section UploadDirs.
Context {E : Type} {EE : Env E}.
Import sftp_handler.




End UploadDirs.


(* ================================================================== *)
(** * The cycle, file by file *)

Section Turns.
Context {E : Type} {EE : Env E}.
Context (cfg : settings.t).
Import drive_handler sftp_handler watcher.

Lemma safe_temp_cleanup local_path : safe (temp_cleanup local_path : M E unit).
Proof.
  unfold temp_cleanup. apply safe_try_except; [repeat nodiv_step | intros e; apply safe_log].
Qed.

(** Every file of the second loop has its turn, as [turn] describes it. *)
Lemma relay_turn sftp arch f post (sa : St E) : turn cfg sftp arch f post sa.
Proof.
  unfold turn. cbv zeta.
  destruct (upload_puts_once sftp (r_path f) sa) as [dir [evs [Hd [Ht Hu]]]].
  destruct (upload_to_auto_dir sftp (r_path f) sa) as [[[]|y|] sb] eqn:Hup;
    cbn [fst snd] in Ht, Hu; [| |contradiction].
  - exists dir, (Ret tt), sb, evs.
    split; [exact Hd|]. split; [reflexivity|]. split; [exact Ht|].
    destruct (move_outcome (r_id f) (Some (Py.or_else arch (settings.ARCHIVE_FOLDER_NAME cfg)))
                sb) as [moved [sc [evs' [Hmove [Ht' [Hq _]]]]]].
    destruct (safe_temp_cleanup (r_path f) (after sc [archive_record f moved]))
      as [[] [sd Hclean]].
    split; [exact Hu|]. exists moved, sc, sd, evs'.
    split; [exact Hmove|]. split; [exact Ht'|]. split; [exact Hq|]. split; [exact Hclean|].
    cbn [relay_each]. unfold bind at 1.
    assert (Hone : relay_one cfg sftp arch f sa = (Ret tt, sd)).
    { unfold relay_one. cbv zeta.
      rewrite (bind_Ret _ _ _ _ _ Hup), (bind_Ret _ _ _ _ _ Hmove).
      unfold bind at 1. unfold archive_record in Hclean.
      destruct moved; rewrite log_run; exact Hclean. }
    now rewrite (try_except_Ret _ _ _ _ _ Hone).
  - exists dir, (Raise y), sb, evs.
    split; [exact Hd|]. split; [reflexivity|]. split; [exact Ht|]. split; [exact Hu|].
    cbn [relay_each]. unfold bind at 1.
    assert (Hone : relay_one cfg sftp arch f sa = (Raise y, sb)).
    { unfold relay_one. now apply bind_Raise. }
    now rewrite (try_except_Raise _ _ _ _ _ Hone), log_run.
Qed.

(** Whatever happens to the files before it, a file of the list is reached. *)
Lemma relay_each_reaches sftp arch pre f post : forall s : St E,
  exists sa evs,
    relay_each cfg sftp arch (pre ++ f :: post) s = relay_each cfg sftp arch (f :: post) sa
    /\ trace sa = (trace s ++ evs)%list.
Proof.
  induction pre as [|g pre IH]; intros s.
  - exists s, []. now rewrite app_nil_r.
  - change ((g :: pre) ++ f :: post)%list with (g :: (pre ++ f :: post))%list.
    destruct (relay_turn sftp arch g (pre ++ f :: post)%list s)
      as [dir [r [sb [evs [_ [_ [Ht Hm]]]]]]].
    cbv zeta in Hm. destruct r as [[]|y|]; [| |contradiction].
    + destruct Hm as [_ [moved [sc [sd [evs' [Hmove [Ht' [_ [Hclean Hgo]]]]]]]]].
      destruct (IH sd) as [sa [evs2 [Hrun Ht2]]].
      destruct (within_run [KOsExists; KOsRemove] (temp_cleanup (r_path g))
                  (after sc [archive_record g moved])) as [evs3 [Ht3 _]].
      { unfold temp_cleanup. repeat within_step. }
      rewrite Hclean in Ht3. cbn [snd after trace] in Ht3.
      eexists sa, _. split; [now rewrite Hgo|].
      rewrite Ht2, Ht3, Ht', Ht. repeat rewrite <- app_assoc. reflexivity.
    + destruct Hm as [_ Hgo].
      destruct (IH (after sb [EvLog ERROR "Upload failed for {f['name']}: {e}"
                                    [AStr (r_name g); AExn y]])) as [sa [evs2 [Hrun Ht2]]].
      eexists sa, _. split; [now rewrite Hgo|].
      rewrite Ht2. cbn [after trace]. rewrite Ht. repeat rewrite <- app_assoc. reflexivity.
Qed.

(** [close] on a connected handler. *)
Lemma close_outcome h (s : St E) :
  _sftp h = true -> _transport h = true -> closes s (close h s).
Proof.
  intros Hs Ht. unfold closes, close. rewrite Hs, Ht. cbn [when].
  destruct (perform CSftpClose (env s)) as [a1 e1] eqn:H1.
  destruct (perform CTransportClose e1) as [a2 e2] eqn:H2.
  exists a1, e1, a2, e2. split; [reflexivity | split; [exact H2|]].
  unfold bind, try_finally. rewrite (call_run _ _ _ _ H1).
  destruct a1 as [[]|x]; cbn [res_of failure]; rewrite (call_at _ _ _ _ _ H2);
    destruct a2 as [[]|y]; cbn [res_of failure];
    try rewrite log_run; unfold after; cbn [env trace app]; repeat rewrite <- app_assoc;
    reflexivity.
Qed.

(** A cycle that has connected ends with [close], whose outcome is its own. *)
Lemma run_once_ends_with_close fuel self d arch (s s0 s1 : St E) f files sftp :
  Py.truthy (Py.strip_ws (Py.or_else d (settings.DRIVE_FOLDER_ID cfg))) = true ->
  collect_phase cfg fuel self (Py.strip_ws (Py.or_else d (settings.DRIVE_FOLDER_ID cfg))) s
  = (Ret (f :: files), s0) ->
  connect (make_handler cfg self) s0 = (Ret sftp, s1) ->
  exists s3,
    relay_each cfg sftp arch (f :: files) s1 = (Ret tt, s3)
    /\ run_once cfg fuel self d arch s = close sftp s3
    /\ closes s3 (close sftp s3).
Proof.
  intros Hfolder Hcol Hconn.
  destruct (relay_each_tt cfg sftp arch (f :: files) s1) as [s3 Hs3].
  destruct (connect_opens _ _ _ _ Hconn) as [Hs Ht].
  exists s3. split; [exact Hs3 | split; [|now apply close_outcome]].
  rewrite (run_once_relays cfg fuel self d arch s s0 f files Hfolder Hcol).
  unfold relay_phase. rewrite (bind_Ret _ _ _ _ _ Hconn).
  unfold try_finally. rewrite Hs3.
  destruct (close sftp s3) as [[[]|y|] s4]; reflexivity.
Qed.

Lemma filter_each_app pre l : forall ok0 ok (s s' : St E),
  filter_each cfg pre ok0 s = (Ret ok, s') ->
  filter_each cfg (pre ++ l) ok0 s = filter_each cfg l ok s'.
Proof.
  induction pre as [|g pre IH]; intros ok0 ok s s' H; cbn [filter_each app] in *.
  - now inversion H.
  - destruct (negb (String.eqb (r_status g) "OK")).
    { unfold bind in *. rewrite log_run in *. now apply IH. }
    destruct (negb (_filter_allowed cfg (r_name g))).
    { unfold bind in *. rewrite log_run in *. now apply IH. }
    unfold bind in *.
    destruct (size_skip cfg g s) as [[[|]|x|] s1]; try discriminate H; now apply IH.
Qed.

End Turns.

(** C2, as the code has it.  In a cycle with at least two eligible files
    whose first upload raises: the exception is caught at the file boundary and
    recorded, and the loop goes on with the remaining files from there; every
    remaining file gets its turn, whatever happened to the files before it:
    its upload is run, and when that returns the file was put, the archive
    step is run and answers [False] exactly when a Drive call of it was given
    up, and the temp copy is dealt with; the loop over the files returns.  The
    cycle then ends with [close] on the handler that [connect] returned: both
    close calls are made, and the outcome of [close] is the outcome of the
    cycle, which returns when both close calls return and raises the
    exception of the failing close call otherwise. *)
Theorem cycle_isolation :
  forall (E : Type) (EE : Env E) (cfg : settings.t) (fuel : nat)
         (self : watcher.Watcher) (d arch : option string)
         (f1 f2 : drive_handler.result) (rest : list drive_handler.result)
         (s s0 s1 s2 : St E) (sftp : sftp_handler.SFTPHandler) (x : exn),
    let folder_id := Py.strip_ws (Py.or_else d (settings.DRIVE_FOLDER_ID cfg)) in
    Py.truthy folder_id = true ->
    watcher.collect_phase cfg fuel self folder_id s = (Ret (f1 :: f2 :: rest), s0) ->
    sftp_handler.connect (watcher.make_handler cfg self) s0 = (Ret sftp, s1) ->
    sftp_handler.upload_to_auto_dir sftp (drive_handler.r_path f1) s1 = (Raise x, s2) ->
    let s2' := after s2 [EvLog ERROR "Upload failed for {f['name']}: {e}"
                               [AStr (drive_handler.r_name f1); AExn x]] in
    watcher.relay_each cfg sftp arch (f1 :: f2 :: rest) s1
    = watcher.relay_each cfg sftp arch (f2 :: rest) s2'
    /\ (forall pre f post,
           (f2 :: rest) = (pre ++ f :: post)%list ->
           exists sa evs,
             watcher.relay_each cfg sftp arch (f2 :: rest) s2'
             = watcher.relay_each cfg sftp arch (f :: post) sa
             /\ trace sa = (trace s2' ++ evs)%list
             /\ turn cfg sftp arch f post sa)
    /\ (exists s3,
           watcher.relay_each cfg sftp arch (f2 :: rest) s2' = (Ret tt, s3)
           /\ watcher.run_once cfg fuel self d arch s = sftp_handler.close sftp s3
           /\ closes s3 (sftp_handler.close sftp s3)).
Proof.
  intros E EE cfg fuel self d arch f1 f2 rest s s0 s1 s2 sftp x folder_id
         Hfolder Hcollect Hconn Hup s2'.
  assert (Hfirst : watcher.relay_each cfg sftp arch (f1 :: f2 :: rest) s1
                   = watcher.relay_each cfg sftp arch (f2 :: rest) s2').
  { cbn [watcher.relay_each]. unfold bind at 1.
    assert (Hone : watcher.relay_one cfg sftp arch f1 s1 = (Raise x, s2)).
    { unfold watcher.relay_one. now apply bind_Raise. }
    rewrite (try_except_Raise _ _ _ _ _ Hone), log_run. reflexivity. }
  split; [exact Hfirst | split].
  - intros pre f post Hsplit. rewrite Hsplit.
    destruct (relay_each_reaches cfg sftp arch pre f post s2') as [sa [evs [Hrun Ht]]].
    exists sa, evs. split; [exact Hrun | split; [exact Ht | apply relay_turn]].
  - destruct (run_once_ends_with_close cfg fuel self d arch s s0 s1 f1 (f2 :: rest) sftp
                Hfolder Hcollect Hconn) as [s3 [Hs3 [Hrun Hclose]]].
    exists s3. rewrite <- Hfirst. now repeat split.
Qed.

(** C2 as stated fails: in this cycle the upload of a.csv raises and is
    caught, b.csv is uploaded, and closing the connection raises; the cycle
    raises to its caller. *)
Lemma cycle_isolation_counterexample :
  let refused := IOError None "Failure" in
  let dropped := PyError "SSHException" "Server connection dropped" in
  let b_csv := mkFileMeta "id-b" "b.csv" "text/csv" in
  let r := watcher.run_once (Scenario.cfg [] 0%Q) 5 Scenario.self (Some "inbox") None
             (Mock.init (Mock.listing [Scenario.a_csv; b_csv])
                        (repeat None 13 ++ [Some refused] ++ repeat None 9 ++ [Some dropped])
                        []) in
  map (fun u => (fst (fst u), snd u)) (uploads (trace (snd r)))
  = [("/tmp/sigma/a.csv", Some refused); ("/tmp/sigma/b.csv", None)]
  /\ fst r = Raise dropped.
Proof. vm_compute. split; reflexivity. Qed.

Lemma cycle_isolation_witness :
  exists sftp s3,
    watcher.run_once (Scenario.cfg [] 0%Q) 5 Scenario.self (Some "inbox") None
      (mkSt Scenario.blocked_first [])
    = sftp_handler.close sftp s3
    /\ closes s3 (sftp_handler.close sftp s3).
Proof.
  pose proof (fun f1 f2 rest s0 s1 s2 sftp x =>
                cycle_isolation Sim.t _ (Scenario.cfg [] 0%Q) 5 Scenario.self
                  (Some "inbox") None f1 f2 rest (mkSt Scenario.blocked_first [])
                  s0 s1 s2 sftp x) as T.
  edestruct T as [_ [_ [s3 [_ [Hrun Hclose]]]]].
  - reflexivity.
  - vm_compute. reflexivity.
  - vm_compute. reflexivity.
  - vm_compute. reflexivity.
  - eexists _, s3. split; [exact Hrun | exact Hclose].
Defined.

(** C9 (size that cannot be read).  With a size limit configured, a
    downloaded file of an allowed extension whose size cannot be read, wherever
    it stands in the download results, is not excluded: the exception is
    recorded as a warning and the file joins [files_ok] behind the files
    kept before it.  The cycle then goes on to the upload: when [connect]
    returns, the file gets its turn ([turn]: its upload is run, and so on), and
    the cycle ends with [close]; when [connect] raises, so does the cycle. *)
Theorem unreadable_size_keeps_file :
  forall (E : Type) (EE : Env E) (cfg : settings.t) (fuel : nat)
         (self : watcher.Watcher) (d arch : option string)
         (pre : list drive_handler.result) (f : drive_handler.result)
         (rest ok : list drive_handler.result)
         (s0 sd s : St E) (x : exn) (e' : E),
    let folder_id := Py.strip_ws (Py.or_else d (settings.DRIVE_FOLDER_ID cfg)) in
    Py.truthy folder_id = true ->
    Qeq_bool (settings.MAX_FILE_SIZE_MB cfg) 0 = false ->
    drive_handler.download_all_from_folder fuel folder_id (watcher.temp_dir self) false None
      (after s0 [EvLog INFO "Watcher: checking Drive for new files..." []])
    = (Ret (pre ++ f :: rest)%list, sd) ->
    watcher.filter_each cfg pre [] sd = (Ret ok, s) ->
    drive_handler.r_status f = "OK" ->
    watcher._filter_allowed cfg (drive_handler.r_name f) = true ->
    perform (COsGetsize (drive_handler.r_path f)) (env s) = (Fail x, e') ->
    let s' := mkSt e' (trace s ++
                [EvCall (COsGetsize (drive_handler.r_path f)) (Some x);
                 EvLog WARNING "Cannot stat size for {f['path']}: {e}"
                       [AStr (drive_handler.r_path f); AExn x]])%list in
    watcher.filter_each cfg (pre ++ f :: rest) [] sd
    = watcher.filter_each cfg rest (ok ++ [f]) s'
    /\ exists more s1,
        watcher.filter_each cfg rest (ok ++ [f]) s' = (Ret (ok ++ f :: more)%list, s1)
        /\ (forall y s2,
               sftp_handler.connect (watcher.make_handler cfg self) s1 = (Raise y, s2) ->
               watcher.run_once cfg fuel self d arch s0 = (Raise y, s2))
        /\ (forall sftp s2,
               sftp_handler.connect (watcher.make_handler cfg self) s1 = (Ret sftp, s2) ->
               exists sa evs s3,
                 watcher.relay_each cfg sftp arch (ok ++ f :: more) s2
                 = watcher.relay_each cfg sftp arch (f :: more) sa
                 /\ trace sa = (trace s2 ++ evs)%list
                 /\ turn cfg sftp arch f more sa
                 /\ watcher.relay_each cfg sftp arch (ok ++ f :: more) s2 = (Ret tt, s3)
                 /\ watcher.run_once cfg fuel self d arch s0 = sftp_handler.close sftp s3
                 /\ closes s3 (sftp_handler.close sftp s3)).
Proof.
  intros E EE cfg fuel self d arch pre f rest ok s0 sd s x e' folder_id
         Hfolder Hmax Hdl Hpre Hst Hext Hsize s'.
  assert (Hstep : watcher.filter_each cfg (f :: rest) ok s
                  = watcher.filter_each cfg rest (ok ++ [f]) s').
  { cbn [watcher.filter_each]. rewrite Hst, Hext.
    change (String.eqb "OK" "OK") with true. cbn [negb].
    assert (Hskip : watcher.size_skip cfg f s = (Ret false, s')).
    { unfold watcher.size_skip. rewrite Hmax. cbn [negb].
      unfold try_except, bind. rewrite (call_run _ _ _ _ Hsize). cbn [res_of failure].
      rewrite log_run. unfold after. cbn [env trace]. now rewrite <- app_assoc. }
    now rewrite (bind_Ret _ _ _ _ _ Hskip). }
  split; [now rewrite (filter_each_app cfg pre (f :: rest) [] ok sd s Hpre)|].
  destruct (filter_each_total cfg rest (ok ++ [f])%list s') as [more [s1 Hfil]].
  rewrite <- app_assoc in Hfil. cbn [app] in Hfil.
  exists more, s1. split; [exact Hfil|].
  assert (Hcol : watcher.collect_phase cfg fuel self folder_id s0
                 = (Ret (ok ++ f :: more)%list, s1)).
  { unfold watcher.collect_phase. unfold bind at 1. rewrite log_run.
    rewrite (bind_Ret _ _ _ _ _ Hdl).
    now rewrite (filter_each_app cfg pre (f :: rest) [] ok sd s Hpre), Hstep. }
  assert (Hne : exists g files, (ok ++ f :: more)%list = g :: files)
    by (destruct ok; eexists _, _; reflexivity).
  destruct Hne as [g [files Hgf]]. rewrite Hgf in Hcol.
  split.
  - intros y s2 Hconn.
    rewrite (run_once_relays cfg fuel self d arch s0 s1 g files Hfolder Hcol).
    unfold watcher.relay_phase. now apply bind_Raise.
  - intros sftp s2 Hconn.
    destruct (relay_each_reaches cfg sftp arch ok f more s2) as [sa [evs [Hrun Ht]]].
    destruct (run_once_ends_with_close cfg fuel self d arch s0 s1 s2 g files sftp
                Hfolder Hcol Hconn) as [s3 [Hs3 [Hend Hclose]]].
    exists sa, evs, s3. rewrite Hgf.
    rewrite Hgf in Hrun.
    split; [exact Hrun | split; [exact Ht | split; [apply relay_turn|]]].
    now repeat split.
Qed.

Lemma unreadable_size_keeps_file_witness :
  let f := drive_handler.mkResult "id-b" "b.csv" "/tmp/sigma/b.csv" "OK" "" in
  let b_csv := mkFileMeta "id-b" "b.csv" "text/csv" in
  exists ok more s1,
    watcher.collect_phase (Scenario.cfg [] 1%Q) 5 Scenario.self "inbox"
      (Mock.init (Mock.listing [Scenario.a_csv; b_csv])
                 [None; None; None; None; None; None;
                  Some (IOError (Some EACCES) "Permission denied")] [])
    = (Ret (ok ++ f :: more)%list, s1)
    /\ length ok = 1.
Proof.
  intros f b_csv.
  pose proof (fun ok sd s x e' =>
                unreadable_size_keeps_file Mock.t _ (Scenario.cfg [] 1%Q) 5 Scenario.self
                  (Some "inbox") None
                  [drive_handler.mkResult "id-a" "a.csv" "/tmp/sigma/a.csv" "OK" ""] f [] ok
                  (Mock.init (Mock.listing [Scenario.a_csv; b_csv])
                     [None; None; None; None; None; None;
                      Some (IOError (Some EACCES) "Permission denied")] [])
                  sd s x e') as T.
  edestruct T as [Hstep [more [s1 [Hfil _]]]].
  - reflexivity.
  - reflexivity.
  - vm_compute. reflexivity.
  - vm_compute. reflexivity.
  - reflexivity.
  - reflexivity.
  - vm_compute. reflexivity.
  - exists [drive_handler.mkResult "id-a" "a.csv" "/tmp/sigma/a.csv" "OK" ""], more, s1.
    split; [|reflexivity].
    unfold watcher.collect_phase. unfold bind at 1. rewrite log_run.
    erewrite bind_Ret; [|vm_compute; reflexivity].
    etransitivity; [exact Hstep | exact Hfil].
Defined.

(* ================================================================== *)
(** * The loop *)

Section LoopRuns.
Context {E : Type} {EE : Env E}.
Context (cfg : settings.t).
Import watcher.






End LoopRuns.



(* ================================================================== *)
(** * Directory preparation *)

Section Walks.
Context {E : Type} {EE : Env E}.
Import sftp_handler.




End Walks.



